(** * Indexer control panel: indexing worker and retrieval engine

    A shallow embedding of the indexing worker (file walk, chunker,
    embedding batches, progress reporting) and of the search endpoint
    (cosine, keyword and hybrid scoring) of the indexer control panel,
    with the properties of its design document stated against them,
    and of the reasoning endpoints, the folder cache, the file preview,
    the snapshot files and the selection rules of the dashboard, with
    further properties of the code.

    Conventions.
    - A JavaScript number is an IEEE-754 binary64 value: the kernel's
      primitive [float].  [=?] on floats is JavaScript's [===] on numbers
      and [<=?] its [<=] (both false on NaN).
    - A JavaScript string is a [string]: a sequence of code units below
      256.  Counters and array lengths are [nat].
    - What the program reads from the outside (directory listings, file
      contents, the embedding process, the wall clock, control messages)
      is an explicit argument of the function that reads it. *)

From Stdlib Require Import List String Ascii Bool Arith PeanoNat ZArith Lia.
From Stdlib Require Import DecimalString DecimalNat.
From Stdlib Require Import Floats.
Import ListNotations.

Set Warnings "-inexact-float".

Local Open Scope string_scope.
Local Open Scope list_scope.
Local Open Scope nat_scope.

(** ** JavaScript built-ins used by the sources *)

Module JS.

(** [s.length === 0], i.e. [!s] for a string. *)
Definition isEmpty (s : string) : bool :=
  match s with
  | EmptyString => true
  | String _ _ => false
  end.

(** WhiteSpace and LineTerminator code units below 256: TAB, LF, VT, FF,
    CR, SPACE and NBSP.  This is the class of [\s] and of [trim]. *)
Definition isSpace (c : ascii) : bool :=
  let n := nat_of_ascii c in
  ((9 <=? n) && (n <=? 13)) || (n =? 32) || (n =? 160).

(** Line terminators below 256 (the characters [.] does not match). *)
Definition isLineTerminator (c : ascii) : bool :=
  let n := nat_of_ascii c in (n =? 10) || (n =? 13).

Definition lowerChar (c : ascii) : ascii :=
  let n := nat_of_ascii c in
  if ((65 <=? n) && (n <=? 90))
     || ((192 <=? n) && (n <=? 222) && negb (n =? 215))
  then ascii_of_nat (n + 32) else c.

Fixpoint toLowerCase (s : string) : string :=
  match s with
  | EmptyString => EmptyString
  | String c s' => String (lowerChar c) (toLowerCase s')
  end.

(** [s.startsWith(p)] *)
Fixpoint startsWith (s p : string) : bool :=
  match p, s with
  | EmptyString, _ => true
  | String _ _, EmptyString => false
  | String b p', String a s' => Ascii.eqb a b && startsWith s' p'
  end.

(** [s.indexOf(p)]; [None] stands for -1. *)
Fixpoint indexOf (s p : string) : option nat :=
  if startsWith s p then Some 0
  else match s with
       | EmptyString => None
       | String _ s' => option_map S (indexOf s' p)
       end.

(** [s.includes(p)] *)
Definition includes (s p : string) : bool :=
  match indexOf s p with Some _ => true | None => false end.

(** [s.substring(i)] for [i <= s.length] (longer [i] gives the empty
    string, as in JavaScript). *)
Fixpoint drop (i : nat) (s : string) : string :=
  match i, s with
  | 0, _ => s
  | S _, EmptyString => EmptyString
  | S i', String _ s' => drop i' s'
  end.

(** [s.slice(0, n)] for [0 <= n]. *)
Fixpoint take (n : nat) (s : string) : string :=
  match n, s with
  | 0, _ => EmptyString
  | S _, EmptyString => EmptyString
  | S n', String c s' => String c (take n' s')
  end.

(** [s.substring(i, j)] for [i <= j]. *)
Definition substring (i j : nat) (s : string) : string :=
  take (j - i) (drop i s).

Fixpoint trimStart (s : string) : string :=
  match s with
  | EmptyString => EmptyString
  | String c s' => if isSpace c then trimStart s' else s
  end.

(** [trimEnd]: a space is dropped when everything after it is dropped. *)
Fixpoint trimEnd (s : string) : string :=
  match s with
  | EmptyString => EmptyString
  | String c s' =>
      match trimEnd s' with
      | EmptyString => if isSpace c then EmptyString else String c EmptyString
      | t => String c t
      end
  end.

Definition trim (s : string) : string := trimEnd (trimStart s).

(** [s.endsWith("/")]-style test on one code unit. *)
Fixpoint endsWithChar (s : string) (c : ascii) : bool :=
  match s with
  | EmptyString => false
  | String a EmptyString => Ascii.eqb a c
  | String _ s' => endsWithChar s' c
  end.

(** [s.replaceAll(a, b)] for single code units [a] and [b]. *)
Fixpoint replaceChar (a b : ascii) (s : string) : string :=
  match s with
  | EmptyString => EmptyString
  | String c s' => String (if Ascii.eqb c a then b else c) (replaceChar a b s')
  end.

(** [s.replace(/a/g, '')] for a single code unit [a]. *)
Fixpoint removeChar (a : ascii) (s : string) : string :=
  match s with
  | EmptyString => EmptyString
  | String c s' => if Ascii.eqb c a then removeChar a s' else String c (removeChar a s')
  end.

Fixpoint containsChar (a : ascii) (s : string) : bool :=
  match s with
  | EmptyString => false
  | String c s' => Ascii.eqb c a || containsChar a s'
  end.

(** [s.split(/\s+/)]: maximal runs of white space separate the pieces;
    [cur] is the piece being read, [inSep] tells that the previous code
    unit belonged to a separator. *)
Fixpoint splitSpacesFrom (cur : string) (inSep : bool) (s : string) : list string :=
  match s with
  | EmptyString => [cur]
  | String c s' =>
      if isSpace c
      then if inSep then splitSpacesFrom EmptyString true s'
           else cur :: splitSpacesFrom EmptyString true s'
      else splitSpacesFrom (cur ++ String c EmptyString)%string false s'
  end.

Definition splitSpaces (s : string) : list string :=
  splitSpacesFrom EmptyString false s.

(** [s.split(/\\s+/)]: the regular expression written with a doubled
    backslash matches a backslash followed by one or more letters [s].
    [inSep] tells that the previous code units were such a separator, so
    that further letters [s] extend it. *)
Fixpoint splitBackslashSFrom (cur : string) (inSep : bool) (s : string) : list string :=
  match s with
  | EmptyString => [cur]
  | String c s' =>
      if inSep && Ascii.eqb c "s"
      then splitBackslashSFrom EmptyString true s'
      else
        match s' with
        | String d s'' =>
            if Ascii.eqb c "\" && Ascii.eqb d "s"
            then cur :: splitBackslashSFrom EmptyString true s''
            else splitBackslashSFrom (cur ++ String c EmptyString)%string false s'
        | EmptyString => [(cur ++ String c EmptyString)%string]
        end
  end.

Definition splitBackslashS (s : string) : list string :=
  splitBackslashSFrom EmptyString false s.

(** Template-literal rendering of a non-negative integer. *)
Definition showNat (n : nat) : string :=
  NilEmpty.string_of_uint (Nat.to_uint n).

(** A counter that is incremented [n] times from 0, and the length of an
    array of [n] elements, as numbers (exact below 2^53). *)
Fixpoint ofNat (n : nat) : float :=
  match n with
  | 0 => 0%float
  | S k => (ofNat k + 1)%float
  end.

(** [Array.prototype.sort(cmp)] is stable; [cmp a b > 0] places [a]
    after [b].  Insertion from the right keeps equal elements in their
    original order. *)
Section Sort.
Context {A : Type} (cmp : A -> A -> float).

Fixpoint insertSorted (x : A) (l : list A) : list A :=
  match l with
  | [] => [x]
  | y :: l' => if (0 <? cmp x y)%float then y :: insertSorted x l' else x :: l
  end.

Definition sort (l : list A) : list A := fold_right insertSorted [] l.
End Sort.

End JS.

(** ** [node:path] on [/]-separated paths *)

Module Path.

(** [path.basename(p)]: the last non-empty segment. *)
Fixpoint basenameFrom (cur : string) (p : string) : string :=
  match p with
  | EmptyString => cur
  | String c p' =>
      if Ascii.eqb c "/"
      then match JS.removeChar "/" p' with
           | EmptyString => cur
           | _ => basenameFrom EmptyString p'
           end
      else basenameFrom (cur ++ String c EmptyString)%string p'
  end.

Definition basename (p : string) : string := basenameFrom EmptyString p.

(** The suffix of [s] from its last dot on. *)
Fixpoint lastDotSuffix (s : string) : option string :=
  match s with
  | EmptyString => None
  | String c s' =>
      match lastDotSuffix s' with
      | Some t => Some t
      | None => if Ascii.eqb c "." then Some s else None
      end
  end.

(** [path.extname(p)]: from the last dot of the base name on, unless the
    base name has no dot or only a leading one, or is [..]. *)
Definition extname (p : string) : string :=
  match basename p with
  | EmptyString => ""
  | String _ rest =>
      if String.eqb (basename p) ".." then ""
      else match lastDotSuffix rest with Some t => t | None => "" end
  end.

(** Runs of [/] collapse to one. *)
Fixpoint collapseSlashes (afterSlash : bool) (p : string) : string :=
  match p with
  | EmptyString => EmptyString
  | String c p' =>
      if Ascii.eqb c "/"
      then if afterSlash then collapseSlashes true p'
           else String c (collapseSlashes true p')
      else String c (collapseSlashes false p')
  end.

(** [path.join(dir, name)] for a directory path and an entry name
    (neither [.] nor [..]). *)
Definition join (dir name : string) : string :=
  collapseSlashes false (dir ++ "/" ++ name)%string.

End Path.

(** ** Retrieval engine (backend [server.mjs] and [rag-backend/src/server.mjs])

    The two servers carry the same search code; they differ in the regular
    expression [keywordScore] splits the query with.  The shared code is
    written once, over that splitting function. *)

Module Retrieval.

Definition Vector := list float.

(** One record of the snapshot's [embeddings] array.  [text] and
    [embedding] may be absent. *)
Record ChunkRecord := mkChunkRecord {
  filePath : string;
  chunkIndex : nat;
  text : option string;
  embedding : option Vector
}.

(** [cosineSimilarity(a, b)]: one loop over the indices of [a] with three
    accumulators. *)
Definition cosineLoop (a b : Vector) : float * float * float :=
  fold_left
    (fun '(dot, magA, magB) i =>
       let x := nth i a nan in
       let y := nth i b nan in
       (dot + x * y, magA + x * x, magB + y * y)%float)
    (seq 0 (List.length a)) (0, 0, 0)%float.

Definition cosineSimilarity (a b : option Vector) : float :=
  match a, b with
  | Some a, Some b =>
      if negb (List.length a =? List.length b) then 0%float
      else
        let '(dot, magA, magB) := cosineLoop a b in
        let mag := (sqrt magA * sqrt magB)%float in
        if (mag =? 0)%float then 0%float else (dot / mag)%float
  | _, _ => 0%float
  end.

(** A snapshot record with its derived identifier and its score:
    [{...item, chunkId, score}]. *)
Record Scored := mkScored {
  item : ChunkRecord;
  chunkId : string;
  score : float
}.

Definition chunkIdOf (it : ChunkRecord) : string :=
  ("chunk_" ++ filePath it ++ "_" ++ JS.showNat (chunkIndex it))%string.

(** [item.text || ""] *)
Definition textOf (it : ChunkRecord) : string :=
  match text it with Some t => t | None => "" end.

(** [(a, b) => b.score - a.score] *)
Definition byScoreDesc (a b : Scored) : float := (score b - score a)%float.

(** [.filter(x => x.score >= minScore)], [.sort(...)], [.slice(0, topK)] *)
Definition rank (topK : nat) (minScore : float) (scored : list Scored) : list Scored :=
  firstn topK
    (JS.sort byScoreDesc (filter (fun x => (minScore <=? score x)%float) scored)).

Section Engine.

(** [query.toLowerCase().split(...)] *)
Variable splitTerms : string -> list string.

Definition keywordScore (text query : string) : float :=
  if JS.isEmpty text || JS.isEmpty query then 0%float
  else
    let lowerText := JS.toLowerCase text in
    let terms :=
      filter (fun t => 0 <? String.length t) (splitTerms (JS.toLowerCase query)) in
    if List.length terms =? 0 then 0%float
    else
      let matches :=
        fold_left (fun m term => if JS.includes lowerText term then S m else m)
                  terms 0 in
      (JS.ofNat matches / JS.ofNat (List.length terms))%float.

(** The three search functions read the global [indexData]; here
    [embeddings] is [indexData.embeddings] of a loaded index. *)
Definition semanticSearch (embeddings : list ChunkRecord)
           (queryEmbed : Vector) (topK : nat) (minScore : float) : list Scored :=
  rank topK minScore
    (map (fun it => mkScored it (chunkIdOf it)
                      (cosineSimilarity (Some queryEmbed) (embedding it)))
         embeddings).

Definition keywordSearch (embeddings : list ChunkRecord)
           (query : string) (topK : nat) (minScore : float) : list Scored :=
  rank topK minScore
    (map (fun it => mkScored it (chunkIdOf it) (keywordScore (textOf it) query))
         embeddings).

(** [hybridSearch]; [queryEmbed] may be [null]. *)
Definition hybridSearch (embeddings : list ChunkRecord)
           (queryEmbed : option Vector) (query : string)
           (topK : nat) (minScore : float) : list Scored :=
  rank topK minScore
    (map (fun it =>
            let semScore := cosineSimilarity queryEmbed (embedding it) in
            let kwScore := keywordScore (textOf it) query in
            mkScored it (chunkIdOf it) (0.7 * semScore + 0.3 * kwScore)%float)
         embeddings).

(** The [Map] the hybrid branch of the endpoint merges into: keys in
    insertion order, [set] on a present key keeps its position. *)
Definition MergeMap := list (string * Scored).

Fixpoint mapGet (k : string) (m : MergeMap) : option Scored :=
  match m with
  | [] => None
  | (k', v) :: m' => if String.eqb k k' then Some v else mapGet k m'
  end.

Fixpoint mapSet (k : string) (v : Scored) (m : MergeMap) : MergeMap :=
  match m with
  | [] => [(k, v)]
  | (k', v') :: m' =>
      if String.eqb k k' then (k, v) :: m' else (k', v') :: mapSet k v m'
  end.

Definition mergeResults (keyResults semResults : list Scored) : MergeMap :=
  let merged :=
    fold_left (fun m r => mapSet (chunkId r) r m) keyResults [] in
  fold_left
    (fun m r =>
       match mapGet (chunkId r) m with
       | Some existing =>
           mapSet (chunkId r)
                  (mkScored (item r) (chunkId r) ((score existing + score r) / 2)%float)
                  m
       | None => mapSet (chunkId r) r m
       end)
    semResults merged.

(** What the embedding subprocess answers to a query text: a vector,
    or a failure (non-zero exit, unparsable output, timeout). *)
Inductive EmbedOutcome :=
| EmbedResolved (v : Vector)
| EmbedRejected.

(** [getQueryEmbedding]: [null] for an empty text without asking the
    subprocess; a rejection propagates to the caller. *)
Definition getQueryEmbedding (service : string -> EmbedOutcome) (text : string)
  : option (option Vector) :=
  if JS.isEmpty text then Some None
  else match service text with
       | EmbedResolved v => Some (Some v)
       | EmbedRejected => None
       end.

(** The request body of [POST /api/search]; absent fields are [None]. *)
Record SearchBody := mkSearchBody {
  query : option string;
  mode : option string;
  topK : option Z;
  minScore : option float
}.

(** One reading of the wall clock: [new Date().toISOString()] and
    [Date.now()]. *)
Record Clock := mkClock { isoNow : string; millisNow : N }.

Record ResultChunk := mkResultChunk {
  r_chunkId : string;
  r_path : string;
  r_title : string;
  r_section : string;
  r_fileType : string;
  r_modifiedAt : string;
  r_score : float;
  r_text : string;
  r_highlights : list string
}.

Inductive Response :=
| Reply (queryId : string) (chunks : list ResultChunk) (error : option string)
| ServerError (message : string).

Definition toResultChunk (now : Clock) (r : Scored) : ResultChunk :=
  let it := item r in
  {| r_chunkId := chunkId r;
     r_path := filePath it;
     r_title := Path.basename (filePath it);
     r_section := ("Chunk " ++ JS.showNat (chunkIndex it))%string;
     r_fileType := JS.drop 1 (Path.extname (filePath it));
     r_modifiedAt := isoNow now;
     r_score := score r;
     r_text := JS.take 500 (textOf it);
     r_highlights := [] |}.

(** [Math.min(100, Math.max(1, body.topK || 20))] *)
Definition effectiveTopK (k : option Z) : nat :=
  let k0 := match k with
            | Some z => if Z.eqb z 0 then 20%Z else z
            | None => 20%Z
            end in
  Z.to_nat (Z.min 100 (Z.max 1 k0)).

Definition queryIdOf (now : Clock) : string :=
  ("q_" ++ NilEmpty.string_of_uint (N.to_uint (millisNow now)))%string.

(** The handler of [POST /api/search].  [indexData] is the loaded
    snapshot's [embeddings] array, [None] when no index is loaded. *)
Definition search (indexData : option (list ChunkRecord))
           (service : string -> EmbedOutcome) (now : Clock)
           (body : SearchBody) : Response :=
  let query := match query body with Some q => q | None => "" end in
  let mode :=
    match mode body with
    | Some m => if JS.isEmpty m then "keyword" else m
    | None => "keyword"
    end in
  let topK := effectiveTopK (topK body) in
  let minScore := match minScore body with Some m => m | None => 0.3%float end in
  match indexData with
  | None => Reply (queryIdOf now) [] (Some "No index loaded")
  | Some [] => Reply (queryIdOf now) [] (Some "No index loaded")
  | Some embeddings =>
      let results :=
        if String.eqb mode "semantic" then
          match getQueryEmbedding service query with
          | None => None
          | Some (Some queryEmbed) =>
              Some (semanticSearch embeddings queryEmbed topK minScore)
          | Some None => Some (keywordSearch embeddings query topK minScore)
          end
        else if String.eqb mode "hybrid" then
          let keyResults := keywordSearch embeddings query topK minScore in
          match getQueryEmbedding service query with
          | None => None
          | Some queryEmbed =>
              let semResults :=
                match queryEmbed with
                | Some v => semanticSearch embeddings v topK minScore
                | None => []
                end in
              Some (firstn topK
                      (JS.sort byScoreDesc
                         (map snd (mergeResults keyResults semResults))))
          end
        else Some (keywordSearch embeddings query topK minScore) in
      match results with
      | Some rs => Reply (queryIdOf now) (map (toResultChunk now) rs) None
      | None => ServerError "Search failed"
      end
  end.

End Engine.

(** The backend server splits the query with [/\\s+/]. *)
Module Backend.
Definition keywordScore := keywordScore JS.splitBackslashS.
Definition keywordSearch := keywordSearch JS.splitBackslashS.
Definition semanticSearch := semanticSearch.
Definition hybridSearch := hybridSearch JS.splitBackslashS.
Definition search := search JS.splitBackslashS.
End Backend.

(** The RAG backend splits the query with [/\s+/]. *)
Module RagBackend.
Definition keywordScore := keywordScore JS.splitSpaces.
Definition keywordSearch := keywordSearch JS.splitSpaces.
Definition semanticSearch := semanticSearch.
Definition hybridSearch := hybridSearch JS.splitSpaces.
Definition search := search JS.splitSpaces.
End RagBackend.

End Retrieval.

(** ** Indexer worker ([indexer-worker.mjs]) *)

Module Indexer.

(** *** Selection rules and the file walk *)

Record Selection := mkSelection {
  include : list string;
  exclude : list string
}.

Inductive EntryKind := IsFile | IsDirectory | IsOther.

(** A [Dirent] of [readdir(..., {withFileTypes: true})]. *)
Record Dirent := mkDirent { name : string; kind : EntryKind }.

(** What the worker reads from the file system.  [None] is a thrown
    error. *)
Record FileSystem := mkFileSystem {
  readdir : string -> option (list Dirent);
  stat : string -> option nat;
  readFile : string -> option string
}.

(** [s.replace(/\./g, '\\.')] and [s.replace(/\*/g, '.*')] *)
Fixpoint escapeDots (s : string) : string :=
  match s with
  | EmptyString => EmptyString
  | String c s' =>
      if Ascii.eqb c "." then String "\" (String "." (escapeDots s'))
      else String c (escapeDots s')
  end.

Fixpoint starsToDotStar (s : string) : string :=
  match s with
  | EmptyString => EmptyString
  | String c s' =>
      if Ascii.eqb c "*" then String "." (String "*" (starsToDotStar s'))
      else String c (starsToDotStar s')
  end.

(** [s.split('**/')] *)
Fixpoint splitDoubleStarSlash (cur : string) (s : string) : list string :=
  match s with
  | EmptyString => [cur]
  | String c s1 =>
      match s1 with
      | String d (String e s3) =>
          if Ascii.eqb c "*" && Ascii.eqb d "*" && Ascii.eqb e "/"
          then cur :: splitDoubleStarSlash EmptyString s3
          else splitDoubleStarSlash (cur ++ String c EmptyString)%string s1
      | _ => splitDoubleStarSlash (cur ++ String c EmptyString)%string s1
      end
  end.

(** The loop over the parts of a [**] pattern. *)
Fixpoint matchParts (parts : list string) (current : string) : bool :=
  match parts with
  | [] => true
  | part :: rest =>
      if JS.isEmpty part then matchParts rest current
      else match JS.indexOf current (JS.removeChar "*" part) with
           | None => false
           | Some idx => matchParts rest (JS.drop idx current)
           end
  end.

(** [s.replace(/\/+$/, '')] *)
Fixpoint stripTrailingSlashes (s : string) : string :=
  match s with
  | EmptyString => EmptyString
  | String c s' =>
      match stripTrailingSlashes s' with
      | EmptyString => if Ascii.eqb c "/" then EmptyString else String c EmptyString
      | t => String c t
      end
  end.

(** Insertion into a [Set] of strings (insertion order, no repeats). *)
Definition setAdd (x : string) (l : list string) : list string :=
  if existsb (String.eqb x) l then l else l ++ [x].

(** [deriveRoots(includeRules)] *)
Definition deriveRoot (r : string) : string :=
  let norm := JS.replaceChar "\" "/" r in
  let norm := match JS.indexOf norm "*" with
              | Some starIdx => JS.take starIdx norm
              | None => norm
              end in
  let norm := stripTrailingSlashes norm in
  if JS.endsWithChar norm "/" then norm else (norm ++ "/")%string.

Definition deriveRoots (includeRules : list string) : list string :=
  match includeRules with
  | [] => ["C:/"]
  | _ => fold_left (fun roots r => setAdd (deriveRoot r) roots) includeRules []
  end.

(** The extensions the walk yields. *)
Definition indexedExtensions : list string :=
  [".pdf"; ".docx"; ".xlsx"; ".pptx"; ".txt"; ".md"; ".csv"; ".json"; ".yaml";
   ".yml"; ".js"; ".ts"; ".tsx"; ".jsx"; ".css"; ".mjs"; ".py"; ".html"].

(** The extensions [processFile] reads as text. *)
Definition textExtensions : list string :=
  [".txt"; ".md"; ".mjs"; ".js"; ".py"; ".json"; ".yaml"; ".yml"; ".csv";
   ".html"; ".css"; ".tsx"; ".ts"; ".jsx"].

Definition memberOf (x : string) (l : list string) : bool :=
  existsb (String.eqb x) l.

Section WithRegExp.

(** [new RegExp(source, 'i').test(subject)], for sources that compile. *)
Variable regexpTest : string -> string -> bool.

(** [matchesGlob(filePath, pattern)] *)
Definition matchesGlob (filePath pattern : string) : bool :=
  let normalized := JS.replaceChar "\" "/" filePath in
  let normPattern := JS.replaceChar "\" "/" pattern in
  let hasWildcard := JS.containsChar "*" normPattern in
  if negb hasWildcard then
    let base := if JS.endsWithChar normPattern "/" then normPattern
                else (normPattern ++ "/")%string in
    JS.startsWith (JS.toLowerCase normalized) (JS.toLowerCase base)
  else if JS.includes normPattern "**" then
    matchParts (splitDoubleStarSlash EmptyString normPattern) normalized
  else
    regexpTest ("^" ++ starsToDotStar (escapeDots normPattern) ++ "$")%string
               normalized.

(** The test [collectFiles] applies to every directory entry:
    [matches && !excluded]. *)
Definition isSelected (selection : Selection) (fullPath : string) : bool :=
  let matches :=
    (List.length (include selection) =? 0)
    || existsb (fun rule => matchesGlob fullPath rule) (include selection) in
  let excluded :=
    existsb (fun rule => matchesGlob fullPath rule) (exclude selection) in
  negb (negb matches || excluded).

(** [collectFiles(folderPath, maxDepth, depth, selection)], by recursion
    on [maxDepth + 1 - depth], which is 0 exactly when
    [depth > maxDepth]. *)
Fixpoint walk (fs : FileSystem) (selection : Selection)
         (levels : nat) (folderPath : string) : list string :=
  match levels with
  | 0 => []
  | S levels' =>
      if existsb (fun rule => matchesGlob folderPath rule) (exclude selection)
      then []
      else
        match readdir fs folderPath with
        | None => []
        | Some entries =>
            flat_map
              (fun entry =>
                 let fullPath := Path.join folderPath (name entry) in
                 if isSelected selection fullPath then
                   match kind entry with
                   | IsFile =>
                       let ext := JS.toLowerCase (Path.extname fullPath) in
                       if memberOf ext indexedExtensions then [fullPath] else []
                   | IsDirectory => walk fs selection levels' fullPath
                   | IsOther => []
                   end
                 else [])
              entries
        end
  end.

Definition collectFiles (fs : FileSystem) (folderPath : string)
           (maxDepth depth : nat) (selection : Selection) : list string :=
  walk fs selection (S maxDepth - depth) folderPath.

End WithRegExp.

(** A regular-expression engine for the sources [matchesGlob] builds
    from patterns without other metacharacters: [\c] is the character
    [c], [.*] a run of characters other than line terminators, [.] one
    such character, [^] and [$] the two ends, anything else itself up to
    case. *)
Inductive Token := TLit (c : ascii) | TAny | TStar.

Fixpoint tokens (s : string) : list Token :=
  match s with
  | EmptyString => []
  | String c s1 =>
      match s1 with
      | String d s2 =>
          if Ascii.eqb c "\" then TLit d :: tokens s2
          else if Ascii.eqb c "." && Ascii.eqb d "*" then TStar :: tokens s2
          else if Ascii.eqb c "." then TAny :: tokens s1
          else TLit c :: tokens s1
      | EmptyString => if Ascii.eqb c "." then [TAny] else [TLit c]
      end
  end.

Fixpoint matchTokens (toks : list Token) : string -> bool :=
  match toks with
  | [] => JS.isEmpty
  | TLit c :: rest =>
      fun s => match s with
               | String a s' =>
                   Ascii.eqb (JS.lowerChar a) (JS.lowerChar c) && matchTokens rest s'
               | EmptyString => false
               end
  | TAny :: rest =>
      fun s => match s with
               | String a s' => negb (JS.isLineTerminator a) && matchTokens rest s'
               | EmptyString => false
               end
  | TStar :: rest =>
      fix star (s : string) : bool :=
        matchTokens rest s
        || match s with
           | String a s' => negb (JS.isLineTerminator a) && star s'
           | EmptyString => false
           end
  end.

(** Sources are anchored: [^...$]. *)
Definition anchoredRegExpTest (source subject : string) : bool :=
  match source with
  | String "^" body => matchTokens (removelast (tokens body)) subject
  | _ => false
  end.

(** *** Chunker (the loop of [processFile]) *)

Definition CHUNK_SIZE : nat := 500.
Definition CHUNK_OVERLAP : nat := 100.
Definition BATCH_SIZE : nat := 10.

(** The [for] loop from index [i] on; [fuel] bounds the number of
    iterations. *)
Fixpoint chunkLoop (fuel : nat) (text : string) (i : nat) : list string :=
  match fuel with
  | 0 => []
  | S fuel' =>
      if i <? String.length text then
        let end_ := Nat.min (i + CHUNK_SIZE) (String.length text) in
        let chunk := JS.trim (JS.substring i end_ text) in
        let rest :=
          if String.length text <=? end_ then []
          else chunkLoop fuel' text (i + (CHUNK_SIZE - CHUNK_OVERLAP)) in
        if 50 <? String.length chunk then chunk :: rest else rest
      else []
  end.

(** Every iteration advances [i] by 400, so [text.length] iterations
    are more than the loop can make. *)
Definition chunkText (text : string) : list string :=
  chunkLoop (String.length text) text 0.

(** *** Worker state *)

Record IndexConfig := mkIndexConfig {
  indexType : string;
  compression : string;
  dimension : nat
}.

(** The counters and flags of [STATE] (times, paths and disk sizes are
    left out). *)
Record State := mkState {
  running : bool;
  paused : bool;
  filesQueued : nat;
  filesProcessed : nat;
  filesFailed : nat;
  bytesProcessed : nat;
  chunksGenerated : nat;
  chunksEmbedded : nat;
  embeddingsPending : nat;
  indexConfig : IndexConfig
}.

(** An entry of [embeddingBuffer]. *)
Record BufferedChunk := mkBufferedChunk {
  b_filePath : string;
  b_chunkIndex : nat;
  b_text : string
}.

Inductive Phase := Idle | Embedding | Paused.

(** The payload of a [stats] message (without the time-derived
    throughput figures). *)
Record Stats := mkStats {
  s_state : Phase;
  s_queued : nat;
  s_processed : nat;
  s_failed : nat;
  s_bytesProcessed : nat;
  s_generated : nat;
  s_embedded : nat;
  s_embeddingsPending : nat
}.

(** The call of [sendUpdate] a [stats] message comes from. *)
Inductive UpdateSite :=
| AfterQueue
| AfterFile (after : nat) (success : bool)
| AfterBatch
| AtEnd
| OnPause
| OnResume.

Record Summary := mkSummary {
  c_filesProcessed : nat;
  c_filesFailed : nat;
  c_chunksEmbedded : nat;
  c_bytesProcessed : nat
}.

(** Messages to the parent process ([process.send]). *)
Inductive Message :=
| MsgStats (site : UpdateSite) (payload : Stats)
| MsgLog (message : string)
| MsgWarning (message : string)
| MsgError (message : string)
| MsgComplete (payload : Summary)
| MsgStopped.

(** The file [saveIndexToDisk] writes. *)
Record Snapshot := mkSnapshot {
  snap_embeddings : list Retrieval.ChunkRecord;
  snap_config : IndexConfig
}.

(** The module-level variables of the worker, the messages it has sent
    (oldest first) and the snapshot files it has written. *)
Record Worker := mkWorker {
  STATE : State;
  embeddingsStore : list Retrieval.ChunkRecord;
  embeddingService : option bool;  (* the child process, and whether it is alive *)
  embeddingEnabled : bool;
  embeddingBuffer : list BufferedChunk;
  outbox : list Message;
  disk : list Snapshot
}.

(** A response line of the embedding process: [embeddings] may fail to
    be an array and its entries may be falsy. *)
Record EmbedResponse := mkEmbedResponse {
  embeddings : option (list (option Retrieval.Vector));
  count : nat
}.

Inductive BatchOutcome :=
| BatchResolved (result : EmbedResponse)
| BatchRejected.

Inductive Control := CmdPause | CmdResume | CmdStop.

(** Everything outside the worker during one run: the file system,
    whether the embedding process reports "loaded" before it exits or the
    startup timeout fires, what it answers to a batch of texts while it is
    alive, whether the index directory can be written, and the control
    messages that have arrived by the time the loop looks at file number
    [i]. *)
Record World := mkWorld {
  fs : FileSystem;
  serviceLoads : bool;
  embedBatch : list string -> BatchOutcome;
  diskWritable : bool;
  control : nat -> list Control
}.

Definition setState (w : Worker) (st : State) : Worker :=
  mkWorker st (embeddingsStore w) (embeddingService w) (embeddingEnabled w)
           (embeddingBuffer w) (outbox w) (disk w).

Definition send (m : Message) (w : Worker) : Worker :=
  mkWorker (STATE w) (embeddingsStore w) (embeddingService w) (embeddingEnabled w)
           (embeddingBuffer w) (outbox w ++ [m]) (disk w).

Definition phaseOf (st : State) : Phase :=
  if paused st then Paused else if running st then Embedding else Idle.

Definition statsOf (st : State) : Stats :=
  mkStats (phaseOf st) (filesQueued st) (filesProcessed st) (filesFailed st)
          (bytesProcessed st) (chunksGenerated st) (chunksEmbedded st)
          (embeddingsPending st).

(** [sendUpdate()] *)
Definition sendUpdate (site : UpdateSite) (w : Worker) : Worker :=
  send (MsgStats site (statsOf (STATE w))) w.

(** [embedChunks(chunks)]: rejected without a child process, and by the
    30 s failsafe when the child is dead. *)
Definition embedChunks (world : World) (w : Worker) (chunks : list BufferedChunk)
  : BatchOutcome :=
  match embeddingService w with
  | None => BatchRejected
  | Some false => BatchRejected
  | Some true => embedBatch world (map b_text chunks)
  end.

(** The records [processPendingEmbeddings] pushes for a batch: entry [i]
    of the response with chunk [i] of the batch, when both exist. *)
Fixpoint pairRecords (batch : list BufferedChunk) (embs : list (option Retrieval.Vector))
  : list Retrieval.ChunkRecord :=
  match batch, embs with
  | chunk :: batch', Some e :: embs' =>
      Retrieval.mkChunkRecord (b_filePath chunk) (b_chunkIndex chunk)
                              (Some (b_text chunk)) (Some e)
      :: pairRecords batch' embs'
  | _ :: batch', None :: embs' => pairRecords batch' embs'
  | _, _ => []
  end.

(** [processPendingEmbeddings()] *)
Definition processPendingEmbeddings (world : World) (w : Worker) : Worker :=
  match embeddingBuffer w with
  | [] => w
  | buffer =>
      let st := STATE w in
      if negb (embeddingEnabled w) then
        mkWorker
          (mkState (running st) (paused st) (filesQueued st) (filesProcessed st)
                   (filesFailed st) (bytesProcessed st) (chunksGenerated st)
                   (chunksEmbedded st) 0 (indexConfig st))
          (embeddingsStore w) (embeddingService w) (embeddingEnabled w)
          [] (outbox w) (disk w)
      else
        let batch := firstn BATCH_SIZE buffer in
        let w1 :=
          mkWorker st (embeddingsStore w) (embeddingService w) (embeddingEnabled w)
                   (skipn BATCH_SIZE buffer) (outbox w) (disk w) in
        match embedChunks world w1 batch with
        | BatchRejected => w1
        | BatchResolved result =>
            let store :=
              match embeddings result with
              | Some embs => embeddingsStore w1 ++ pairRecords batch embs
              | None => embeddingsStore w1
              end in
            sendUpdate AfterBatch
              (mkWorker
                 (mkState (running st) (paused st) (filesQueued st)
                          (filesProcessed st) (filesFailed st) (bytesProcessed st)
                          (chunksGenerated st)
                          (chunksEmbedded st + count result)
                          (embeddingsPending st - count result)
                          (indexConfig st))
                 store (embeddingService w1) (embeddingEnabled w1)
                 (embeddingBuffer w1) (outbox w1) (disk w1))
        end
  end.

(** The chunks of a file as buffer entries, numbered from [i]. *)
Fixpoint toBuffered (filePath : string) (i : nat) (chunks : list string)
  : list BufferedChunk :=
  match chunks with
  | [] => []
  | c :: chunks' => mkBufferedChunk filePath i c :: toBuffered filePath (S i) chunks'
  end.

(** The text [processFile] extracts: the content of a file with a text
    extension, the empty string for any other file and for a read that
    fails. *)
Definition extractText (world : World) (filePath : string) : string :=
  let ext := JS.toLowerCase (Path.extname filePath) in
  if memberOf ext textExtensions then
    match readFile (fs world) filePath with
    | Some t => t
    | None => ""
    end
  else "".

(** [processFile(filePath)]; the boolean is [success]. *)
Definition processFile (world : World) (filePath : string) (w : Worker)
  : Worker * bool :=
  let st := STATE w in
  match stat (fs world) filePath with
  | None =>
      (setState w
         (mkState (running st) (paused st) (filesQueued st) (filesProcessed st)
                  (S (filesFailed st)) (bytesProcessed st) (chunksGenerated st)
                  (chunksEmbedded st) (embeddingsPending st) (indexConfig st)),
       false)
  | Some size =>
      let text := extractText world filePath in
      if JS.isEmpty text || (String.length (JS.trim text) =? 0) then
        (setState w
           (mkState (running st) (paused st) (filesQueued st)
                    (S (filesProcessed st)) (filesFailed st)
                    (bytesProcessed st + size) (chunksGenerated st)
                    (chunksEmbedded st) (embeddingsPending st) (indexConfig st)),
         true)
      else
        let chunks := chunkText text in
        let w1 :=
          mkWorker
            (mkState (running st) (paused st) (filesQueued st)
                     (S (filesProcessed st)) (filesFailed st)
                     (bytesProcessed st + size)
                     (chunksGenerated st + List.length chunks)
                     (chunksEmbedded st)
                     (embeddingsPending st + List.length chunks)
                     (indexConfig st))
            (embeddingsStore w) (embeddingService w) (embeddingEnabled w)
            (embeddingBuffer w ++ toBuffered filePath 0 chunks)
            (outbox w) (disk w) in
        ((if BATCH_SIZE <=? List.length (embeddingBuffer w1)
          then processPendingEmbeddings world w1 else w1),
         true)
  end.

(** The [pause], [resume] and [stop] branches of the message handler. *)
Definition handleControl (c : Control) (w : Worker) : Worker :=
  let st := STATE w in
  match c with
  | CmdPause =>
      sendUpdate OnPause
        (setState w
           (mkState (running st) true (filesQueued st) (filesProcessed st)
                    (filesFailed st) (bytesProcessed st) (chunksGenerated st)
                    (chunksEmbedded st) (embeddingsPending st) (indexConfig st)))
  | CmdResume =>
      sendUpdate OnResume
        (setState w
           (mkState (running st) false (filesQueued st) (filesProcessed st)
                    (filesFailed st) (bytesProcessed st) (chunksGenerated st)
                    (chunksEmbedded st) (embeddingsPending st) (indexConfig st)))
  | CmdStop =>
      send MsgStopped
        (setState w
           (mkState false false (filesQueued st) (filesProcessed st)
                    (filesFailed st) (bytesProcessed st) (chunksGenerated st)
                    (chunksEmbedded st) (embeddingsPending st) (indexConfig st)))
  end.

Definition deliver (cs : list Control) (w : Worker) : Worker :=
  fold_left (fun w c => handleControl c w) cs w.

(** The loop of [runIndexing] over the queued files, [i] being the
    number of the file it looks at.  The control messages that have
    arrived are handled first; a loop left paused with no message to
    come polls for ever ([None]); a loop found stopped breaks. *)
Fixpoint fileLoop (world : World) (i : nat) (filePaths : list string) (w : Worker)
  : option Worker :=
  match filePaths with
  | [] => Some (deliver (control world i) w)
  | filePath :: rest =>
      let w0 := deliver (control world i) w in
      if paused (STATE w0) && running (STATE w0) then None
      else if negb (running (STATE w0)) then Some w0
      else
        let '(w1, success) := processFile world filePath w0 in
        let after := filesProcessed (STATE w1) + filesFailed (STATE w1) in
        let w2 :=
          if (after =? 1) || (after mod 50 =? 0) || negb success
          then sendUpdate (AfterFile after success) w1 else w1 in
        fileLoop world (S i) rest w2
  end.

(** [while (embeddingBuffer.length > 0) await processPendingEmbeddings()] *)
Fixpoint flushLoop (world : World) (fuel : nat) (w : Worker) : Worker :=
  match fuel with
  | 0 => w
  | S fuel' =>
      match embeddingBuffer w with
      | [] => w
      | _ => flushLoop world fuel' (processPendingEmbeddings world w)
      end
  end.

(** Every call on a non-empty buffer removes a chunk from it. *)
Definition flushBuffer (world : World) (w : Worker) : Worker :=
  flushLoop world (List.length (embeddingBuffer w)) w.

(** [saveIndexToDisk()] *)
Definition saveIndexToDisk (world : World) (w : Worker) : Worker :=
  match embeddingsStore w with
  | [] => send (MsgLog "No embeddings to save") w
  | store =>
      if diskWritable world then
        send (MsgLog "Index saved")
          (mkWorker (STATE w) (embeddingsStore w) (embeddingService w)
                    (embeddingEnabled w) (embeddingBuffer w) (outbox w)
                    (disk w ++ [mkSnapshot store (indexConfig (STATE w))]))
      else send (MsgError "Failed to save index") w
  end.

(** [initEmbeddingService()] inside its [try]: the child is spawned in
    either case; it is alive and enabled only when it reported "loaded". *)
Definition initEmbeddingService (world : World) (w : Worker) : Worker :=
  if serviceLoads world then
    send (MsgLog "GPU embedding service initialized")
      (mkWorker (STATE w) (embeddingsStore w) (Some true) true
                (embeddingBuffer w) (outbox w) (disk w))
  else
    send (MsgWarning "Embedding service failed. Continuing without GPU embeddings.")
      (mkWorker (STATE w) (embeddingsStore w) (Some false) (embeddingEnabled w)
                (embeddingBuffer w) (outbox w) (disk w)).

(** The end of [runIndexing], after the file loop: flush the buffer,
    save, stop the child, report. *)
Definition finishIndexing (world : World) (w : Worker) : Worker :=
  let w1 := flushBuffer world w in
  let w2 := match embeddingsStore w1 with
            | [] => w1
            | _ => saveIndexToDisk world w1
            end in
  let w3 := mkWorker (STATE w2) (embeddingsStore w2) None (embeddingEnabled w2)
                     (embeddingBuffer w2) (outbox w2) (disk w2) in
  let st := STATE w3 in
  let w4 :=
    if running st then
      send (MsgComplete (mkSummary (filesProcessed st) (filesFailed st)
                                   (chunksEmbedded st) (bytesProcessed st)))
        (setState w3
           (mkState false (paused st) (filesQueued st) (filesProcessed st)
                    (filesFailed st) (bytesProcessed st) (chunksGenerated st)
                    (chunksEmbedded st) (embeddingsPending st) (indexConfig st)))
    else w3 in
  sendUpdate AtEnd w4.

Section WithRegExp.

Variable regexpTest : string -> string -> bool.

(** The files [runIndexing] queues: the walk of every derived root. *)
Definition queueFiles (world : World) (selection : Selection) : list string :=
  flat_map (fun root => collectFiles regexpTest (fs world) root 10 0 selection)
           (deriveRoots (include selection)).

(** The state in which the file loop starts. *)
Definition beginIndexing (world : World) (selection : Selection)
           (config : option IndexConfig) (w : Worker) : Worker :=
  let st := STATE w in
  let w0 :=
    setState w
      (mkState true (paused st) (filesQueued st) (filesProcessed st)
               (filesFailed st) (bytesProcessed st) (chunksGenerated st)
               (chunksEmbedded st) (embeddingsPending st)
               (match config with Some c => c | None => indexConfig st end)) in
  let w1 := initEmbeddingService world w0 in
  let st1 := STATE w1 in
  sendUpdate AfterQueue
    (setState w1
       (mkState (running st1) (paused st1)
                (List.length (queueFiles world selection))
                (filesProcessed st1) (filesFailed st1) (bytesProcessed st1)
                (chunksGenerated st1) (chunksEmbedded st1)
                (embeddingsPending st1) (indexConfig st1))).

(** [runIndexing(selection, config)]; [None] when the run never
    returns. *)
Definition runIndexing (world : World) (selection : Selection)
           (config : option IndexConfig) (w : Worker) : option Worker :=
  option_map (finishIndexing world)
    (fileLoop world 0 (queueFiles world selection)
              (beginIndexing world selection config w)).

(** The [start] branch of the message handler. *)
Definition handleStart (world : World) (selection : Selection)
           (config : option IndexConfig) (w : Worker) : option Worker :=
  let st := STATE w in
  if negb (running st) then
    runIndexing world selection config
      (setState w
         (mkState (running st) false (filesQueued st) 0 0 0 0 0
                  (embeddingsPending st) (indexConfig st)))
  else Some w.

End WithRegExp.

(** The worker as the process starts. *)
Definition initialWorker : Worker :=
  mkWorker
    (mkState false false 0 0 0 0 0 0 0 (mkIndexConfig "ivf_pq" "pq8" 384))
    [] None false [] [] [].

End Indexer.

(** ** Reasoning: the backend's [/api/reason] and the reasoning service *)

Module Reasoning.

(** [v || d] for an optional string. *)
Definition orDefault (v : option string) (d : string) : string :=
  match v with
  | Some s => if JS.isEmpty s then d else s
  | None => d
  end.

(** [a || b] for two optional strings. *)
Definition orElse (a b : option string) : option string :=
  match a with
  | Some s => if JS.isEmpty s then b else a
  | None => b
  end.

(** [l.join(sep)] *)
Fixpoint join (sep : string) (l : list string) : string :=
  match l with
  | [] => ""
  | x :: rest =>
      match rest with
      | [] => x
      | _ => (x ++ sep ++ join sep rest)%string
      end
  end.

(** [s.split(c)] for a single code unit [c]. *)
Fixpoint splitCharFrom (cur : string) (c : ascii) (s : string) : list string :=
  match s with
  | EmptyString => [cur]
  | String a s' =>
      if Ascii.eqb a c then cur :: splitCharFrom EmptyString c s'
      else splitCharFrom (cur ++ String a EmptyString)%string c s'
  end.

Definition splitChar (c : ascii) (s : string) : list string :=
  splitCharFrom EmptyString c s.

Definition newline : string := String "010" EmptyString.
Definition quote : string := String (ascii_of_nat 34) EmptyString.
Definition DEFAULT_MODEL : string := "llama3.1:8b-instruct-q4_K_M".

(** *** The backend's handler *)

(** The body of [POST /api/reason]; [chunkIds] is [None] when it is not
    an array.  Identifiers are strings: any other value is equal to no
    template string, as an unknown identifier is. *)
Record ReasonBody := mkReasonBody {
  question : option string;
  chunkIds : option (list string);
  profile : option string;
  model : option string
}.

(** A chunk as the backend sends it to the reasoning service. *)
Record Chunk := mkChunk {
  rc_chunkId : string;
  rc_path : string;
  rc_section : string;
  rc_text : string
}.

Record Request := mkRequest {
  rq_question : string;
  rq_chunks : list Chunk;
  rq_profile : string;
  rq_model : string
}.

(** [indexData.embeddings.find(e => `chunk_${e.filePath}_${e.chunkIndex}` === id)]
    and the object built from the record found. *)
Definition findChunk (embeddings : list Retrieval.ChunkRecord) (id : string)
  : option Chunk :=
  match find (fun e => String.eqb (Retrieval.chunkIdOf e) id) embeddings with
  | Some item =>
      Some (mkChunk id (Retrieval.filePath item)
                    ("Chunk " ++ JS.showNat (Retrieval.chunkIndex item))%string
                    (Retrieval.textOf item))
  | None => None
  end.

(** [chunkIds.map(...).filter(Boolean)] *)
Definition resolveChunks (embeddings : list Retrieval.ChunkRecord) (ids : list string)
  : list Chunk :=
  flat_map (fun id => match findChunk embeddings id with
                      | Some c => [c]
                      | None => []
                      end) ids.

Section Proxy.

(** The JSON the reasoning service answers with, and the service as the
    backend sees it: [None] when the request fails or the status is not
    2xx. *)
Variable Json : Type.
Variable reasoningService : Request -> option Json.

Inductive Response :=
| Answer (answer : string) (notes : list string)   (* with [citations: []] *)
| Proxied (body : Json)
| Error500 (error : string).

(** The handler of [POST /api/reason]; [indexData] is [None] when no
    snapshot with an [embeddings] array is loaded. *)
Definition reason (indexData : option (list Retrieval.ChunkRecord))
           (body : ReasonBody) : Response :=
  let question := orDefault (question body) "What are the key points?" in
  let chunkIds := match chunkIds body with Some ids => ids | None => [] end in
  let profile := orDefault (profile body) "answer_strict" in
  let model := orDefault (model body) DEFAULT_MODEL in
  match indexData with
  | None => Error500 "No index loaded"
  | Some embeddings =>
      match chunkIds with
      | [] =>
          Answer "No chunks selected. Please run a search and select relevant chunks first."
                 ["No chunks provided"]
      | _ =>
          match resolveChunks embeddings chunkIds with
          | [] => Answer "Selected chunks not found in index." ["Chunks not found"]
          | chunks =>
              match reasoningService (mkRequest question chunks profile model) with
              | Some json => Proxied json
              | None => Error500 "Reasoning failed"
              end
          end
      end
  end.

End Proxy.

(** *** The reasoning service *)

(** An element of [body.chunks]: an object whose fields may be absent. *)
Record InChunk := mkInChunk {
  in_chunkId : option string;
  in_path : option string;
  in_filePath : option string;
  in_section : option string;
  in_chunkIndex : option nat;
  in_text : option string
}.

Record Citation := mkCitation {
  ci_chunkId : option string;
  ci_path : option string;
  ci_section : string;
  ci_quote : string
}.

(** A template literal prints an absent field as [undefined]. *)
Definition render (v : option string) : string :=
  match v with Some s => s | None => "undefined" end.

Record Profile := mkProfile {
  system : string;
  template : string -> list InChunk -> string
}.

Definition answer_strict : Profile :=
  mkProfile
    "You are a precise assistant. Answer the user's question based ONLY on the provided context chunks. Cite chunk IDs for every claim. If the context doesn't contain the answer, say 'Insufficient evidence.'"
    (fun question chunks =>
       "Question: " ++ question ++ newline ++ newline ++ "Context:" ++ newline
       ++ join (newline ++ newline)
               (map (fun c => "[" ++ render (in_chunkId c) ++ "] " ++ render (in_text c))
                    chunks)
       ++ newline ++ newline ++ "Answer (cite chunk IDs):")%string.

Definition summarize : Profile :=
  mkProfile
    "You are a summarization assistant. Provide a concise summary of the given context."
    (fun _ chunks =>
       "Summarize the following content:" ++ newline ++ newline
       ++ join (newline ++ newline) (map (fun c => render (in_text c)) chunks))%string.

Definition expand_query : Profile :=
  mkProfile
    "You are a query expansion assistant. Generate 3-5 related search queries based on the original query."
    (fun query _ =>
       "Original query: " ++ quote ++ query ++ quote ++ newline ++ newline
       ++ "Generate 3-5 related search queries that would help find relevant information:")%string.

(** The property names every object inherits: [PROMPT_PROFILES[name]] is
    then a value without a [template]. *)
Definition inheritedNames : list string :=
  ["constructor"; "__proto__"; "hasOwnProperty"; "isPrototypeOf";
   "propertyIsEnumerable"; "toLocaleString"; "toString"; "valueOf";
   "__defineGetter__"; "__defineSetter__"; "__lookupGetter__"; "__lookupSetter__"].

(** [PROMPT_PROFILES[profile] || PROMPT_PROFILES.answer_strict]; [None]
    for an inherited name, whose [template] is not a function. *)
Definition profileOf (name : string) : option Profile :=
  if String.eqb name "answer_strict" then Some answer_strict
  else if String.eqb name "summarize" then Some summarize
  else if String.eqb name "expand_query" then Some expand_query
  else if existsb (String.eqb name) inheritedNames then None
  else Some answer_strict.

Record Generate := mkGenerate {
  g_model : string;
  g_prompt : string;
  g_system : string
}.

(** The body of [POST /reason]; [chunks] is [None] when it is not an
    array. *)
Record ServiceBody := mkServiceBody {
  sb_question : option string;
  sb_chunks : option (list InChunk);
  sb_profile : option string;
  sb_model : option string
}.

Inductive ServiceResponse :=
| Reasoned (answer : string) (citations : list Citation) (notes : list string)
| Failed (error : string)
| Thrown.

Definition citationOf (c : InChunk) : Citation :=
  mkCitation
    (in_chunkId c)
    (orElse (in_path c) (in_filePath c))
    (orDefault (in_section c)
       ("Chunk " ++ JS.showNat (match in_chunkIndex c with Some n => n | None => 0 end)))
    (JS.take 100 (match in_text c with Some t => t | None => "" end)).

Section Service.

(** [ollama.generate(...)]: the [response] field of what it resolves
    to, [None] when it rejects. *)
Variable generate : Generate -> option (option string).

(** The handler of [POST /reason]. *)
Definition reason_service (body : ServiceBody) : ServiceResponse :=
  let question := orDefault (sb_question body) "What are the key points?" in
  let chunks := match sb_chunks body with Some cs => cs | None => [] end in
  let profile := orDefault (sb_profile body) "answer_strict" in
  let model := orDefault (sb_model body) DEFAULT_MODEL in
  match chunks with
  | [] =>
      Reasoned "No chunks provided. Please provide context chunks." []
               ["No chunks provided"]
  | _ =>
      match profileOf profile with
      | None => Thrown
      | Some promptConfig =>
          let prompt := template promptConfig question chunks in
          match generate (mkGenerate model prompt (system promptConfig)) with
          | None => Failed "Ollama request failed"
          | Some response =>
              Reasoned (orDefault response "(No response from model)")
                       (map citationOf (firstn 5 chunks))
                       [("Used " ++ JS.showNat (List.length chunks) ++ " chunks")%string;
                        ("Model: " ++ model)%string;
                        ("Profile: " ++ profile)%string]
          end
      end
  end.

Inductive ExpandResponse :=
| Expanded (original : string) (expanded : list string) (raw : string)
| Rejected400 (error : string)
| ExpandFailed (error : string).

(** The handler of [POST /expand-query]. *)
Definition expand (query model : option string) : ExpandResponse :=
  let query := orDefault query "" in
  let model := orDefault model DEFAULT_MODEL in
  if JS.isEmpty query then Rejected400 "Query is required"
  else
    let prompt := template expand_query query [] in
    match generate (mkGenerate model prompt (system expand_query)) with
    | None => ExpandFailed "Query expansion failed"
    | Some response =>
        let expanded := orDefault response "" in
        Expanded query
          (firstn 5 (filter (fun line => 0 <? String.length (JS.trim line))
                            (splitChar "010" expanded)))
          expanded
    end.

End Service.

(** A chunk of the backend as the service receives it. *)
Definition toInChunk (c : Chunk) : InChunk :=
  mkInChunk (Some (rc_chunkId c)) (Some (rc_path c)) None (Some (rc_section c)) None
            (Some (rc_text c)).

End Reasoning.

(** ** Backend server ([server.mjs]): folder metadata, preview, snapshots *)

Module Server.

(** A [Map] with string keys: insertion order, [set] on a present key
    keeps its place. *)
Section StringMap.
Context {V : Type}.

Fixpoint mapGet (k : string) (m : list (string * V)) : option V :=
  match m with
  | [] => None
  | (k', v) :: m' => if String.eqb k k' then Some v else mapGet k m'
  end.

Fixpoint mapSet (k : string) (v : V) (m : list (string * V)) : list (string * V) :=
  match m with
  | [] => [(k, v)]
  | (k', v') :: m' =>
      if String.eqb k k' then (k, v) :: m' else (k', v') :: mapSet k v m'
  end.

Fixpoint mapDelete (k : string) (m : list (string * V)) : list (string * V) :=
  match m with
  | [] => []
  | (k', v') :: m' =>
      if String.eqb k k' then m' else (k', v') :: mapDelete k m'
  end.

End StringMap.

(** *** The folder metadata cache *)

(** What [computeFolderMetaAsync] returns. *)
Record Meta := mkMeta {
  fileCount : nat;
  byteSize : nat;
  lastScannedAt : string
}.

(** A cache entry: [{...data, computedAt: Date.now()}]. *)
Record Cached := mkCached {
  meta : Meta;
  computedAt : Z
}.

Definition Cache := list (string * Cached).

Definition CACHE_TTL_MS : Z := 5 * 60 * 1000.

(** [getCachedMeta(folderPath)] at time [now] ([Date.now()]): the entry,
    if any, and the cache afterwards. *)
Definition getCachedMeta (now : Z) (folderPath : string) (cache : Cache)
  : option Cached * Cache :=
  match mapGet folderPath cache with
  | None => (None, cache)
  | Some cached =>
      if (now - computedAt cached >? CACHE_TTL_MS)%Z
      then (None, mapDelete folderPath cache)
      else (Some cached, cache)
  end.

(** [setCachedMeta(folderPath, data)] at time [now]. *)
Definition setCachedMeta (now : Z) (folderPath : string) (data : Meta) (cache : Cache)
  : Cache :=
  mapSet folderPath (mkCached data now) cache.

(** *** File preview *)

Definition ALLOWED_EXTS : list string :=
  [".pdf"; ".docx"; ".xlsx"; ".pptx"; ".txt"; ".md"; ".csv"; ".json"; ".yaml";
   ".yml"; ".js"; ".ts"; ".tsx"; ".jsx"; ".css"; ".mjs"; ".py"; ".html"].

(** The [for] loop of [walk] over the entries of [dir]; [walkInto] is
    the recursive call on a subdirectory. *)
Fixpoint previewLoop (walkInto : string -> list string -> list string)
         (maxFiles : nat) (dir : string) (entries : list Indexer.Dirent)
         (results : list string) : list string :=
  match entries with
  | [] => results
  | entry :: rest =>
      let fullPath := JS.replaceChar "\" "/" (Path.join dir (Indexer.name entry)) in
      match Indexer.kind entry with
      | Indexer.IsFile =>
          let ext := JS.toLowerCase (Path.extname fullPath) in
          if Indexer.memberOf ext ALLOWED_EXTS then
            let results' := results ++ [fullPath] in
            if maxFiles <=? List.length results' then results'
            else previewLoop walkInto maxFiles dir rest results'
          else previewLoop walkInto maxFiles dir rest results
      | Indexer.IsDirectory =>
          previewLoop walkInto maxFiles dir rest (walkInto fullPath results)
      | Indexer.IsOther => previewLoop walkInto maxFiles dir rest results
      end
  end.

(** [walk(dir, depth)] of [previewFiles], by recursion on
    [maxDepth + 1 - depth]; [results] is the array it pushes to. *)
Fixpoint previewWalk (fs : Indexer.FileSystem) (maxFiles levels : nat)
         (dir : string) (results : list string) : list string :=
  match levels with
  | 0 => results
  | S levels' =>
      if maxFiles <=? List.length results then results
      else
        match Indexer.readdir fs dir with
        | None => results
        | Some entries =>
            previewLoop (previewWalk fs maxFiles levels') maxFiles dir entries results
        end
  end.

(** [previewFiles(rootPath, maxDepth, maxFiles)] for non-negative
    integers. *)
Definition previewFiles (fs : Indexer.FileSystem) (rootPath : string)
           (maxDepth maxFiles : nat) : list string :=
  previewWalk fs maxFiles (S maxDepth) rootPath [].

(** *** Folder metadata *)

(** The loop of [computeFolderMetaAsync]'s [walk] on the pair
    [(fileCount, byteSize)]. *)
Fixpoint metaLoop (fs : Indexer.FileSystem)
         (walkInto : string -> nat * nat -> nat * nat)
         (maxFiles : nat) (deeper : bool) (dir : string)
         (entries : list Indexer.Dirent) (acc : nat * nat) : nat * nat :=
  match entries with
  | [] => acc
  | entry :: rest =>
      let '(count, bytes) := acc in
      if maxFiles <? count then acc
      else
        let fullPath := Path.join dir (Indexer.name entry) in
        match Indexer.kind entry with
        | Indexer.IsFile =>
            match Indexer.stat fs fullPath with
            | Some size =>
                metaLoop fs walkInto maxFiles deeper dir rest (S count, bytes + size)
            | None => metaLoop fs walkInto maxFiles deeper dir rest (S count, bytes)
            end
        | Indexer.IsDirectory =>
            if deeper
            then metaLoop fs walkInto maxFiles deeper dir rest (walkInto fullPath acc)
            else metaLoop fs walkInto maxFiles deeper dir rest acc
        | Indexer.IsOther => metaLoop fs walkInto maxFiles deeper dir rest acc
        end
  end.

(** [walk(dir, depth)], by recursion on [maxDepth + 1 - depth]; a
    subdirectory is entered when [depth < maxDepth]. *)
Fixpoint metaWalk (fs : Indexer.FileSystem) (maxFiles levels : nat)
         (dir : string) (acc : nat * nat) : nat * nat :=
  match levels with
  | 0 => acc
  | S levels' =>
      if maxFiles <? fst acc then acc
      else
        match Indexer.readdir fs dir with
        | None => acc
        | Some entries =>
            metaLoop fs (metaWalk fs maxFiles levels') maxFiles
                     (negb (levels' =? 0)) dir entries acc
        end
  end.

(** [computeFolderMetaAsync(folderPath, maxDepth, maxFiles)] at the time
    [now] ([new Date().toISOString()]); [isDirectory] is the helper of
    that name. *)
Definition computeFolderMetaAsync (fs : Indexer.FileSystem)
           (isDirectory : string -> bool) (now : string)
           (folderPath : string) (maxDepth maxFiles : nat) : option Meta :=
  if negb (isDirectory folderPath) then None
  else
    let '(count, bytes) := metaWalk fs maxFiles (S maxDepth) folderPath (0, 0) in
    Some (mkMeta count bytes now).

(** *** The latest snapshot *)

(** [s.endsWith(p)] *)
Definition endsWith (s p : string) : bool :=
  (String.length p <=? String.length s)
  && String.eqb (JS.drop (String.length s - String.length p) s) p.

(** [names.sort()]: ascending by code units; insertion from the right. *)
Fixpoint insertName (x : string) (l : list string) : list string :=
  match l with
  | [] => [x]
  | y :: l' => if String.leb x y then x :: l else y :: insertName x l'
  end.

Definition sortNames (l : list string) : list string := fold_right insertName [] l.

Definition isSnapshotName (f : string) : bool :=
  JS.startsWith f "index_" && endsWith f ".json".

Section Load.

(** The parsed content of a snapshot file. *)
Variable Data : Type.

(** [loadLatestIndex()]: [listing] is the content of the index
    directory, [None] when it does not exist or cannot be read;
    [readJson] reads and parses a file, [None] when either fails. *)
Definition loadLatestIndex (indexDir : string) (listing : option (list string))
           (readJson : string -> option Data) : option Data :=
  match listing with
  | None => None
  | Some names =>
      match rev (sortNames (filter isSnapshotName names)) with
      | [] => None
      | latest :: _ => readJson (Path.join indexDir latest)
      end
  end.

End Load.

End Server.

(** ** Selection rules: the control panel and the server's [/api/selection] *)

Module Panel.

(** [Array.from(new Set(l))]: the elements of [l] in the order of their
    first occurrence. *)
Definition unique (l : list string) : list string :=
  fold_left (fun seen x => Indexer.setAdd x seen) l [].

(** [l.filter(x => x !== path)] *)
Definition without (path : string) (l : list string) : list string :=
  filter (fun x => negb (String.eqb x path)) l.

(** [includePath(path)] and [excludePath(path)] of the dashboard, on the
    selection they read: the rules they save. *)
Definition includePath (selection : Indexer.Selection) (path : string)
  : Indexer.Selection :=
  Indexer.mkSelection (unique (Indexer.include selection ++ [path]))
                      (without path (Indexer.exclude selection)).

Definition excludePath (selection : Indexer.Selection) (path : string)
  : Indexer.Selection :=
  Indexer.mkSelection (without path (Indexer.include selection))
                      (unique (Indexer.exclude selection ++ [path])).

(** The [onRemove] handlers of the two rule lists. *)
Definition removeInclude (selection : Indexer.Selection) (path : string)
  : Indexer.Selection :=
  Indexer.mkSelection (without path (Indexer.include selection))
                      (Indexer.exclude selection).

Definition removeExclude (selection : Indexer.Selection) (path : string)
  : Indexer.Selection :=
  Indexer.mkSelection (Indexer.include selection)
                      (without path (Indexer.exclude selection)).

(** The [selection] field of the body of [POST /api/selection]; a field
    that is not an array is [None]. *)
Record SelectionBody := mkSelectionBody {
  sel_include : option (list string);
  sel_exclude : option (list string)
}.

(** [saveSelection(next)] posts [{selection: next}]. *)
Definition saveSelection (next : Indexer.Selection) : option SelectionBody :=
  Some (mkSelectionBody (Some (Indexer.include next)) (Some (Indexer.exclude next))).

(** The handler of [POST /api/selection]: the stored selection
    afterwards, and whether the request was accepted ([false]: status
    400).  [body] is [None] when the request has no [selection]. *)
Definition postSelection (body : option SelectionBody) (stored : Indexer.Selection)
  : Indexer.Selection * bool :=
  match body with
  | None => (stored, false)
  | Some sel =>
      (Indexer.mkSelection
         (match sel_include sel with Some l => l | None => [] end)
         (match sel_exclude sel with Some l => l | None => [] end),
       true)
  end.

End Panel.

(** ** Snapshot files: the names [saveIndexToDisk] gives ([indexer-worker.mjs]) *)

Module SnapshotFile.

(** [iso.replace(/[:.]/g, '-')] for the time [iso]
    ([new Date().toISOString()]). *)
Fixpoint timestamp (iso : string) : string :=
  match iso with
  | EmptyString => EmptyString
  | String c rest =>
      String (if Ascii.eqb c ":" || Ascii.eqb c "." then "-"%char else c)
             (timestamp rest)
  end.

(** [`index_${timestamp}`] *)
Definition indexName (iso : string) : string := ("index_" ++ timestamp iso)%string.

(** [`${indexName}.json`], the base name of [dataPath]. *)
Definition dataName (iso : string) : string := (indexName iso ++ ".json")%string.

(** [path.join(INDEX_DIR, `${indexName}.json`)] *)
Definition dataPath (indexDir iso : string) : string :=
  Path.join indexDir (dataName iso).

End SnapshotFile.

(** * Specification-level definitions and sample data

    The functions the statements below compare the code with, the
    projections they read worker states through, and the snapshots,
    file systems and worlds the examples run on. *)

Import Indexer.

(** The dot product and the sum of squares, each accumulated from the
    left in binary64. *)
Definition dotProduct (a b : Retrieval.Vector) : float :=
  fold_left (fun acc '(x, y) => (acc + x * y)%float) (combine a b) 0%float.

Definition sumSquares (a : Retrieval.Vector) : float :=
  fold_left (fun acc x => (acc + x * x)%float) a 0%float.

(** Zero or a finite non-zero number. *)
Definition sfFinite (x : spec_float) : Prop :=
  match x with
  | S754_zero _ | S754_finite _ _ _ => True
  | _ => False
  end.

(** The computed magnitude of a vector. *)
Definition magnitude (a : Retrieval.Vector) : float := sqrt (sumSquares a).

(** The query terms: [query.toLowerCase().split(...).filter(t => t.length > 0)] *)
Definition queryTerms (splitTerms : string -> list string) (query : string)
  : list string :=
  filter (fun t => 0 <? String.length t) (splitTerms (JS.toLowerCase query)).

(** A two-record snapshot and a query whose embedding is the first
    record's vector. *)
Definition sampleA : Retrieval.ChunkRecord :=
  Retrieval.mkChunkRecord "docs/a.txt" 0 (Some "Alpha only here") (Some [1; 0]%float).

Definition sampleB : Retrieval.ChunkRecord :=
  Retrieval.mkChunkRecord "docs/b.md" 3 (Some "alpha and BETA") (Some [0; 1]%float).

Definition sampleService (q : string) : Retrieval.EmbedOutcome :=
  Retrieval.EmbedResolved [1; 0]%float.

Definition sampleClock : Retrieval.Clock :=
  Retrieval.mkClock "2026-01-01T00:00:00.000Z" 1767225600000%N.

Definition laterClock : Retrieval.Clock :=
  Retrieval.mkClock "2026-01-01T00:00:01.000Z" 1767225601000%N.

Definition chunksOf (r : Retrieval.Response) : list Retrieval.ResultChunk :=
  match r with
  | Retrieval.Reply _ chunks _ => chunks
  | Retrieval.ServerError _ => []
  end.


Definition queryOf (q : option string) : string :=
  match q with Some q => q | None => "" end.



(** A reply without its clock readings: the query identifier and the
    [modifiedAt] of every chunk. *)
Definition withoutClock (r : Retrieval.Response) : Retrieval.Response :=
  match r with
  | Retrieval.Reply _ chunks error =>
      Retrieval.Reply ""
        (map (fun c =>
                Retrieval.mkResultChunk
                  (Retrieval.r_chunkId c) (Retrieval.r_path c) (Retrieval.r_title c)
                  (Retrieval.r_section c) (Retrieval.r_fileType c) ""
                  (Retrieval.r_score c) (Retrieval.r_text c) (Retrieval.r_highlights c))
             chunks)
        error
  | Retrieval.ServerError message => Retrieval.ServerError message
  end.

Definition sampleBody : Retrieval.SearchBody :=
  Retrieval.mkSearchBody (Some "alpha") (Some "keyword") None None.

Fixpoint repeatChar (c : ascii) (n : nat) : string :=
  match n with
  | 0 => EmptyString
  | S n' => String c (repeatChar c n')
  end.

(** The corpus of the design document's scenario: [/data/a.txt] with 400
    characters and [/data/tmp/b.txt]. *)
Definition sampleFs : Indexer.FileSystem :=
  Indexer.mkFileSystem
    (fun dir =>
       if String.eqb dir "/data/" then
         Some [Indexer.mkDirent "a.txt" Indexer.IsFile;
               Indexer.mkDirent "tmp" Indexer.IsDirectory]
       else if String.eqb dir "/data/tmp" then
         Some [Indexer.mkDirent "b.txt" Indexer.IsFile]
       else None)
    (fun file =>
       if String.eqb file "/data/a.txt" then Some 400
       else if String.eqb file "/data/tmp/b.txt" then Some 60
       else None)
    (fun file =>
       if String.eqb file "/data/a.txt" then Some (repeatChar "x" 400)
       else if String.eqb file "/data/tmp/b.txt" then Some (repeatChar "y" 60)
       else None).

Definition sampleSelection : Indexer.Selection :=
  Indexer.mkSelection ["/data"] ["/data/tmp"].

(** The window that starts at step [k]: 500 characters from [400 * k],
    or what is left of the text, trimmed. *)
Definition windowAt (text : string) (k : nat) : string :=
  JS.trim (JS.substring (400 * k) (Nat.min (400 * k + 500) (String.length text)) text).

(** The number of windows of a text of [len] characters: one, and one
    more for every 400 characters (or part of them) beyond the first 500. *)
Definition windowCount (len : nat) : nat :=
  match len with
  | 0 => 0
  | _ => S ((len - 500 + 399) / 400)
  end.

(** An embedding process that answers every batch in full, with the same
    vector for every text. *)
Definition fullAnswer (texts : list string) : Indexer.BatchOutcome :=
  Indexer.BatchResolved
    (Indexer.mkEmbedResponse (Some (map (fun _ => Some [1; 0]%float) texts))
                             (List.length texts)).

Definition noControl (i : nat) : list Indexer.Control := [].

Definition sampleWorld : Indexer.World :=
  Indexer.mkWorld sampleFs true fullAnswer true noControl.

(** The counters of a finished run. *)
Definition counters (w : Indexer.Worker) : list nat :=
  let st := Indexer.STATE w in
  [Indexer.filesQueued st; Indexer.filesProcessed st; Indexer.filesFailed st;
   Indexer.chunksGenerated st; Indexer.chunksEmbedded st].




Definition fileCounts (w : Worker) :=
  (filesProcessed (STATE w), filesFailed (STATE w), chunksGenerated (STATE w)).









Definition wideSelection : Indexer.Selection := Indexer.mkSelection ["/data"] [].





(** An embedding process that never reports "loaded". *)
Definition silentWorld : Indexer.World :=
  Indexer.mkWorld sampleFs false fullAnswer true noControl.




(** ** Definitions for the further properties *)


(** Everything of a worker but its two flags and its outbox. *)
Definition beyondControl (w : Worker) :=
  (filesQueued (STATE w), filesProcessed (STATE w), filesFailed (STATE w),
   bytesProcessed (STATE w), chunksGenerated (STATE w), chunksEmbedded (STATE w),
   embeddingsPending (STATE w), indexConfig (STATE w),
   embeddingsStore w, embeddingService w, embeddingEnabled w, embeddingBuffer w,
   disk w).


(** A stored record that carries the path, the index and the text of a
    chunk of [batch], and an embedding. *)
Definition fromBatch (batch : list BufferedChunk) (r : Retrieval.ChunkRecord) : Prop :=
  exists c, In c batch
            /\ Retrieval.filePath r = b_filePath c
            /\ Retrieval.chunkIndex r = b_chunkIndex c
            /\ Retrieval.text r = Some (b_text c)
            /\ Retrieval.embedding r <> None.

Definition pausedAfter (c : Control) : bool :=
  match c with CmdPause => true | _ => false end.

(** The extensions the walk yields and [processFile] does not read. *)
Definition unreadExtensions : list string := [".pdf"; ".docx"; ".xlsx"; ".pptx"].

(** A file system in which every path is a file of 1000 bytes. *)
Definition officeWorld : World :=
  mkWorld (mkFileSystem (fun _ => None) (fun _ => Some 1000) (fun _ => Some "text"))
          true fullAnswer true noControl.

(** The first result with a given chunk identifier. *)
Definition lookupResult (k : string) (rs : list Retrieval.Scored)
  : option Retrieval.Scored :=
  find (fun r => String.eqb (Retrieval.chunkId r) k) rs.

(** What the hybrid branch keeps for a chunk identifier: the keyword
    result, the semantic result, or the semantic result with the mean of
    the two scores. *)
Definition mergedEntry (a b : option Retrieval.Scored) : option Retrieval.Scored :=
  match a, b with
  | Some a, Some b =>
      Some (Retrieval.mkScored (Retrieval.item b) (Retrieval.chunkId b)
                               ((Retrieval.score a + Retrieval.score b) / 2)%float)
  | Some a, None => Some a
  | None, Some b => Some b
  | None, None => None
  end.

(** A result that is a record of the snapshot under its identifier. *)
Definition fromIndex (embeddings : list Retrieval.ChunkRecord) (r : Retrieval.Scored)
  : Prop :=
  In (Retrieval.item r) embeddings
  /\ Retrieval.chunkId r = Retrieval.chunkIdOf (Retrieval.item r).

(** A chunk of a reply that shows a record of the snapshot. *)
Definition showsRecord (embeddings : list Retrieval.ChunkRecord) (now : Retrieval.Clock)
           (c : Retrieval.ResultChunk) : Prop :=
  exists it,
    In it embeddings
    /\ Retrieval.r_chunkId c = Retrieval.chunkIdOf it
    /\ Retrieval.r_path c = Retrieval.filePath it
    /\ Retrieval.r_section c = ("Chunk " ++ JS.showNat (Retrieval.chunkIndex it))%string
    /\ Retrieval.r_text c = JS.take 500 (Retrieval.textOf it)
    /\ String.length (Retrieval.r_text c) <= 500
    /\ Retrieval.r_modifiedAt c = Retrieval.isoNow now
    /\ Retrieval.r_highlights c = [].

(** A forwarded chunk that shows a record of the snapshot under a
    requested identifier. *)
Definition resolvedFrom (embeddings : list Retrieval.ChunkRecord) (ids : list string)
           (c : Reasoning.Chunk) : Prop :=
  In (Reasoning.rc_chunkId c) ids
  /\ exists it,
      In it embeddings
      /\ Retrieval.chunkIdOf it = Reasoning.rc_chunkId c
      /\ Reasoning.rc_path c = Retrieval.filePath it
      /\ Reasoning.rc_section c
         = ("Chunk " ++ JS.showNat (Retrieval.chunkIndex it))%string
      /\ Reasoning.rc_text c = Retrieval.textOf it.

(** Whether some record of the snapshot has the identifier. *)
Definition known (embeddings : list Retrieval.ChunkRecord) (id : string) : bool :=
  existsb (fun e => String.eqb (Retrieval.chunkIdOf e) id) embeddings.

Definition requestedIds (body : Reasoning.ReasonBody) : list string :=
  match Reasoning.chunkIds body with Some ids => ids | None => [] end.

Definition serviceChunks (body : Reasoning.ServiceBody) : list Reasoning.InChunk :=
  match Reasoning.sb_chunks body with Some cs => cs | None => [] end.

(** A directory with a subdirectory [d] that holds [a.txt], and a file
    [b.txt] listed after it. *)
Definition nestedFs : Indexer.FileSystem :=
  Indexer.mkFileSystem
    (fun dir =>
       if String.eqb dir "/r" then
         Some [Indexer.mkDirent "d" Indexer.IsDirectory;
               Indexer.mkDirent "b.txt" Indexer.IsFile]
       else if String.eqb dir "/r/d" then
         Some [Indexer.mkDirent "a.txt" Indexer.IsFile]
       else None)
    (fun _ => Some 10)
    (fun _ => None).

Definition previewable (f : string) : Prop :=
  Indexer.memberOf (JS.toLowerCase (Path.extname f)) Server.ALLOWED_EXTS = true
  /\ JS.containsChar "\" f = false.

(** Every element is at most the ones after it. *)
Fixpoint ascending (l : list string) : Prop :=
  match l with
  | [] => True
  | x :: l' => (forall y, In y l' -> String.leb x y = true) /\ ascending l'
  end.

(** No path is both included and excluded. *)
Definition consistent (selection : Indexer.Selection) : Prop :=
  forall x, In x (Indexer.include selection) -> ~ In x (Indexer.exclude selection).







(** Two time stamps of the same length with their colons and dots at
    the same places. *)
Fixpoint sameShape (a b : string) : Prop :=
  match a, b with
  | EmptyString, EmptyString => True
  | String c a', String d b' =>
      ((Ascii.eqb c ":" || Ascii.eqb c "." || Ascii.eqb d ":" || Ascii.eqb d ".") = true
       -> c = d)
      /\ sameShape a' b'
  | _, _ => False
  end.

(** * Properties *)

(** ** The built-ins on small inputs *)

Example splitSpaces_ex :
  JS.splitSpaces " alpha  beta " = [""; "alpha"; "beta"; ""].
Proof. reflexivity. Qed.

Example splitBackslashS_ex :
  JS.splitBackslashS "a\ssb c\s" = ["a"; "b c"; ""]
  /\ JS.splitBackslashS "alpha beta" = ["alpha beta"].
Proof. split; reflexivity. Qed.

Example trim_ex : JS.trim "  a b  " = "a b".
Proof. reflexivity. Qed.

Example toLowerCase_ex : JS.toLowerCase "Alpha BETA 42" = "alpha beta 42".
Proof. reflexivity. Qed.

Example sort_stable_ex :
  map Retrieval.chunkId
      (JS.sort Retrieval.byScoreDesc
         [Retrieval.mkScored sampleA "a" 0.5%float;
          Retrieval.mkScored sampleA "b" 1%float;
          Retrieval.mkScored sampleA "c" 0.5%float;
          Retrieval.mkScored sampleA "d" 1%float])
  = ["b"; "d"; "a"; "c"].
Proof. vm_compute. reflexivity. Qed.

Example path_ex :
  Path.basename "E:/docs/Report.final.PDF" = "Report.final.PDF"
  /\ Path.extname "E:/docs/Report.final.PDF" = ".PDF"
  /\ Path.extname "E:/docs/.gitignore" = ""
  /\ Path.join "/data/" "a.txt" = "/data/a.txt".
Proof. repeat split. Qed.

Example matchesGlob_ex :
  matchesGlob anchoredRegExpTest "C:\data\Report.TXT" "c:/data/*.txt" = true
  /\ matchesGlob anchoredRegExpTest "/data/tmp/b.txt" "/data/tmp" = true
  /\ matchesGlob anchoredRegExpTest "/data/tmp" "/data/tmp" = false
  /\ matchesGlob anchoredRegExpTest "/x/node_modules/y.js" "**/node_modules" = true
  /\ matchesGlob anchoredRegExpTest "/x/src/y.js" "/x/*.ts" = false.
Proof. repeat split. Qed.

Example deriveRoots_ex :
  deriveRoots ["/data"; "C:\a\b\*.txt"; "/data/"] = ["/data/"; "C:/a/b/"]
  /\ deriveRoots [] = ["C:/"].
Proof. split; reflexivity. Qed.

Example effectiveTopK_ex :
  map Retrieval.effectiveTopK [None; Some 0%Z; Some 5%Z; Some 500%Z; Some (-3)%Z]
  = [20; 20; 5; 100; 1].
Proof. reflexivity. Qed.

(** ** Lists, sorting and ranking *)

Section SortFacts.
Context {A : Type} (cmp : A -> A -> float).

Lemma insertSorted_In (x y : A) (l : list A) :
  In y (JS.insertSorted cmp x l) <-> y = x \/ In y l.
Proof.
  induction l as [|z l IH]; simpl.
  - intuition.
  - destruct (0 <? cmp x z)%float; simpl; rewrite ?IH; intuition.
Qed.

Lemma sort_In (y : A) (l : list A) : In y (JS.sort cmp l) <-> In y l.
Proof.
  induction l as [|x l IH]; simpl.
  - reflexivity.
  - rewrite insertSorted_In, IH. intuition.
Qed.

Lemma sort_nil_inv (l : list A) : JS.sort cmp l = [] -> l = [].
Proof.
  destruct l as [|x l]; [reflexivity|]. simpl. intros H.
  assert (In x (JS.insertSorted cmp x (JS.sort cmp l))) as Hin
      by (apply insertSorted_In; now left).
  rewrite H in Hin. destruct Hin.
Qed.
End SortFacts.

Lemma firstn_In_incl {A : Type} (n : nat) (l : list A) (x : A) :
  In x (firstn n l) -> In x l.
Proof.
  revert l; induction n as [|n IH]; intros [|y l]; simpl; try tauto.
  intros [->|H]; auto.
Qed.

Lemma filter_none {A : Type} (f : A -> bool) (l : list A) :
  (forall x, In x l -> f x = false) -> filter f l = [].
Proof.
  induction l as [|x l IH]; simpl; intros H; [reflexivity|].
  rewrite (H x (or_introl eq_refl)). apply IH. intros y Hy. apply H. now right.
Qed.



Lemma rank_In (k : nat) (m : float) (l : list Retrieval.Scored) (x : Retrieval.Scored) :
  In x (Retrieval.rank k m l) -> In x l.
Proof.
  unfold Retrieval.rank. intros Hx.
  apply firstn_In_incl in Hx. apply sort_In in Hx.
  apply filter_In in Hx. tauto.
Qed.

Lemma rank_none (k : nat) (m : float) (l : list Retrieval.Scored) :
  (forall x, In x l -> (m <=? Retrieval.score x)%float = false) ->
  Retrieval.rank k m l = [].
Proof.
  intros H. unfold Retrieval.rank. rewrite filter_none by exact H.
  simpl. now destruct k.
Qed.

(** ** Cosine similarity *)

(** The loop over indices, started at index [i] on the remaining
    elements. *)
Lemma cosineLoop_from (pa pb a b : Retrieval.Vector) (d ma mb : float) :
  List.length pa = List.length pb ->
  List.length a = List.length b ->
  fold_left
    (fun '(dot, magA, magB) i =>
       let x := nth i (pa ++ a) nan in
       let y := nth i (pb ++ b) nan in
       (dot + x * y, magA + x * x, magB + y * y)%float)
    (seq (List.length pa) (List.length a)) (d, ma, mb)
  = (fold_left (fun acc '(x, y) => (acc + x * y)%float) (combine a b) d,
     fold_left (fun acc x => (acc + x * x)%float) a ma,
     fold_left (fun acc x => (acc + x * x)%float) b mb).
Proof.
  revert pa pb b d ma mb.
  induction a as [|x a IH]; intros pa pb [|y b] d ma mb Hp Hl; simpl in Hl;
    try discriminate; [reflexivity|].
  cbn [List.length seq fold_left combine].
  rewrite (app_nth2 pa) by lia. rewrite (app_nth2 pb) by lia.
  replace (List.length pa - List.length pb) with 0 by lia.
  rewrite Nat.sub_diag. cbn [nth].
  specialize (IH (pa ++ [x]) (pb ++ [y]) b).
  rewrite <- !app_assoc in IH. cbn [app] in IH.
  rewrite !length_app in IH. cbn [List.length] in IH.
  rewrite Nat.add_1_r in IH.
  apply IH; [lia | lia].
Qed.

Lemma cosineLoop_sums (a b : Retrieval.Vector) :
  List.length a = List.length b ->
  Retrieval.cosineLoop a b = (dotProduct a b, sumSquares a, sumSquares b).
Proof.
  intros Hl. unfold Retrieval.cosineLoop.
  exact (cosineLoop_from [] [] a b 0%float 0%float 0%float eq_refl Hl).
Qed.

(** *** Binary64 facts: which operations can produce NaN *)

Lemma shr_1_nonneg (mrs : shr_record) :
  (0 <= shr_m mrs)%Z -> (0 <= shr_m (shr_1 mrs))%Z.
Proof.
  destruct mrs as [m r s]. simpl.
  destruct m as [|p|p]; simpl; intros H; try lia.
  destruct p; simpl; lia.
Qed.

Lemma iter_shr_1_nonneg (p : positive) :
  forall mrs, (0 <= shr_m mrs)%Z -> (0 <= shr_m (iter_pos shr_1 p mrs))%Z.
Proof.
  induction p as [p IH|p IH|]; intros mrs H; simpl.
  - apply IH, IH, shr_1_nonneg, H.
  - apply IH, IH, H.
  - apply shr_1_nonneg, H.
Qed.

Lemma shr_fexp_nonneg (m e : Z) (l : location) :
  (0 <= m)%Z -> (0 <= shr_m (fst (shr_fexp prec emax m e l)))%Z.
Proof.
  intros H. unfold shr_fexp, shr.
  assert (shr_m (shr_record_of_loc m l) = m) as Hm
      by (destruct l as [|[]]; reflexivity).
  destruct (_ - e)%Z; simpl; rewrite <- Hm in H; auto.
  now apply iter_shr_1_nonneg.
Qed.

Lemma round_nearest_even_nonneg (m : Z) (l : location) :
  (0 <= m)%Z -> (0 <= round_nearest_even m l)%Z.
Proof.
  intros H. destruct l as [|[]]; simpl; try lia.
  destruct (Z.even m); lia.
Qed.

(** Rounding a non-negative mantissa never yields NaN. *)
Lemma binary_round_aux_not_nan (sx : bool) (mx ex : Z) (lx : location) :
  (0 <= mx)%Z -> binary_round_aux prec emax sx mx ex lx <> S754_nan.
Proof.
  intros H. unfold binary_round_aux.
  pose proof (shr_fexp_nonneg mx ex lx H) as H1.
  destruct (shr_fexp prec emax mx ex lx) as [mrs' e'] eqn:E1. simpl in H1.
  pose proof (shr_fexp_nonneg _ e' loc_Exact
                (round_nearest_even_nonneg _ (loc_of_shr_record mrs') H1)) as H2.
  destruct (shr_fexp prec emax _ e' loc_Exact) as [mrs'' e''] eqn:E2. simpl in H2.
  destruct (shr_m mrs'') as [|p|p]; try discriminate; try lia.
  destruct (_ <=? _)%Z; discriminate.
Qed.

Lemma SFeqb_refl (x : spec_float) : x <> S754_nan -> SFeqb x x = true.
Proof.
  destruct x as [s|s| |s m e]; intros H; try reflexivity; try congruence.
  - destruct s; reflexivity.
  - unfold SFeqb, SFcompare. rewrite Z.compare_refl, Pos.compare_cont_refl.
    destruct s; reflexivity.
Qed.

Lemma is_nan_false_iff (x : float) : is_nan x = false <-> Prim2SF x <> S754_nan.
Proof.
  unfold is_nan. rewrite eqb_spec. split.
  - intros H E. rewrite E in H. discriminate.
  - intros H. now rewrite SFeqb_refl.
Qed.

Lemma is_finite_sfFinite (x : float) : is_finite x = true -> sfFinite (Prim2SF x).
Proof.
  unfold is_finite, is_nan, is_infinity. rewrite !eqb_spec, abs_spec.
  change (Prim2SF infinity) with (S754_infinity false).
  destruct (Prim2SF x) as [s|s| |s m e]; simpl; try tauto; try discriminate.
  destruct s; discriminate.
Qed.

Lemma mul_not_nan (x y : float) :
  sfFinite (Prim2SF x) -> sfFinite (Prim2SF y) -> Prim2SF (x * y) <> S754_nan.
Proof.
  rewrite mul_spec. unfold SF64mul, SFmul.
  destruct (Prim2SF x) as [s|s| |s m e], (Prim2SF y) as [s'|s'| |s' m' e'];
    simpl; try tauto; try discriminate.
  intros _ _. apply binary_round_aux_not_nan. lia.
Qed.

Lemma div_not_nan (x y : float) :
  sfFinite (Prim2SF x) -> Prim2SF y <> S754_nan -> (y =? 0)%float = false ->
  Prim2SF (x / y) <> S754_nan.
Proof.
  rewrite div_spec, eqb_spec. change (Prim2SF 0) with (S754_zero false).
  unfold SF64div, SFdiv.
  destruct (Prim2SF x) as [s|s| |s m e], (Prim2SF y) as [s'|s'| |s' m' e'];
    simpl; try tauto; try discriminate.
  intros _ _ _.
  destruct (SFdiv_core_binary prec emax (Z.pos m) e (Z.pos m') e')
    as [[mz ez] lz] eqn:E.
  apply binary_round_aux_not_nan.
  unfold SFdiv_core_binary in E.
  set (s0 := (_ - _ - _)%Z) in E.
  set (mm := match s0 with Z0 => _ | Zpos _ => _ | Zneg _ => _ end) in E.
  assert (0 <= mm)%Z as Hmm.
  { subst mm. destruct s0; try lia. apply Z.shiftl_nonneg. lia. }
  pose proof (Z.div_pos mm (Z.pos m') Hmm ltac:(lia)) as Hq.
  unfold Z.div in Hq. destruct (Z.div_eucl mm (Z.pos m')) as [q r].
  injection E as <- _ _. exact Hq.
Qed.

(** Zero times a finite number compares equal to zero. *)
Lemma mul_zero_finite (x y : float) :
  (x =? 0)%float = true -> sfFinite (Prim2SF y) ->
  (x * y =? 0)%float = true /\ (y * x =? 0)%float = true.
Proof.
  rewrite !eqb_spec, !mul_spec. change (Prim2SF 0) with (S754_zero false).
  unfold SF64mul, SFmul.
  destruct (Prim2SF x) as [s|s| |s m e], (Prim2SF y) as [s'|s'| |s' m' e'];
    simpl; try tauto; try discriminate; try (destruct s; discriminate).
Qed.

(** *** Claim C10 *)

(** C10, as the code has it: [cosineSimilarity] is a total function; it
    returns 0 when a vector is missing, when the lengths differ, and when
    the computed product of the magnitudes compares equal to 0, as it does
    when one computed magnitude is zero and the other finite; otherwise it
    returns the computed dot product divided by that product.  When the two
    computed magnitudes and the dot product are finite the result is not
    NaN. *)
Theorem cosineSimilarity_cases :
  (forall a b : option Retrieval.Vector,
      Retrieval.cosineSimilarity a b =
      match a, b with
      | Some a, Some b =>
          if List.length a =? List.length b then
            let mag := (magnitude a * magnitude b)%float in
            if (mag =? 0)%float then 0%float else (dotProduct a b / mag)%float
          else 0%float
      | _, _ => 0%float
      end)
  /\ (forall a b : Retrieval.Vector,
         (magnitude a =? 0)%float = true -> is_finite (magnitude b) = true ->
         Retrieval.cosineSimilarity (Some a) (Some b) = 0%float
         /\ Retrieval.cosineSimilarity (Some b) (Some a) = 0%float)
  /\ (forall a b : Retrieval.Vector,
         List.length a = List.length b ->
         is_finite (magnitude a) = true ->
         is_finite (magnitude b) = true ->
         is_finite (dotProduct a b) = true ->
         is_nan (Retrieval.cosineSimilarity (Some a) (Some b)) = false).
Proof.
  assert (forall a b : option Retrieval.Vector,
      Retrieval.cosineSimilarity a b =
      match a, b with
      | Some a, Some b =>
          if List.length a =? List.length b then
            let mag := (magnitude a * magnitude b)%float in
            if (mag =? 0)%float then 0%float else (dotProduct a b / mag)%float
          else 0%float
      | _, _ => 0%float
      end) as Hcases.
  { intros [a|] [b|]; try reflexivity.
    unfold Retrieval.cosineSimilarity.
    destruct (List.length a =? List.length b) eqn:E; [|reflexivity].
    apply Nat.eqb_eq in E. simpl negb. cbv iota.
    rewrite (cosineLoop_sums a b E). reflexivity. }
  split; [exact Hcases|]. split.
  { intros a b Hz Hb. rewrite !Hcases.
    destruct (mul_zero_finite (magnitude a) (magnitude b) Hz
                (is_finite_sfFinite _ Hb)) as [H1 H2].
    cbv zeta. rewrite H1, H2.
    split; [destruct (List.length a =? List.length b)
           |destruct (List.length b =? List.length a)]; reflexivity. }
  intros a b Hl Ha Hb Hd. rewrite Hcases.
  apply Nat.eqb_eq in Hl. rewrite Hl. cbv zeta.
  destruct (magnitude a * magnitude b =? 0)%float eqn:E; [reflexivity|].
  apply is_nan_false_iff. apply div_not_nan.
  - now apply is_finite_sfFinite.
  - apply mul_not_nan; now apply is_finite_sfFinite.
  - exact E.
Qed.

Lemma cosineSimilarity_cases_witness :
  is_nan (Retrieval.cosineSimilarity (Some [1; 2]%float) (Some [3; 4]%float)) = false
  /\ Retrieval.cosineSimilarity (Some [0; 0]%float) (Some [3; 4]%float) = 0%float.
Proof.
  split.
  - apply (proj2 (proj2 cosineSimilarity_cases) [1; 2]%float [3; 4]%float);
      vm_compute; reflexivity.
  - apply (proj1 (proj2 cosineSimilarity_cases) [0; 0]%float [3; 4]%float);
      vm_compute; reflexivity.
Defined.

(** Two vectors of finite numbers, the first of magnitude zero, on which
    the function returns NaN: the sum of squares of the second overflows,
    and zero times infinity is NaN, which is not [=== 0]. *)
Lemma cosineSimilarity_nan_on_finite_inputs :
  Forall (fun x => is_finite x = true) [0%float]
  /\ Forall (fun x => is_finite x = true) [1e200%float]
  /\ magnitude [0%float] = 0%float
  /\ is_nan (Retrieval.cosineSimilarity (Some [0%float]) (Some [1e200%float])) = true
  /\ Retrieval.cosineSimilarity (Some [0%float]) (Some [1e200%float]) <> 0%float.
Proof.
  repeat split.
  - repeat constructor.
  - repeat constructor.
  - vm_compute. intros H. discriminate H.
Qed.

(** ** Keyword score *)

Lemma count_loop {A : Type} (f : A -> bool) (l : list A) (m : nat) :
  fold_left (fun m x => if f x then S m else m) l m
  = m + List.length (filter f l).
Proof.
  revert m; induction l as [|x l IH]; intros m; simpl.
  - lia.
  - rewrite IH. destruct (f x); simpl; lia.
Qed.

(** With the terms of the query in hand, the score is the number of terms
    the lower-cased text includes over the number of terms. *)
Lemma keywordScore_fraction (splitTerms : string -> list string)
      (text query : string) :
  text <> "" -> query <> "" -> queryTerms splitTerms query <> [] ->
  Retrieval.keywordScore splitTerms text query
  = (JS.ofNat (List.length (filter (fun t => JS.includes (JS.toLowerCase text) t)
                                   (queryTerms splitTerms query)))
     / JS.ofNat (List.length (queryTerms splitTerms query)))%float.
Proof.
  intros Ht Hq Hterms. unfold Retrieval.keywordScore.
  destruct text as [|c text]; [congruence|].
  destruct query as [|d query]; [congruence|].
  cbn [JS.isEmpty orb]. fold (queryTerms splitTerms (String d query)).
  destruct (queryTerms splitTerms (String d query)) as [|t ts] eqn:E; [congruence|].
  cbn [List.length Nat.eqb]. rewrite count_loop. reflexivity.
Qed.

(** C4 at its own example.  The RAG backend, which splits the query at
    white space, scores 1 of 2 terms; the backend server, whose regular
    expression is written with a doubled backslash, takes "alpha beta" for
    one term and scores 0. *)
Theorem keywordScore_alpha_beta :
  Retrieval.RagBackend.keywordScore "alpha" "alpha beta" = 0.5%float
  /\ queryTerms JS.splitBackslashS "alpha beta" = ["alpha beta"]
  /\ Retrieval.Backend.keywordScore "alpha" "alpha beta" = 0%float.
Proof. repeat split. Qed.

(** ** Hybrid search *)

(** [hybridSearch] scores every candidate in one pass as 0.7 times its
    cosine score plus 0.3 times its keyword score, then filters and
    truncates. *)
Lemma hybridSearch_weighted (splitTerms : string -> list string)
      (embeddings : list Retrieval.ChunkRecord) (queryEmbed : option Retrieval.Vector)
      (query : string) (topK : nat) (minScore : float) :
  Retrieval.hybridSearch splitTerms embeddings queryEmbed query topK minScore
  = Retrieval.rank topK minScore
      (map (fun it =>
              Retrieval.mkScored it (Retrieval.chunkIdOf it)
                (0.7 * Retrieval.cosineSimilarity queryEmbed (Retrieval.embedding it)
                 + 0.3 * Retrieval.keywordScore splitTerms (Retrieval.textOf it) query)%float)
           embeddings)
  /\ forall x,
      In x (Retrieval.hybridSearch splitTerms embeddings queryEmbed query topK minScore) ->
      Retrieval.score x
      = (0.7 * Retrieval.cosineSimilarity queryEmbed (Retrieval.embedding (Retrieval.item x))
         + 0.3 * Retrieval.keywordScore splitTerms (Retrieval.textOf (Retrieval.item x)) query)%float.
Proof.
  split; [reflexivity|].
  intros x Hx. unfold Retrieval.hybridSearch in Hx. apply rank_In in Hx.
  apply in_map_iff in Hx. destruct Hx as [it [<- _]]. reflexivity.
Qed.

(** C3 at a failing input.  For the query "alpha beta" in hybrid mode the
    endpoint returns the second record first with score 1 (its keyword
    score, kept as it is because the record did not pass the semantic
    filter) and the first record with score 0.75 (the mean of 0.5 and 1);
    the weighted sum gives 0.85 to the first record and 0.3 to the second,
    as [hybridSearch] computes, which the endpoint does not call. *)
Theorem search_hybrid_is_two_stage :
  map (fun c => (Retrieval.r_chunkId c, Retrieval.r_score c))
      (chunksOf (Retrieval.RagBackend.search (Some [sampleA; sampleB]) sampleService
                   sampleClock
                   (Retrieval.mkSearchBody (Some "alpha beta") (Some "hybrid") None None)))
  = [("chunk_docs/b.md_3", 1%float); ("chunk_docs/a.txt_0", 0.75%float)]
  /\ map (fun x => (Retrieval.chunkId x, Retrieval.score x))
         (Retrieval.RagBackend.hybridSearch [sampleA; sampleB] (Some [1; 0]%float)
            "alpha beta" 20 0.3%float)
     = [("chunk_docs/a.txt_0", (0.7 * 1 + 0.3 * 0.5)%float);
        ("chunk_docs/b.md_3", (0.7 * 0 + 0.3 * 1)%float)]
  /\ map (fun c => (Retrieval.r_chunkId c, Retrieval.r_score c))
         (chunksOf (Retrieval.Backend.search (Some [sampleA; sampleB]) sampleService
                      sampleClock
                      (Retrieval.mkSearchBody (Some "alpha") (Some "hybrid") None None)))
     = [("chunk_docs/a.txt_0", 1%float); ("chunk_docs/b.md_3", 1%float)]
  /\ map (fun x => (Retrieval.chunkId x, Retrieval.score x))
         (Retrieval.Backend.hybridSearch [sampleA; sampleB] (Some [1; 0]%float)
            "alpha" 20 0.3%float)
     = [("chunk_docs/a.txt_0", 1%float); ("chunk_docs/b.md_3", (0.7 * 0 + 0.3 * 1)%float)].
Proof. repeat split; vm_compute; reflexivity. Qed.

(** ** The search endpoint: filter, truncation, repeatability *)



(** The ranked list behind a reply, or [None] when the handler fails. *)
Lemma search_reply (splitTerms : string -> list string)
      (r0 : Retrieval.ChunkRecord) (rest : list Retrieval.ChunkRecord)
      (service : string -> Retrieval.EmbedOutcome) (now : Retrieval.Clock)
      (body : Retrieval.SearchBody) :
  exists results : option (list Retrieval.Scored),
    Retrieval.search splitTerms (Some (r0 :: rest)) service now body
    = match results with
      | Some rs => Retrieval.Reply (Retrieval.queryIdOf now)
                                   (map (Retrieval.toResultChunk now) rs) None
      | None => Retrieval.ServerError "Search failed"
      end.
Proof. unfold Retrieval.search. eexists. reflexivity. Qed.




(** *** Claim C8 *)

(** C8, as the code has it: two searches with the same arguments against
    the same snapshot, answered alike by the embedding process, return the
    same chunks with the same scores in the same order, and the same value
    in every field but [modifiedAt] (and the query identifier), which hold
    the time of the call. *)
Theorem search_repeatable_up_to_clock
        (splitTerms : string -> list string)
        (indexData : option (list Retrieval.ChunkRecord))
        (service : string -> Retrieval.EmbedOutcome)
        (now1 now2 : Retrieval.Clock) (body : Retrieval.SearchBody) :
  withoutClock (Retrieval.search splitTerms indexData service now1 body)
  = withoutClock (Retrieval.search splitTerms indexData service now2 body).
Proof.
  destruct indexData as [[|r0 rest]|]; try reflexivity.
  destruct (search_reply splitTerms r0 rest service now1 body) as [rs1 H1].
  unfold Retrieval.search in *.
  set (results := if String.eqb _ "semantic" then _ else _) in *.
  destruct results as [rs|]; [|reflexivity].
  cbn [withoutClock]. f_equal. rewrite !map_map. reflexivity.
Qed.

(** C8 as stated fails: the same search one second later differs in the
    [modifiedAt] field of its chunk. *)
Lemma search_twice_differs :
  Retrieval.RagBackend.search (Some [sampleA]) sampleService sampleClock sampleBody
  <> Retrieval.RagBackend.search (Some [sampleA]) sampleService laterClock sampleBody
  /\ map Retrieval.r_modifiedAt
         (chunksOf (Retrieval.RagBackend.search (Some [sampleA]) sampleService
                      sampleClock sampleBody))
     = ["2026-01-01T00:00:00.000Z"]
  /\ map Retrieval.r_modifiedAt
         (chunksOf (Retrieval.RagBackend.search (Some [sampleA]) sampleService
                      laterClock sampleBody))
     = ["2026-01-01T00:00:01.000Z"].
Proof.
  split; [|split; vm_compute; reflexivity].
  intros H. apply (f_equal chunksOf) in H.
  apply (f_equal (map Retrieval.r_modifiedAt)) in H.
  vm_compute in H. discriminate H.
Qed.

(** ** Selection rules and the walk *)

Section Selection.
Variable regexpTest : string -> string -> bool.

Lemma isSelected_iff (selection : Indexer.Selection) (p : string) :
  Indexer.isSelected regexpTest selection p = true <->
  (Indexer.include selection = []
   \/ exists rule, In rule (Indexer.include selection) /\ Indexer.matchesGlob regexpTest p rule = true)
  /\ (forall rule, In rule (Indexer.exclude selection) -> Indexer.matchesGlob regexpTest p rule = false).
Proof.
  unfold Indexer.isSelected.
  rewrite negb_true_iff, orb_false_iff, negb_false_iff, orb_true_iff.
  rewrite Nat.eqb_eq, length_zero_iff_nil, existsb_exists.
  assert (existsb (fun rule => Indexer.matchesGlob regexpTest p rule) (Indexer.exclude selection) = false
          <-> forall rule, In rule (Indexer.exclude selection) -> Indexer.matchesGlob regexpTest p rule = false)
    as ->.
  { split.
    - intros H rule Hin. destruct (Indexer.matchesGlob regexpTest p rule) eqn:E; [|reflexivity].
      assert (existsb (fun rule => Indexer.matchesGlob regexpTest p rule) (Indexer.exclude selection) = true)
        as Ht by (apply existsb_exists; eauto).
      congruence.
    - intros H. destruct (existsb _ _) eqn:E; [|reflexivity].
      apply existsb_exists in E. destruct E as [rule [Hin Hm]].
      rewrite (H rule Hin) in Hm. discriminate. }
  reflexivity.
Qed.

(** Whatever the walk yields passed the test of its directory entry. *)
Lemma walk_selected (fs : Indexer.FileSystem) (selection : Indexer.Selection)
      (p : string) :
  forall levels folderPath,
    In p (Indexer.walk regexpTest fs selection levels folderPath) ->
    Indexer.isSelected regexpTest selection p = true.
Proof.
  induction levels as [|levels IH]; intros folderPath Hin;
    cbn [Indexer.walk] in Hin; [destruct Hin|].
  destruct (existsb _ (Indexer.exclude selection)); [destruct Hin|].
  destruct (Indexer.readdir fs folderPath) as [entries|]; [|destruct Hin].
  apply in_flat_map in Hin. destruct Hin as [entry [_ Hin]].
  destruct (Indexer.isSelected regexpTest selection
              (Path.join folderPath (Indexer.name entry))) eqn:Hsel;
    [|destruct Hin].
  destruct (Indexer.kind entry).
  - destruct (Indexer.memberOf _ _); [|destruct Hin].
    destruct Hin as [<-|[]]. exact Hsel.
  - exact (IH _ Hin).
  - destruct Hin.
Qed.

End Selection.


(** The scenario's walk: only [a.txt] is queued. *)
Example scenario_walk :
  Indexer.collectFiles Indexer.anchoredRegExpTest sampleFs "/data/" 10 0 sampleSelection
  = ["/data/a.txt"].
Proof. vm_compute. reflexivity. Qed.

(** ** Chunker *)

Lemma trimStart_idem (s : string) : JS.trimStart (JS.trimStart s) = JS.trimStart s.
Proof.
  induction s as [|c s IH]; simpl; [reflexivity|].
  destruct (JS.isSpace c) eqn:E; [exact IH|]. simpl. now rewrite E.
Qed.

Lemma trimEnd_idem (s : string) : JS.trimEnd (JS.trimEnd s) = JS.trimEnd s.
Proof.
  induction s as [|c s IH]; simpl; [reflexivity|].
  destruct (JS.trimEnd s) as [|d t] eqn:E.
  - destruct (JS.isSpace c) eqn:Ec; simpl; [reflexivity|]. now rewrite Ec.
  - change (JS.trimEnd (String c (String d t)))
      with (match JS.trimEnd (String d t) with
            | EmptyString => if JS.isSpace c then EmptyString else String c EmptyString
            | u => String c u
            end).
    rewrite IH. reflexivity.
Qed.

Lemma trimStart_trimEnd (s : string) :
  JS.trimStart s = s -> JS.trimStart (JS.trimEnd s) = JS.trimEnd s.
Proof.
  destruct s as [|c s]; [reflexivity|]. simpl.
  destruct (JS.isSpace c) eqn:Ec.
  - intros H. exfalso.
    assert (forall u, String.length (JS.trimStart u) <= String.length u) as Hle.
    { induction u as [|d u IHu]; simpl; [lia|]. destruct (JS.isSpace d); simpl; lia. }
    specialize (Hle s). rewrite H in Hle. simpl in Hle. lia.
  - intros _. destruct (JS.trimEnd s); simpl; now rewrite Ec.
Qed.

Lemma trim_idem (s : string) : JS.trim (JS.trim s) = JS.trim s.
Proof.
  unfold JS.trim.
  rewrite (trimStart_trimEnd (JS.trimStart s) (trimStart_idem s)).
  apply trimEnd_idem.
Qed.

Lemma windowCount_full (len k : nat) :
  S k < windowCount len -> 400 * k + 500 < len.
Proof.
  unfold windowCount. destruct len as [|n]; [lia|].
  set (len := S n). intros H.
  pose proof (Nat.div_mod_eq (len - 500 + 399) 400) as Hd.
  pose proof (Nat.mod_upper_bound (len - 500 + 399) 400 ltac:(lia)) as Hm.
  lia.
Qed.

Lemma windowCount_last (len k : nat) :
  S k = windowCount len -> 400 * k < len <= 400 * k + 500.
Proof.
  unfold windowCount. destruct len as [|n]; [lia|].
  set (len := S n). intros H.
  pose proof (Nat.div_mod_eq (len - 500 + 399) 400) as Hd.
  pose proof (Nat.mod_upper_bound (len - 500 + 399) 400 ltac:(lia)) as Hm.
  lia.
Qed.

Lemma windowCount_le (len : nat) : windowCount len <= len.
Proof.
  unfold windowCount. destruct len as [|n]; [lia|].
  set (len := S n).
  pose proof (Nat.div_mod_eq (len - 500 + 399) 400) as Hd.
  pose proof (Nat.mod_upper_bound (len - 500 + 399) 400 ltac:(lia)) as Hm.
  lia.
Qed.

(** The loop started at step [k] with [n] windows to go. *)
Lemma chunkLoop_windows (text : string) :
  forall n fuel k,
    0 < n -> n <= fuel -> k + n = windowCount (String.length text) ->
    Indexer.chunkLoop fuel text (400 * k)
    = filter (fun c => 50 <? String.length c) (map (windowAt text) (seq k n)).
Proof.
  induction n as [|n IH]; intros fuel k Hn Hfuel Hk; [lia|].
  destruct fuel as [|fuel]; [lia|].
  cbn [Indexer.chunkLoop seq map filter].
  unfold Indexer.CHUNK_SIZE, Indexer.CHUNK_OVERLAP. fold (windowAt text k).
  destruct n as [|n].
  - (* the last window: it reaches the end of the text *)
    pose proof (windowCount_last (String.length text) k ltac:(lia)) as [Hlo Hhi].
    apply Nat.ltb_lt in Hlo. rewrite Hlo.
    assert ((String.length text <=? Nat.min (400 * k + 500) (String.length text)) = true)
      as -> by (apply Nat.leb_le; lia).
    reflexivity.
  - (* a full window: the loop goes on 400 characters further *)
    pose proof (windowCount_full (String.length text) k ltac:(lia)) as Hfull.
    assert ((400 * k <? String.length text) = true) as -> by (apply Nat.ltb_lt; lia).
    assert ((String.length text <=? Nat.min (400 * k + 500) (String.length text)) = false)
      as -> by (apply Nat.leb_gt; lia).
    replace (400 * k + (500 - 100)) with (400 * S k) by lia.
    rewrite (IH fuel (S k)) by lia.
    reflexivity.
Qed.

(** C2: the chunker takes a window every 400 characters, 500 characters
    long but for the last, which ends with the text; it keeps the windows
    whose trimmed length exceeds 50, the last one included, and stops
    there.  No chunk has a trimmed length of 50 or less. *)
Theorem chunker_windows (text : string) :
  Indexer.chunkText text
  = filter (fun c => 50 <? String.length c)
           (map (windowAt text) (seq 0 (windowCount (String.length text))))
  /\ Indexer.CHUNK_SIZE - Indexer.CHUNK_OVERLAP = 400
  /\ (forall k, S k < windowCount (String.length text) ->
                400 * k + 500 < String.length text)
  /\ (forall k, S k = windowCount (String.length text) ->
                400 * k < String.length text <= 400 * k + 500)
  /\ Forall (fun c => 50 < String.length (JS.trim c)) (Indexer.chunkText text).
Proof.
  assert (Indexer.chunkText text
          = filter (fun c => 50 <? String.length c)
                   (map (windowAt text) (seq 0 (windowCount (String.length text)))))
    as Heq.
  { unfold Indexer.chunkText.
    destruct (windowCount (String.length text)) as [|n] eqn:E.
    - unfold windowCount in E. destruct (String.length text); [reflexivity|discriminate].
    - pose proof (windowCount_le (String.length text)) as Hle.
      rewrite <- E.
      exact (chunkLoop_windows text (windowCount (String.length text))
               (String.length text) 0 ltac:(lia) Hle eq_refl). }
  split; [exact Heq|]. split; [reflexivity|].
  split; [apply windowCount_full|]. split; [apply windowCount_last|].
  rewrite Heq. apply Forall_forall. intros c Hc.
  apply filter_In in Hc. destruct Hc as [Hc Hlen].
  apply in_map_iff in Hc. destruct Hc as [k [<- _]].
  unfold windowAt in *. rewrite trim_idem. now apply Nat.ltb_lt.
Qed.

Lemma chunker_windows_witness :
  400 * 1 < String.length (repeatChar "x" 900) <= 400 * 1 + 500.
Proof.
  apply (proj1 (proj2 (proj2 (proj2 (chunker_windows (repeatChar "x" 900)))))).
  vm_compute. reflexivity.
Defined.

(** The scenario's file of 400 characters gives one chunk; a text of 901
    characters gives three, the last of 101 characters; a last window of
    white space is dropped. *)
Example chunkText_400 :
  Indexer.chunkText (repeatChar "x" 400) = [repeatChar "x" 400].
Proof. vm_compute. reflexivity. Qed.

Example chunkText_901 :
  map String.length (Indexer.chunkText (repeatChar "x" 901)) = [500; 500; 101].
Proof. vm_compute. reflexivity. Qed.

Example chunkText_blank_tail :
  map String.length
      (Indexer.chunkText (repeatChar "x" 800 ++ repeatChar " " 101)%string)
  = [500; 400].
Proof. vm_compute. reflexivity. Qed.

(** ** The worker: sample runs *)

(** The design document's scenario: include [/data], exclude [/data/tmp];
    one file is queued and processed, its one chunk is embedded and
    saved. *)
Example scenario_run :
  option_map (fun w => (counters w, List.length (Indexer.embeddingsStore w),
                        List.length (Indexer.disk w)))
             (Indexer.handleStart Indexer.anchoredRegExpTest sampleWorld sampleSelection
                                  None Indexer.initialWorker)
  = Some ([1; 1; 0; 1; 1], 1, 1).
Proof. vm_compute. reflexivity. Qed.

(** ** The worker: control messages, flushing, the file loop *)

Section WorkerFacts.
Import Indexer.

Ltac destruct_worker w :=
  let st := fresh "st" in
  destruct w as [st ? ? ? ? ? ?]; destruct st.


Lemma handleControl_stop_stays (c : Control) (w : Worker) :
  running (STATE w) = false -> running (STATE (handleControl c w)) = false.
Proof. destruct_worker w. destruct c; cbn; auto. Qed.

Lemma deliver_stop_stays (cs : list Control) :
  forall w, running (STATE w) = false -> running (STATE (deliver cs w)) = false.
Proof.
  induction cs as [|c cs IH]; intros w H; [exact H|].
  change (deliver (c :: cs) w) with (deliver cs (handleControl c w)).
  apply IH, handleControl_stop_stays, H.
Qed.

(** Once [stop] is among the messages handled, [running] is false. *)
Lemma deliver_stop (cs : list Control) :
  forall w, In CmdStop cs -> running (STATE (deliver cs w)) = false.
Proof.
  induction cs as [|c cs IH]; intros w Hin; [destruct Hin|].
  change (deliver (c :: cs) w) with (deliver cs (handleControl c w)).
  destruct Hin as [->|Hin].
  - apply deliver_stop_stays. destruct_worker w. reflexivity.
  - apply IH, Hin.
Qed.


(** *** One call of [processPendingEmbeddings] *)




(** *** The flush loop *)




(** *** Flushing through a process that answers every batch in full *)




(** *** One file *)






(** *** Claim C5: stop *)


(** *** Claim C9: progress updates *)







Variable regexpTest : string -> string -> bool.



(** *** Claim C6: a run without the embedding process *)






End WorkerFacts.

(** ** The worker: claims at sample worlds *)





(** The scenario of the design document, with a silent embedding
    process. *)
Example silent_run :
  option_map (fun w => (counters w, Indexer.phaseOf (Indexer.STATE w)))
    (Indexer.handleStart Indexer.anchoredRegExpTest silentWorld sampleSelection None
                         Indexer.initialWorker)
  = Some ([1; 1; 0; 1; 0], Indexer.Idle).
Proof. vm_compute. reflexivity. Qed.



(** * Further properties

    Properties of the code the design document does not state: the
    walk and its rules, the chunker, the worker's accounts, the search
    and reasoning endpoints, the folder cache, the preview and the
    snapshot files. *)

(** ** Strings: prefixes, occurrences, pieces *)

Lemma append_assoc (a b c : string) : ((a ++ b) ++ c = a ++ (b ++ c))%string.
Proof. induction a as [|x a IH]; simpl; [reflexivity|now rewrite IH]. Qed.

Lemma append_nil_r (a : string) : (a ++ "" = a)%string.
Proof. induction a as [|x a IH]; simpl; [reflexivity|now rewrite IH]. Qed.

Lemma length_append (a b : string) :
  String.length (a ++ b) = String.length a + String.length b.
Proof. induction a as [|x a IH]; simpl; [reflexivity|now rewrite IH]. Qed.

Lemma startsWith_nil (s : string) : JS.startsWith s "" = true.
Proof. now destruct s. Qed.

Lemma startsWith_app (p s : string) : JS.startsWith (p ++ s) p = true.
Proof.
  induction p as [|c p IH]; simpl; [apply startsWith_nil|].
  now rewrite Ascii.eqb_refl, IH.
Qed.

Lemma startsWith_inv (s p : string) :
  JS.startsWith s p = true -> exists t, s = (p ++ t)%string.
Proof.
  revert s. induction p as [|c p IH]; intros s H.
  - now exists s.
  - destruct s as [|a s]; simpl in H; [discriminate|].
    apply andb_true_iff in H. destruct H as [Hc Hp].
    apply Ascii.eqb_eq in Hc. subst a.
    destruct (IH s Hp) as [t ->]. now exists t.
Qed.

Lemma indexOf_eq (s p : string) :
  JS.indexOf s p
  = if JS.startsWith s p then Some 0
    else match s with
         | EmptyString => None
         | String _ s' => option_map S (JS.indexOf s' p)
         end.
Proof. now destruct s. Qed.

(** An occurrence of [p] after a prefix [pre] is found at or before the
    end of [pre]. *)
Lemma indexOf_app_le (pre p rest : string) :
  exists j, JS.indexOf (pre ++ p ++ rest) p = Some j /\ j <= String.length pre.
Proof.
  induction pre as [|c pre [j [IH Hj]]].
  - exists 0. rewrite indexOf_eq. simpl append. now rewrite startsWith_app.
  - rewrite indexOf_eq.
    destruct (JS.startsWith _ p).
    + exists 0. split; [reflexivity|lia].
    + simpl append. cbv iota. rewrite IH. exists (S j). split; [reflexivity|simpl; lia].
Qed.

Lemma drop_app (j : nat) (pre t : string) :
  j <= String.length pre -> JS.drop j (pre ++ t) = (JS.drop j pre ++ t)%string.
Proof.
  revert pre. induction j as [|j IH]; intros pre H; [reflexivity|].
  destruct pre as [|c pre]; simpl in *; [lia|]. apply IH. lia.
Qed.

Lemma drop_length (a b : string) : JS.drop (String.length a) (a ++ b) = b.
Proof. induction a as [|c a IH]; simpl; [now destruct b|exact IH]. Qed.

Lemma take_length (a b : string) : JS.take (String.length a) (a ++ b) = a.
Proof.
  induction a as [|c a IH]; simpl; [now destruct b|now rewrite IH].
Qed.

Lemma take_drop (i : nat) (s : string) : (JS.take i s ++ JS.drop i s = s)%string.
Proof.
  revert s. induction i as [|i IH]; intros [|c s]; simpl; try reflexivity.
  now rewrite IH.
Qed.

Lemma length_take (i : nat) (s : string) :
  String.length (JS.take i s) = Nat.min i (String.length s).
Proof.
  revert s. induction i as [|i IH]; intros [|c s]; simpl; try reflexivity.
  now rewrite IH.
Qed.

Lemma length_drop (i : nat) (s : string) :
  String.length (JS.drop i s) = String.length s - i.
Proof.
  revert s. induction i as [|i IH]; intros [|c s]; simpl; try reflexivity.
  apply IH.
Qed.

(** What [indexOf] finds is an occurrence, with no earlier one. *)
Lemma indexOf_Some (s p : string) (i : nat) :
  JS.indexOf s p = Some i ->
  exists s2, JS.drop i s = (p ++ s2)%string /\ i <= String.length s.
Proof.
  revert i. induction s as [|c s IH]; intros i H; rewrite indexOf_eq in H.
  - destruct (JS.startsWith "" p) eqn:E; [|discriminate].
    injection H as <-. destruct (startsWith_inv _ _ E) as [t Ht].
    exists t. split; [exact Ht|simpl; lia].
  - destruct (JS.startsWith (String c s) p) eqn:E.
    + injection H as <-. destruct (startsWith_inv _ _ E) as [t Ht].
      exists t. split; [exact Ht|lia].
    + destruct (JS.indexOf s p) as [j|] eqn:Ej; [|discriminate].
      injection H as <-. destruct (IH j eq_refl) as [s2 [H2 Hl]].
      exists s2. split; [exact H2|simpl; lia].
Qed.

Lemma includes_app (a p b : string) : JS.includes (a ++ p ++ b) p = true.
Proof.
  unfold JS.includes. destruct (indexOf_app_le a p b) as [j [-> _]]. reflexivity.
Qed.

Lemma includes_inv (s p : string) :
  JS.includes s p = true -> exists a b, s = (a ++ p ++ b)%string.
Proof.
  unfold JS.includes. destruct (JS.indexOf s p) as [i|] eqn:E; [|discriminate].
  intros _. destruct (indexOf_Some _ _ _ E) as [s2 [H _]].
  exists (JS.take i s), s2. rewrite <- H. now rewrite take_drop.
Qed.

(** ** Characters *)

Lemma containsChar_app (c : ascii) (a b : string) :
  JS.containsChar c (a ++ b) = JS.containsChar c a || JS.containsChar c b.
Proof.
  induction a as [|x a IH]; simpl; [reflexivity|]. now rewrite IH, orb_assoc.
Qed.

Lemma replaceChar_app (x y : ascii) (a b : string) :
  JS.replaceChar x y (a ++ b) = (JS.replaceChar x y a ++ JS.replaceChar x y b)%string.
Proof. induction a as [|c a IH]; simpl; [reflexivity|now rewrite IH]. Qed.

Lemma replaceChar_idem (x y : ascii) (s : string) :
  Ascii.eqb y x = false ->
  JS.replaceChar x y (JS.replaceChar x y s) = JS.replaceChar x y s.
Proof.
  intros H. induction s as [|c s IH]; simpl; [reflexivity|]. rewrite IH.
  destruct (Ascii.eqb c x) eqn:E; [now rewrite H|now rewrite E].
Qed.

Lemma replaceChar_removes (x y : ascii) (s : string) :
  Ascii.eqb y x = false -> JS.containsChar x (JS.replaceChar x y s) = false.
Proof.
  intros H. induction s as [|c s IH]; simpl; [reflexivity|]. rewrite IH.
  destruct (Ascii.eqb c x) eqn:E; [now rewrite H|now rewrite E].
Qed.

Lemma replaceChar_keeps (x y z : ascii) (s : string) :
  Ascii.eqb x z = false -> Ascii.eqb y z = false ->
  JS.containsChar z (JS.replaceChar x y s) = JS.containsChar z s.
Proof.
  intros Hx Hy. induction s as [|c s IH]; simpl; [reflexivity|]. rewrite IH.
  destruct (Ascii.eqb c x) eqn:E.
  - apply Ascii.eqb_eq in E. subst c. now rewrite Hx, Hy.
  - reflexivity.
Qed.

Lemma toLowerCase_app (a b : string) :
  JS.toLowerCase (a ++ b) = (JS.toLowerCase a ++ JS.toLowerCase b)%string.
Proof. induction a as [|c a IH]; simpl; [reflexivity|now rewrite IH]. Qed.

Lemma lowerChar_idem (c : ascii) : JS.lowerChar (JS.lowerChar c) = JS.lowerChar c.
Proof. destruct c as [[] [] [] [] [] [] [] []]; reflexivity. Qed.

Lemma lowerChar_eqb_fixed (c d : ascii) :
  In d ["/"; "\"; "*"]%char ->
  Ascii.eqb (JS.lowerChar c) d = Ascii.eqb c d.
Proof.
  intros [<-|[<-|[<-|[]]]]; destruct c as [[] [] [] [] [] [] [] []]; reflexivity.
Qed.

Lemma toLowerCase_idem (s : string) :
  JS.toLowerCase (JS.toLowerCase s) = JS.toLowerCase s.
Proof.
  induction s as [|c s IH]; simpl; [reflexivity|]. now rewrite lowerChar_idem, IH.
Qed.

(** ** Derived roots *)

Lemma startsWith_char (s : string) (c : ascii) :
  JS.startsWith s (String c "")
  = match s with String a _ => Ascii.eqb a c | EmptyString => false end.
Proof.
  destruct s as [|a s]; [reflexivity|]. simpl.
  now rewrite startsWith_nil, andb_true_r.
Qed.

(** [indexOf] of a single character: nothing before the index found,
    nothing at all when none is found. *)
Lemma indexOf_char (s : string) (c : ascii) :
  match JS.indexOf s (String c "") with
  | Some i => JS.containsChar c (JS.take i s) = false
  | None => JS.containsChar c s = false
  end.
Proof.
  induction s as [|a s IH]; [reflexivity|].
  rewrite indexOf_eq, startsWith_char.
  destruct (Ascii.eqb a c) eqn:E; [reflexivity|].
  destruct (JS.indexOf s (String c "")) as [i|]; simpl; now rewrite E.
Qed.

Lemma strip_prefix (s : string) :
  exists t, s = (Indexer.stripTrailingSlashes s ++ t)%string.
Proof.
  induction s as [|c s [t IH]]; [now exists ""|].
  simpl. destruct (Indexer.stripTrailingSlashes s) as [|d u] eqn:E.
  - destruct (Ascii.eqb c "/").
    + now exists (String c s).
    + exists t. simpl in *. now rewrite <- IH.
  - exists t. simpl in *. now rewrite <- IH.
Qed.

Lemma strip_no_slash_end (s : string) :
  JS.endsWithChar (Indexer.stripTrailingSlashes s) "/" = false.
Proof.
  induction s as [|c s IH]; [reflexivity|].
  simpl. destruct (Indexer.stripTrailingSlashes s) as [|d u] eqn:E.
  - destruct (Ascii.eqb c "/") eqn:Ec; [reflexivity|]. simpl. exact Ec.
  - exact IH.
Qed.

Lemma containsChar_prefix (c : ascii) (a b : string) :
  JS.containsChar c (a ++ b) = false -> JS.containsChar c a = false.
Proof.
  rewrite containsChar_app. intros H. now apply orb_false_iff in H.
Qed.

Lemma endsWithChar_app (s : string) (c : ascii) :
  JS.endsWithChar (s ++ String c "") c = true.
Proof.
  induction s as [|a s IH]; simpl; [apply Ascii.eqb_refl|].
  destruct (s ++ String c "")%string eqn:E; [now destruct s|exact IH].
Qed.

Lemma deriveRoot_shape (r : string) :
  exists stem,
    Indexer.deriveRoot r = (stem ++ "/")%string
    /\ JS.endsWithChar stem "/" = false
    /\ JS.containsChar "*" stem = false
    /\ JS.containsChar "\" stem = false
    /\ JS.startsWith (JS.replaceChar "\" "/" r) stem = true.
Proof.
  unfold Indexer.deriveRoot.
  set (norm := JS.replaceChar "\" "/" r).
  set (cut := match JS.indexOf norm "*" with
              | Some starIdx => JS.take starIdx norm
              | None => norm
              end).
  assert (JS.containsChar "*" cut = false) as Hstar.
  { subst cut. pose proof (indexOf_char norm "*") as H.
    now destruct (JS.indexOf norm "*"). }
  assert (exists t, norm = (cut ++ t)%string) as [t Ht].
  { subst cut. destruct (JS.indexOf norm "*") as [i|].
    - exists (JS.drop i norm). now rewrite take_drop.
    - exists "". now rewrite append_nil_r. }
  destruct (strip_prefix cut) as [u Hu].
  pose proof (strip_no_slash_end cut) as Hend.
  remember (Indexer.stripTrailingSlashes cut) as stem eqn:Es.
  exists stem. rewrite Hend.
  split; [reflexivity|]. split; [reflexivity|].
  assert (norm = (stem ++ u ++ t)%string) as Hn
      by (now rewrite <- append_assoc, <- Hu).
  split; [|split].
  - rewrite Hu in Hstar. now apply containsChar_prefix in Hstar.
  - assert (JS.containsChar "\" norm = false) as Hb
        by (now apply replaceChar_removes).
    rewrite Hn in Hb. now apply containsChar_prefix in Hb.
  - rewrite Hn. apply startsWith_app.
Qed.

Lemma setAdd_In (x y : string) (l : list string) :
  In y (Indexer.setAdd x l) <-> In y l \/ y = x.
Proof.
  unfold Indexer.setAdd. destruct (existsb (String.eqb x) l) eqn:E.
  - split; [now left|]. intros [H| ->]; [exact H|].
    apply existsb_exists in E. destruct E as [z [Hz Ez]].
    apply String.eqb_eq in Ez. now subst z.
  - rewrite in_app_iff. simpl. split; intros [H|H]; auto.
    destruct H as [<-|[]]. now right.
Qed.

Lemma setAdd_NoDup (x : string) (l : list string) :
  NoDup l -> NoDup (Indexer.setAdd x l).
Proof.
  intros H. unfold Indexer.setAdd. destruct (existsb (String.eqb x) l) eqn:E; [exact H|].
  apply NoDup_app; [exact H|repeat constructor; intros []|].
  intros y Hy [->|[]].
  assert (existsb (String.eqb y) l = true) as E'.
  { apply existsb_exists. exists y. split; [exact Hy|apply String.eqb_refl]. }
  congruence.
Qed.

Lemma setAdd_length (x : string) (l : list string) :
  List.length l <= List.length (Indexer.setAdd x l) <= S (List.length l).
Proof.
  unfold Indexer.setAdd. destruct (existsb (String.eqb x) l); [lia|].
  rewrite length_app. simpl. lia.
Qed.

Lemma addRoots_facts (rules acc : list string) :
  let roots := fold_left (fun roots r => Indexer.setAdd (Indexer.deriveRoot r) roots)
                         rules acc in
  (NoDup acc -> NoDup roots)
  /\ List.length acc <= List.length roots <= List.length acc + List.length rules
  /\ (forall root, In root roots <->
                   In root acc \/ exists r, In r rules /\ root = Indexer.deriveRoot r).
Proof.
  revert acc. induction rules as [|r rules IH]; intros acc; simpl.
  - split; [auto|]. split; [lia|]. intros root. split; [auto|].
    intros [H|[r [[] _]]]. exact H.
  - destruct (IH (Indexer.setAdd (Indexer.deriveRoot r) acc)) as [Hnd [Hlen Hin]].
    pose proof (setAdd_length (Indexer.deriveRoot r) acc) as Hl.
    split; [intros H; apply Hnd; now apply setAdd_NoDup|]. split; [lia|].
    intros root. rewrite Hin, setAdd_In. split.
    + intros [[H| ->]|[r' [Hr' ->]]]; eauto.
    + intros [H|[r' [[<-|Hr'] ->]]]; eauto.
Qed.

(** X1 ([deriveRoots]): With no include rule deriveRoots returns the
    single root C:/. Otherwise it returns a non-empty list without
    repeats that is no longer than the rule list, and every root is a
    rule's prefix (backslashes written as slashes, cut before the first
    star), without trailing slashes and closed by exactly one slash. *)
Theorem deriveRoots_wellformed (rules : list string) :
  Indexer.deriveRoots [] = ["C:/"]
  /\ Indexer.deriveRoots rules <> []
  /\ NoDup (Indexer.deriveRoots rules)
  /\ List.length (Indexer.deriveRoots rules) <= Nat.max 1 (List.length rules)
  /\ (forall root, In root (Indexer.deriveRoots rules) -> rules <> [] ->
        exists r stem,
          In r rules
          /\ root = (stem ++ "/")%string
          /\ JS.endsWithChar stem "/" = false
          /\ JS.containsChar "*" root = false
          /\ JS.containsChar "\" root = false
          /\ JS.startsWith (JS.replaceChar "\" "/" r) stem = true).
Proof.
  split; [reflexivity|].
  destruct rules as [|r0 rules]; [repeat split; simpl; try discriminate; try lia|].
  - repeat constructor; intros [].
  - intros root _ H. now elim H.
  - unfold Indexer.deriveRoots.
    destruct (addRoots_facts (r0 :: rules) []) as [Hnd [Hlen Hin]].
    split; [|split; [apply Hnd; constructor|split]].
    + intros E. rewrite E in Hlen.
      destruct (addRoots_facts rules (Indexer.setAdd (Indexer.deriveRoot r0) []))
        as [_ [Hl _]].
      simpl in E. rewrite E in Hl. simpl in Hl. lia.
    + simpl in *. lia.
    + intros root Hroot _. apply Hin in Hroot. destruct Hroot as [[]|[r [Hr ->]]].
      destruct (deriveRoot_shape r) as [stem [E [He [Hs [Hb Hp]]]]].
      exists r, stem. rewrite E, !containsChar_app, Hs, Hb. simpl. auto 10.
Qed.

(** ** Glob rules *)

Lemma length_toLowerCase (s : string) :
  String.length (JS.toLowerCase s) = String.length s.
Proof. induction s as [|c s IH]; simpl; [reflexivity|now rewrite IH]. Qed.

Lemma startsWith_length (s p : string) :
  JS.startsWith s p = true -> String.length p <= String.length s.
Proof.
  intros H. destruct (startsWith_inv _ _ H) as [t ->]. rewrite length_append. lia.
Qed.

Lemma replaceChar_toLowerCase (s : string) :
  JS.replaceChar "\" "/" (JS.toLowerCase s)
  = JS.toLowerCase (JS.replaceChar "\" "/" s).
Proof.
  induction s as [|c s IH]; simpl; [reflexivity|]. rewrite IH. f_equal.
  rewrite lowerChar_eqb_fixed by (simpl; auto).
  now destruct (Ascii.eqb c "\").
Qed.

Lemma containsChar_toLowerCase (s : string) :
  JS.containsChar "*" (JS.toLowerCase s) = JS.containsChar "*" s.
Proof.
  induction s as [|c s IH]; simpl; [reflexivity|].
  rewrite IH, lowerChar_eqb_fixed by (simpl; auto). reflexivity.
Qed.

Lemma endsWithChar_toLowerCase (s : string) :
  JS.endsWithChar (JS.toLowerCase s) "/" = JS.endsWithChar s "/".
Proof.
  induction s as [|c s IH]; [reflexivity|].
  simpl. destruct s as [|d s]; simpl in *.
  - apply lowerChar_eqb_fixed. simpl. auto.
  - exact IH.
Qed.

Lemma includes_star (s : string) :
  JS.includes s "**" = true -> JS.containsChar "*" s = true.
Proof.
  intros H. destruct (includes_inv _ _ H) as [a [b ->]].
  rewrite containsChar_app. simpl. apply orb_true_r.
Qed.

Lemma removeChar_none (c : ascii) (s : string) :
  JS.containsChar c s = false -> JS.removeChar c s = s.
Proof.
  induction s as [|a s IH]; simpl; [reflexivity|]. intros H.
  apply orb_false_iff in H. destruct H as [Ha Hs]. now rewrite Ha, IH.
Qed.

Lemma split_none (cur s : string) :
  JS.containsChar "*" s = false ->
  Indexer.splitDoubleStarSlash cur s = [(cur ++ s)%string].
Proof.
  revert cur. induction s as [|c s IH]; intros cur H.
  - simpl. now rewrite append_nil_r.
  - simpl in H. apply orb_false_iff in H. destruct H as [Hc Hs].
    assert (Indexer.splitDoubleStarSlash cur (String c s)
            = Indexer.splitDoubleStarSlash (cur ++ String c "") s) as E.
    { simpl. destruct s as [|d [|e s3]]; try reflexivity. now rewrite Hc. }
    rewrite E, IH by exact Hs. now rewrite append_assoc.
Qed.

(** A path that matches the parts of a [**] pattern still matches with
    anything before and after it. *)
Lemma matchParts_floats (parts : list string) :
  forall a s b,
    Indexer.matchParts parts s = true ->
    Indexer.matchParts parts (a ++ s ++ b) = true.
Proof.
  induction parts as [|part parts IH]; intros a s b H; [reflexivity|].
  simpl in *. destruct (JS.isEmpty part); [now apply IH|].
  set (q := JS.removeChar "*" part) in *.
  destruct (JS.indexOf s q) as [i|] eqn:E; [|discriminate].
  destruct (indexOf_Some _ _ _ E) as [s2 [Hd Hi]].
  assert (s = (JS.take i s ++ q ++ s2)%string) as Hs
      by (now rewrite <- Hd, take_drop).
  assert ((a ++ s ++ b)%string
          = ((a ++ JS.take i s) ++ q ++ (s2 ++ b))%string) as Hall.
  { rewrite Hs at 1. now rewrite !append_assoc. }
  destruct (indexOf_app_le (a ++ JS.take i s) q (s2 ++ b)) as [j [Ej Hj]].
  rewrite Hall, Ej, drop_app by exact Hj.
  replace (q ++ s2 ++ b)%string with (JS.drop i s ++ b)%string
    by (now rewrite Hd, append_assoc).
  now apply IH.
Qed.

Section Globs.
Variable regexpTest : string -> string -> bool.

(** X2 ([matchesGlob]): matchesGlob does not tell a backslash from a
    slash: writing the path or the pattern with slashes in place of
    backslashes never changes its result. *)
Theorem matchesGlob_separators (filePath pattern : string) :
  Indexer.matchesGlob regexpTest (JS.replaceChar "\" "/" filePath) pattern = Indexer.matchesGlob regexpTest filePath pattern
  /\ Indexer.matchesGlob regexpTest filePath (JS.replaceChar "\" "/" pattern) = Indexer.matchesGlob regexpTest filePath pattern.
Proof.
  unfold Indexer.matchesGlob. now rewrite !replaceChar_idem.
Qed.

Lemma matchesGlob_below (pattern rest : string) :
  JS.containsChar "*" pattern = false ->
  Indexer.matchesGlob regexpTest (pattern ++ "/" ++ rest) pattern = true.
Proof.
  intros Hstar.
  assert (JS.containsChar "*" (JS.replaceChar "\" "/" pattern) = false) as Hn
      by (now rewrite replaceChar_keeps).
  unfold Indexer.matchesGlob. rewrite Hn. cbn [negb].
  rewrite !replaceChar_app. cbn [JS.replaceChar Ascii.eqb Bool.eqb].
  destruct (JS.endsWithChar (JS.replaceChar "\" "/" pattern) "/").
  - rewrite toLowerCase_app. apply startsWith_app.
  - change (JS.replaceChar "\" "/" pattern ++ String "/" (JS.replaceChar "\" "/" rest))%string
      with (JS.replaceChar "\" "/" pattern ++ "/" ++ JS.replaceChar "\" "/" rest)%string.
    rewrite <- append_assoc, toLowerCase_app. apply startsWith_app.
Qed.

(** X3 ([matchesGlob]): A pattern without a star matches every path made
    of the pattern, a slash and anything; it does not match its own path
    unless that ends in a slash; and it is compared without regard to
    letter case in the path and in the pattern. *)
Theorem matchesGlob_plain_directory (pattern : string) :
  JS.containsChar "*" pattern = false ->
  (forall rest, Indexer.matchesGlob regexpTest (pattern ++ "/" ++ rest) pattern = true)
  /\ (JS.endsWithChar (JS.replaceChar "\" "/" pattern) "/" = false ->
      Indexer.matchesGlob regexpTest pattern pattern = false)
  /\ (forall p, Indexer.matchesGlob regexpTest (JS.toLowerCase p) pattern = Indexer.matchesGlob regexpTest p pattern
                /\ Indexer.matchesGlob regexpTest p (JS.toLowerCase pattern) = Indexer.matchesGlob regexpTest p pattern).
Proof.
  intros Hstar.
  assert (JS.containsChar "*" (JS.replaceChar "\" "/" pattern) = false) as Hn
      by (now rewrite replaceChar_keeps).
  split; [|split].
  - intros rest. now apply matchesGlob_below.
  - intros Hend. unfold Indexer.matchesGlob. rewrite Hn, Hend. cbn [negb].
    destruct (JS.startsWith _ _) eqn:E; [|reflexivity].
    apply startsWith_length in E.
    rewrite !length_toLowerCase, length_append in E. simpl in E. lia.
  - intros p. unfold Indexer.matchesGlob.
    rewrite !replaceChar_toLowerCase, containsChar_toLowerCase, Hn. cbn [negb].
    rewrite endsWithChar_toLowerCase, toLowerCase_idem. split; [reflexivity|].
    destruct (JS.endsWithChar (JS.replaceChar "\" "/" pattern) "/").
    + now rewrite toLowerCase_idem.
    + change (JS.toLowerCase (JS.replaceChar "\" "/" pattern) ++ "/")%string
        with (JS.toLowerCase (JS.replaceChar "\" "/" pattern) ++ JS.toLowerCase "/")%string.
      now rewrite <- toLowerCase_app, toLowerCase_idem.
Qed.

(** X4 ([matchesGlob]): A pattern that contains ** is not anchored: when
    it matches a path it also matches that path with any text before and
    after it, and a pattern **/name with a star-free name matches
    exactly the paths that contain name as a substring. *)
Theorem matchesGlob_doublestar_floats (pattern : string) :
  JS.includes (JS.replaceChar "\" "/" pattern) "**" = true ->
  (forall p a b,
      Indexer.matchesGlob regexpTest p pattern = true -> Indexer.matchesGlob regexpTest (a ++ p ++ b) pattern = true)
  /\ (forall name p,
         pattern = ("**/" ++ name)%string -> JS.containsChar "*" name = false ->
         Indexer.matchesGlob regexpTest p pattern = JS.includes (JS.replaceChar "\" "/" p) (JS.replaceChar "\" "/" name)).
Proof.
  intros Hss. pose proof (includes_star _ Hss) as Hstar. split.
  - intros p a b. unfold Indexer.matchesGlob. rewrite Hstar, Hss. cbn [negb].
    rewrite !replaceChar_app. apply matchParts_floats.
  - intros name p -> Hname. unfold Indexer.matchesGlob. rewrite Hstar, Hss. cbn [negb].
    assert (JS.containsChar "*" (JS.replaceChar "\" "/" name) = false) as Hn
        by (now rewrite replaceChar_keeps).
    change (JS.replaceChar "\" "/" ("**/" ++ name)) with ("**/" ++ JS.replaceChar "\" "/" name)%string.
    assert (Indexer.splitDoubleStarSlash "" ("**/" ++ JS.replaceChar "\" "/" name)
            = ["" ; JS.replaceChar "\" "/" name]) as E.
    { change (Indexer.splitDoubleStarSlash "" ("**/" ++ JS.replaceChar "\" "/" name))
        with ("" :: Indexer.splitDoubleStarSlash "" (JS.replaceChar "\" "/" name)).
      now rewrite split_none. }
    rewrite E. cbn [Indexer.matchParts JS.isEmpty].
    rewrite removeChar_none by exact Hn. unfold JS.includes.
    destruct (JS.replaceChar "\" "/" name) as [|c nm] eqn:En.
    + cbn [JS.isEmpty]. rewrite indexOf_eq, startsWith_nil. reflexivity.
    + cbn [JS.isEmpty]. now destruct (JS.indexOf (JS.replaceChar "\" "/" p) (String c nm)).
Qed.

End Globs.

Lemma matchesGlob_plain_directory_witness :
  Indexer.matchesGlob Indexer.anchoredRegExpTest "E:\Docs/a.txt" "e:\docs" = true
  /\ Indexer.matchesGlob Indexer.anchoredRegExpTest "e:\docs" "e:\docs" = false.
Proof.
  destruct (matchesGlob_plain_directory Indexer.anchoredRegExpTest "e:\docs" eq_refl)
    as [H1 [H2 H3]].
  split.
  - rewrite <- (proj1 (H3 "E:\Docs/a.txt")). exact (H1 "a.txt").
  - exact (H2 eq_refl).
Defined.

Lemma matchesGlob_doublestar_floats_witness :
  Indexer.matchesGlob Indexer.anchoredRegExpTest
    "E:/app/node_modules/x.js" "**/node_modules" = true
  /\ Indexer.matchesGlob Indexer.anchoredRegExpTest
       "E:/my_node_modules_notes.txt" "**/node_modules" = true.
Proof.
  destruct (matchesGlob_doublestar_floats Indexer.anchoredRegExpTest
              "**/node_modules" eq_refl) as [H1 H2].
  split.
  - apply (H1 "node_modules" "E:/app/" "/x.js"). reflexivity.
  - rewrite (H2 "node_modules" _ eq_refl eq_refl). reflexivity.
Defined.

(** ** The file walk *)

Section Walk.
Variable regexpTest : string -> string -> bool.

Lemma walk_extension (fs : Indexer.FileSystem) (selection : Indexer.Selection)
      (p : string) :
  forall levels folderPath,
    In p (Indexer.walk regexpTest fs selection levels folderPath) ->
    Indexer.memberOf (JS.toLowerCase (Path.extname p)) Indexer.indexedExtensions = true.
Proof.
  induction levels as [|levels IH]; intros folderPath Hin;
    cbn [Indexer.walk] in Hin; [destruct Hin|].
  destruct (existsb _ (Indexer.exclude selection)); [destruct Hin|].
  destruct (Indexer.readdir fs folderPath) as [entries|]; [|destruct Hin].
  apply in_flat_map in Hin. destruct Hin as [entry [_ Hin]].
  destruct (Indexer.isSelected regexpTest selection
              (Path.join folderPath (Indexer.name entry))); [|destruct Hin].
  destruct (Indexer.kind entry).
  - destruct (Indexer.memberOf
                (JS.toLowerCase
                   (Path.extname (Path.join folderPath (Indexer.name entry)))) _)
      eqn:E; [|destruct Hin].
    destruct Hin as [<-|[]]. exact E.
  - exact (IH _ Hin).
  - destruct Hin.
Qed.

(** X5 ([collectFiles]): Every path collectFiles yields has one of the
    indexed extensions (compared in lower case). It yields nothing when
    depth exceeds maxDepth, when the folder matches an exclude rule, or
    when the folder cannot be read. *)
Theorem collectFiles_yields (fs : Indexer.FileSystem) (selection : Indexer.Selection)
        (folderPath : string) (maxDepth depth : nat) :
  let files := Indexer.collectFiles regexpTest fs folderPath maxDepth depth selection in
  (forall p, In p files ->
             Indexer.memberOf (JS.toLowerCase (Path.extname p))
                              Indexer.indexedExtensions = true)
  /\ (maxDepth < depth -> files = [])
  /\ ((exists rule, In rule (Indexer.exclude selection)
                    /\ Indexer.matchesGlob regexpTest folderPath rule = true) ->
      files = [])
  /\ (Indexer.readdir fs folderPath = None -> files = []).
Proof.
  unfold Indexer.collectFiles. split; [|split; [|split]].
  - intros p. apply walk_extension.
  - intros H. now replace (S maxDepth - depth) with 0 by lia.
  - intros [rule [Hin Hm]].
    destruct (S maxDepth - depth); [reflexivity|]. cbn [Indexer.walk].
    assert (existsb (fun rule => Indexer.matchesGlob regexpTest folderPath rule)
                    (Indexer.exclude selection) = true) as ->
        by (apply existsb_exists; eauto).
    reflexivity.
  - intros H. destruct (S maxDepth - depth); [reflexivity|]. cbn [Indexer.walk].
    rewrite H. now destruct (existsb _ _).
Qed.

End Walk.

(** ** Chunks *)

Lemma trimStart_suffix (s : string) : exists a, s = (a ++ JS.trimStart s)%string.
Proof.
  induction s as [|c s [a IH]]; [now exists ""|].
  simpl. destruct (JS.isSpace c).
  - exists (String c a). simpl. now rewrite <- IH.
  - now exists "".
Qed.

Lemma trimEnd_prefix (s : string) : exists b, s = (JS.trimEnd s ++ b)%string.
Proof.
  induction s as [|c s [b IH]]; [now exists ""|].
  simpl. destruct (JS.trimEnd s) as [|d u] eqn:E.
  - destruct (JS.isSpace c).
    + now exists (String c s).
    + exists b. simpl in *. now rewrite <- IH.
  - exists b. simpl in *. now rewrite <- IH.
Qed.

Lemma trim_inside (s : string) : exists a b, s = (a ++ JS.trim s ++ b)%string.
Proof.
  destruct (trimStart_suffix s) as [a Ha].
  destruct (trimEnd_prefix (JS.trimStart s)) as [b Hb].
  exists a, b. unfold JS.trim. now rewrite <- Hb.
Qed.

Lemma substring_inside (i j : nat) (s : string) :
  exists a b, s = (a ++ JS.substring i j s ++ b)%string.
Proof.
  exists (JS.take i s), (JS.drop (j - i) (JS.drop i s)).
  unfold JS.substring. now rewrite !take_drop.
Qed.

Lemma windowAt_facts (text : string) (k : nat) :
  String.length (windowAt text k) <= 500
  /\ JS.includes text (windowAt text k) = true
  /\ JS.trim (windowAt text k) = windowAt text k.
Proof.
  unfold windowAt.
  remember (JS.substring (400 * k) (Nat.min (400 * k + 500) (String.length text)) text)
    as piece eqn:Ep.
  destruct (trim_inside piece) as [a [b Hp]].
  split; [|split; [|apply trim_idem]].
  - assert (String.length (JS.trim piece) <= String.length piece) as Hle.
    { rewrite Hp at 2. rewrite !length_append. lia. }
    assert (String.length piece <= 500); [|lia].
    rewrite Ep. unfold JS.substring. rewrite length_take. lia.
  - destruct (substring_inside (400 * k)
                (Nat.min (400 * k + 500) (String.length text)) text) as [a' [b' Ht]].
    rewrite <- Ep in Ht. clear Ep.
    assert (text = ((a' ++ a) ++ JS.trim piece ++ (b ++ b'))%string) as ->.
    { rewrite Ht at 1. rewrite Hp at 1. now rewrite !append_assoc. }
    apply includes_app.
Qed.

Lemma chunkText_windows (text : string) :
  Indexer.chunkText text
  = filter (fun c => 50 <? String.length c)
           (map (windowAt text) (seq 0 (windowCount (String.length text)))).
Proof.
  unfold Indexer.chunkText.
  destruct (windowCount (String.length text)) as [|n] eqn:E.
  - unfold windowCount in E. destruct (String.length text); [reflexivity|discriminate].
  - pose proof (windowCount_le (String.length text)) as Hle.
    rewrite <- E.
    exact (chunkLoop_windows text (windowCount (String.length text))
             (String.length text) 0 ltac:(lia) Hle eq_refl).
Qed.

Lemma filter_length_le {A : Type} (f : A -> bool) (l : list A) :
  List.length (filter f l) <= List.length l.
Proof. induction l as [|x l IH]; simpl; [lia|]. destruct (f x); simpl; lia. Qed.

(** X6 ([processFile]): Every chunk processFile cuts is trimmed, occurs
    in the text, and is longer than 50 and at most 500 characters; there
    are at most as many chunks as windows of the loop, and a text of at
    most 50 characters gives none. *)
Theorem chunkText_bounds (text : string) :
  Forall (fun c => 50 < String.length c <= 500
                   /\ JS.includes text c = true
                   /\ JS.trim c = c)
         (Indexer.chunkText text)
  /\ List.length (Indexer.chunkText text) <= windowCount (String.length text)
  /\ (String.length text <= 50 -> Indexer.chunkText text = []).
Proof.
  rewrite chunkText_windows. split; [|split].
  - apply Forall_forall. intros c Hc.
    apply filter_In in Hc. destruct Hc as [Hc Hlen].
    apply in_map_iff in Hc. destruct Hc as [k [<- _]].
    apply Nat.ltb_lt in Hlen.
    destruct (windowAt_facts text k) as [H1 [H2 H3]]. auto.
  - etransitivity; [apply filter_length_le|].
    now rewrite length_map, length_seq.
  - intros Hshort.
    apply filter_none. intros c Hc.
    apply in_map_iff in Hc. destruct Hc as [k [<- _]].
    apply Nat.ltb_ge.
    destruct (trim_inside (JS.substring (400 * k)
                (Nat.min (400 * k + 500) (String.length text)) text)) as [a [b Hp]].
    assert (String.length (windowAt text k)
            <= String.length (JS.substring (400 * k)
                 (Nat.min (400 * k + 500) (String.length text)) text)) as Hle.
    { unfold windowAt. rewrite Hp at 2. rewrite !length_append. lia. }
    unfold JS.substring in Hle. rewrite length_take, length_drop in Hle. lia.
Qed.

Lemma chunkText_bounds_witness :
  Indexer.chunkText (repeatChar " " 30 ++ "short") = [].
Proof.
  apply (proj2 (proj2 (chunkText_bounds (repeatChar " " 30 ++ "short")))).
  vm_compute. lia.
Defined.

(** ** The worker *)

Ltac break_worker w :=
  let st := fresh "st" in
  destruct w as [st ? ? ? ? ? ?]; destruct st.

Ltac fields :=
  cbn [STATE embeddingsStore embeddingService embeddingEnabled embeddingBuffer
       outbox disk running paused filesQueued filesProcessed filesFailed
       bytesProcessed chunksGenerated chunksEmbedded embeddingsPending indexConfig
       embeddings count setState send sendUpdate negb fst snd] in *.

Lemma pairRecords_fromBatch (batch : list BufferedChunk) :
  forall embs,
    List.length (pairRecords batch embs) <= List.length batch
    /\ Forall (fromBatch batch) (pairRecords batch embs).
Proof.
  induction batch as [|c batch IH]; intros embs; [split; [simpl; lia|constructor]|].
  destruct embs as [|[e|] embs]; cbn [pairRecords].
  - split; [simpl; lia|constructor].
  - destruct (IH embs) as [Hl Hf]. split; [simpl; lia|]. constructor.
    + exists c. cbn. repeat split; auto. discriminate.
    + eapply Forall_impl; [|exact Hf]. intros r [c' [Hin H]].
      exists c'. split; [now right|exact H].
  - destruct (IH embs) as [Hl Hf]. split; [simpl; lia|].
    eapply Forall_impl; [|exact Hf]. intros r [c' [Hin H]].
    exists c'. split; [now right|exact H].
Qed.

(** What one call stores comes from the batch it took. *)
Lemma processPending_stores (world : World) (w : Worker) :
  exists news,
    embeddingsStore (processPendingEmbeddings world w) = embeddingsStore w ++ news
    /\ List.length news <= List.length (firstn BATCH_SIZE (embeddingBuffer w))
    /\ Forall (fromBatch (firstn BATCH_SIZE (embeddingBuffer w))) news.
Proof.
  break_worker w. unfold processPendingEmbeddings, embedChunks. fields.
  destruct embeddingBuffer0 as [|b bs];
    [exists []; rewrite app_nil_r; repeat split; auto|].
  destruct embeddingEnabled0; fields;
    [|exists []; rewrite app_nil_r; repeat split; auto; simpl; lia].
  set (batch := firstn BATCH_SIZE (b :: bs)).
  destruct (match embeddingService0 with
            | Some true => embedBatch world (map b_text batch)
            | _ => BatchRejected
            end) as [result|]; fields.
  - destruct (embeddings result) as [embs|].
    + destruct (pairRecords_fromBatch batch embs) as [Hl Hf]. eauto.
    + exists []. rewrite app_nil_r. repeat split; auto. simpl. lia.
  - exists []. rewrite app_nil_r. repeat split; auto. simpl. lia.
Qed.

(** X7 ([processPendingEmbeddings]): One call of
    processPendingEmbeddings appends to the store at most one record per
    chunk of the batch it took, each carrying the path, index and text
    of a chunk of that batch and an embedding. With embeddings enabled
    the batch leaves the buffer even when the embedding call fails, in
    which case store, counters and messages are unchanged; with
    embeddings disabled the whole buffer is dropped, nothing is stored
    or sent, and embeddingsPending becomes 0. *)
Theorem processPending_accounts (world : World) (w : Worker) :
  let w' := processPendingEmbeddings world w in
  let batch := firstn BATCH_SIZE (embeddingBuffer w) in
  (exists news,
      embeddingsStore w' = embeddingsStore w ++ news
      /\ List.length news <= List.length batch
      /\ Forall (fromBatch batch) news)
  /\ embeddingBuffer w'
     = (if embeddingEnabled w then skipn BATCH_SIZE (embeddingBuffer w) else [])
  /\ (embeddingEnabled w = true -> embedChunks world w batch = BatchRejected ->
      embeddingsStore w' = embeddingsStore w /\ STATE w' = STATE w
      /\ outbox w' = outbox w)
  /\ (embeddingEnabled w = false -> embeddingBuffer w <> [] ->
      embeddingsStore w' = embeddingsStore w /\ outbox w' = outbox w
      /\ embeddingsPending (STATE w') = 0).
Proof.
  cbv zeta. split; [apply processPending_stores|].
  break_worker w. unfold processPendingEmbeddings, embedChunks. fields.
  destruct embeddingBuffer0 as [|b bs].
  { split; [now destruct embeddingEnabled0|]. split; [auto|]. intros _ H. now elim H. }
  destruct embeddingEnabled0; fields; [|repeat split; auto; discriminate].
  set (batch := firstn BATCH_SIZE (b :: bs)).
  destruct (match embeddingService0 with
            | Some true => embedBatch world (map b_text batch)
            | _ => BatchRejected
            end) as [result|]; fields.
  - split; [reflexivity|]. split; discriminate.
  - repeat split; auto. discriminate.
Qed.

(** *** Control messages *)

Lemma handleControl_beyond (c : Control) (w : Worker) :
  beyondControl (handleControl c w) = beyondControl w
  /\ List.length (outbox (handleControl c w)) = S (List.length (outbox w))
  /\ paused (STATE (handleControl c w)) = pausedAfter c
  /\ (c <> CmdStop -> running (STATE (handleControl c w)) = running (STATE w)).
Proof.
  break_worker w.
  destruct c; cbn; rewrite length_app; cbn; repeat split; auto; try lia; congruence.
Qed.

Lemma deliver_snoc (cs : list Control) (c : Control) (w : Worker) :
  deliver (cs ++ [c]) w = handleControl c (deliver cs w).
Proof. unfold deliver. now rewrite fold_left_app. Qed.

Lemma deliver_beyond (cs : list Control) :
  forall w,
    beyondControl (deliver cs w) = beyondControl w
    /\ List.length (outbox (deliver cs w)) = List.length (outbox w) + List.length cs
    /\ (~ In CmdStop cs -> running (STATE (deliver cs w)) = running (STATE w)).
Proof.
  induction cs as [|c cs IH]; intros w; [cbn; repeat split; auto|].
  change (deliver (c :: cs) w) with (deliver cs (handleControl c w)).
  destruct (IH (handleControl c w)) as [H1 [H2 H3]].
  destruct (handleControl_beyond c w) as [K1 [K2 [_ K4]]].
  split; [congruence|]. split; [rewrite H2, K2; simpl; lia|].
  intros Hno. rewrite H3, K4; auto.
  - intros ->. apply Hno. now left.
  - intros Hin. apply Hno. now right.
Qed.

(** X8 ([process.on('message')]): Pause, resume and stop messages change
    only the running and paused flags and send one reply each: counters,
    store, buffer and snapshots stay as they were. Once stopped, or
    never started, the worker is not running afterwards, without a stop
    message the running flag is unchanged, and paused is set exactly
    when the last message is a pause. *)
Theorem control_messages_flip_flags (cs : list Control) (w : Worker) :
  beyondControl (deliver cs w) = beyondControl w
  /\ List.length (outbox (deliver cs w)) = List.length (outbox w) + List.length cs
  /\ (running (STATE w) = false \/ In CmdStop cs ->
      running (STATE (deliver cs w)) = false)
  /\ (~ In CmdStop cs -> running (STATE (deliver cs w)) = running (STATE w))
  /\ (forall cs' c, cs = cs' ++ [c] ->
                    paused (STATE (deliver cs w)) = pausedAfter c).
Proof.
  destruct (deliver_beyond cs w) as [H1 [H2 H3]].
  split; [exact H1|]. split; [exact H2|]. split; [|split; [exact H3|]].
  - intros [H|H]; [now apply deliver_stop_stays|now apply deliver_stop].
  - intros cs' c ->. rewrite deliver_snoc. apply handleControl_beyond.
Qed.

Lemma control_messages_flip_flags_witness :
  running (STATE (deliver [CmdPause; CmdStop; CmdResume] initialWorker)) = false
  /\ paused (STATE (deliver [CmdStop; CmdPause] initialWorker)) = true.
Proof.
  split.
  - apply (proj1 (proj2 (proj2 (control_messages_flip_flags
                                  [CmdPause; CmdStop; CmdResume] initialWorker)))).
    right. simpl. auto.
  - exact (proj2 (proj2 (proj2 (proj2 (control_messages_flip_flags
                                         [CmdStop; CmdPause] initialWorker))))
             [CmdStop] CmdPause eq_refl).
Defined.

(** *** Runs *)








Section Runs.
Variable regexpTest : string -> string -> bool.





End Runs.



(** X11 ([collectFiles] and [processFile]): The extensions .pdf, .docx,
    .xlsx and .pptx are the ones the walk yields and processFile does
    not read: such a file that can be stat-ed is counted as processed
    with its size in bytes, yields no chunk, and changes nothing else. *)
Theorem unread_documents (world : World) (filePath : string) (w : Worker) (size : nat) :
  In (JS.toLowerCase (Path.extname filePath)) unreadExtensions ->
  stat (fs world) filePath = Some size ->
  filter (fun e => negb (memberOf e textExtensions)) indexedExtensions = unreadExtensions
  /\ memberOf (JS.toLowerCase (Path.extname filePath)) indexedExtensions = true
  /\ processFile world filePath w
     = (setState w
          (mkState (running (STATE w)) (paused (STATE w)) (filesQueued (STATE w))
                   (S (filesProcessed (STATE w))) (filesFailed (STATE w))
                   (bytesProcessed (STATE w) + size) (chunksGenerated (STATE w))
                   (chunksEmbedded (STATE w)) (embeddingsPending (STATE w))
                   (indexConfig (STATE w))),
        true).
Proof.
  intros Hext Hstat. split; [reflexivity|].
  unfold processFile, extractText. rewrite Hstat.
  simpl in Hext.
  destruct Hext as [<-|[<-|[<-|[<-|[]]]]]; (split; [reflexivity|]); reflexivity.
Qed.

Lemma unread_documents_witness :
  fileCounts (fst (processFile officeWorld "/data/Report.PDF" initialWorker)) = (1, 0, 0).
Proof.
  rewrite (proj2 (proj2 (unread_documents officeWorld "/data/Report.PDF" initialWorker
                           1000 (or_introl eq_refl) eq_refl))).
  reflexivity.
Defined.

(** ** Retrieval *)

Lemma SFmul_comm (x y : spec_float) : SFmul prec emax x y = SFmul prec emax y x.
Proof.
  destruct x as [sx|sx| |sx mx ex], y as [sy|sy| |sy my ey]; cbn;
    rewrite ?(xorb_comm sx sy); try reflexivity.
  now rewrite (Pos.mul_comm mx my), (Z.add_comm ex ey).
Qed.

Lemma mul_comm (x y : float) : (x * y = y * x)%float.
Proof.
  apply Prim2SF_inj. rewrite !mul_spec. apply SFmul_comm.
Qed.

Lemma dotProduct_from (a b : Retrieval.Vector) :
  forall acc,
    fold_left (fun acc '(x, y) => (acc + x * y)%float) (combine a b) acc
    = fold_left (fun acc '(x, y) => (acc + x * y)%float) (combine b a) acc.
Proof.
  revert b. induction a as [|x a IH]; intros [|y b] acc; try reflexivity.
  cbn [combine fold_left]. rewrite (mul_comm x y). apply IH.
Qed.

(** X12 ([cosineSimilarity]): cosineSimilarity gives the same number,
    bit for bit, when its two vectors are exchanged, also when one is
    missing or the lengths differ. *)
Theorem cosineSimilarity_symmetric (a b : option Retrieval.Vector) :
  Retrieval.cosineSimilarity a b = Retrieval.cosineSimilarity b a.
Proof.
  destruct a as [a|], b as [b|]; try reflexivity.
  unfold Retrieval.cosineSimilarity.
  rewrite (Nat.eqb_sym (List.length b) (List.length a)).
  destruct (List.length a =? List.length b) eqn:E; [|reflexivity].
  apply Nat.eqb_eq in E. cbn [negb].
  rewrite (cosineLoop_sums a b E), (cosineLoop_sums b a (eq_sym E)).
  unfold dotProduct. rewrite (dotProduct_from a b).
  now rewrite (mul_comm (sqrt (sumSquares a)) (sqrt (sumSquares b))).
Qed.

(** *** Chunk identifiers *)

Lemma string_of_uint_digits (d : Decimal.uint) :
  JS.containsChar "_" (NilEmpty.string_of_uint d) = false.
Proof. induction d; simpl; auto. Qed.

Lemma showNat_inj (n m : nat) : JS.showNat n = JS.showNat m -> n = m.
Proof.
  unfold JS.showNat. intros H. apply Unsigned.to_uint_inj.
  pose proof (NilEmpty.usu (Nat.to_uint n)) as Hn.
  pose proof (NilEmpty.usu (Nat.to_uint m)) as Hm.
  rewrite H in Hn. congruence.
Qed.

(** A string is cut at its last underscore in one way only. *)
Lemma last_underscore (a b x y : string) :
  JS.containsChar "_" x = false -> JS.containsChar "_" y = false ->
  (a ++ "_" ++ x = b ++ "_" ++ y)%string -> a = b /\ x = y.
Proof.
  intros Hx Hy. revert b. induction a as [|c a IH]; intros [|d b] H; simpl in H.
  - injection H as ->. auto.
  - injection H as <- ->. rewrite containsChar_app in Hx. simpl in Hx.
    now rewrite orb_true_r in Hx.
  - injection H as -> <-. rewrite containsChar_app in Hy. simpl in Hy.
    now rewrite orb_true_r in Hy.
  - injection H as -> H. destruct (IH b H) as [-> ->]. auto.
Qed.

(** X13 ([semanticSearch] and [keywordSearch]): Two index records get
    the same chunk identifier exactly when they have the same file path
    and the same chunk index, even when paths contain underscores or
    digits. *)
Theorem chunkId_unambiguous (r1 r2 : Retrieval.ChunkRecord) :
  Retrieval.chunkIdOf r1 = Retrieval.chunkIdOf r2
  <-> Retrieval.filePath r1 = Retrieval.filePath r2
      /\ Retrieval.chunkIndex r1 = Retrieval.chunkIndex r2.
Proof.
  unfold Retrieval.chunkIdOf. split.
  - intros H. simpl in H. injection H as H.
    apply last_underscore in H; try apply string_of_uint_digits.
    destruct H as [H1 H2]. split; [exact H1|now apply showNat_inj].
  - intros [-> ->]. reflexivity.
Qed.

(** *** Keyword scores *)

Lemma isEmpty_toLowerCase (s : string) : JS.isEmpty (JS.toLowerCase s) = JS.isEmpty s.
Proof. now destruct s. Qed.

(** X14 ([keywordScore]): keywordScore does not depend on letter case:
    lower-casing the text or the query gives the same score. *)
Theorem keywordScore_ignores_case (splitTerms : string -> list string)
        (text query : string) :
  Retrieval.keywordScore splitTerms (JS.toLowerCase text) query
  = Retrieval.keywordScore splitTerms text query
  /\ Retrieval.keywordScore splitTerms text (JS.toLowerCase query)
     = Retrieval.keywordScore splitTerms text query.
Proof.
  unfold Retrieval.keywordScore.
  now rewrite !isEmpty_toLowerCase, !toLowerCase_idem.
Qed.

Lemma lowerChar_space (c : ascii) : JS.isSpace (JS.lowerChar c) = JS.isSpace c.
Proof. destruct c as [[] [] [] [] [] [] [] []]; reflexivity. Qed.

Lemma splitSpaces_blank (s : string) :
  forall inSep,
    (forall c, JS.containsChar c s = true -> JS.isSpace c = true) ->
    Forall (fun t => t = "") (JS.splitSpacesFrom "" inSep s).
Proof.
  induction s as [|c s IH]; intros inSep H; simpl.
  - repeat constructor.
  - assert (JS.isSpace c = true) as ->
        by (apply H; simpl; now rewrite Ascii.eqb_refl).
    assert (forall c0, JS.containsChar c0 s = true -> JS.isSpace c0 = true) as H'.
    { intros c0 Hc0. apply H. simpl. rewrite Hc0. apply orb_true_r. }
    destruct inSep; [now apply IH|]. constructor; [reflexivity|now apply IH].
Qed.

Lemma containsChar_toLowerCase_inv (c : ascii) (s : string) :
  JS.containsChar c (JS.toLowerCase s) = true ->
  exists d, JS.containsChar d s = true /\ c = JS.lowerChar d.
Proof.
  induction s as [|a s IH]; simpl; [discriminate|].
  intros H. apply orb_true_iff in H. destruct H as [H|H].
  - apply Ascii.eqb_eq in H. exists a. rewrite Ascii.eqb_refl. auto.
  - destruct (IH H) as [d [Hd ->]]. exists d. rewrite Hd, orb_true_r. auto.
Qed.

(** X15 ([keywordScore] and [keywordSearch]): In the RAG backend a query
    made of white space only (or empty) scores 0 against every text, so
    keywordSearch returns no result unless the minimum score is 0 or
    less. *)
Theorem blank_query_scores_nothing (text query : string) :
  (forall c, JS.containsChar c query = true -> JS.isSpace c = true) ->
  Retrieval.RagBackend.keywordScore text query = 0%float
  /\ forall embeddings topK minScore,
      (minScore <=? 0)%float = false ->
      Retrieval.RagBackend.keywordSearch embeddings query topK minScore = [].
Proof.
  intros Hblank.
  assert (forall t, Retrieval.RagBackend.keywordScore t query = 0%float) as Hz.
  { intros t. unfold Retrieval.RagBackend.keywordScore, Retrieval.keywordScore.
    destruct (JS.isEmpty t || JS.isEmpty query); [reflexivity|].
    assert (filter (fun t0 => 0 <? String.length t0)
                   (JS.splitSpaces (JS.toLowerCase query)) = []) as ->; [|reflexivity].
    apply filter_none. intros x Hx.
    assert (Forall (fun t0 => t0 = "") (JS.splitSpaces (JS.toLowerCase query))) as Hf.
    { apply splitSpaces_blank. intros c Hc.
      destruct (containsChar_toLowerCase_inv _ _ Hc) as [d [Hd ->]].
      rewrite lowerChar_space. now apply Hblank. }
    rewrite Forall_forall in Hf. now rewrite (Hf x Hx). }
  split; [apply Hz|].
  intros embeddings topK minScore Hmin.
  unfold Retrieval.RagBackend.keywordSearch, Retrieval.keywordSearch.
  apply rank_none. intros x Hx. apply in_map_iff in Hx. destruct Hx as [it [<- _]].
  cbn [Retrieval.score].
  change (Retrieval.keywordScore JS.splitSpaces (Retrieval.textOf it) query)
    with (Retrieval.RagBackend.keywordScore (Retrieval.textOf it) query).
  now rewrite Hz.
Qed.

Lemma blank_query_scores_nothing_witness :
  Retrieval.RagBackend.keywordSearch [sampleA; sampleB] "  " 20 0.3%float = [].
Proof.
  assert (forall c, JS.containsChar c "  " = true -> JS.isSpace c = true) as Hblank.
  { intros c H. cbn [JS.containsChar] in H.
    destruct (Ascii.eqb " " c) eqn:E; [|discriminate].
    apply Ascii.eqb_eq in E. now subst c. }
  apply (proj2 (blank_query_scores_nothing "" "  " Hblank)). reflexivity.
Defined.

(** *** The hybrid merge *)

Lemma mapGet_set (k k' : string) (v : Retrieval.Scored) (m : Retrieval.MergeMap) :
  Retrieval.mapGet k' (Retrieval.mapSet k v m)
  = if String.eqb k' k then Some v else Retrieval.mapGet k' m.
Proof.
  induction m as [|[k0 v0] m IH]; simpl.
  - reflexivity.
  - destruct (String.eqb k k0) eqn:E; simpl.
    + apply String.eqb_eq in E. subst k0. now destruct (String.eqb k' k).
    + destruct (String.eqb k' k0) eqn:E'; [|exact IH].
      apply String.eqb_eq in E'. subst k0.
      now rewrite String.eqb_sym, E.
Qed.

Lemma mapSet_keys (k : string) (v : Retrieval.Scored) (m : Retrieval.MergeMap) :
  map fst (Retrieval.mapSet k v m)
  = match Retrieval.mapGet k m with
    | Some _ => map fst m
    | None => map fst m ++ [k]
    end.
Proof.
  induction m as [|[k0 v0] m IH]; simpl; [reflexivity|].
  destruct (String.eqb k k0) eqn:E; simpl.
  - apply String.eqb_eq in E. now subst k0.
  - rewrite IH. now destruct (Retrieval.mapGet k m).
Qed.

Lemma lookupResult_none (k : string) (rs : list Retrieval.Scored) :
  ~ In k (map Retrieval.chunkId rs) -> lookupResult k rs = None.
Proof.
  induction rs as [|r rs IH]; simpl; [reflexivity|]. intros H.
  destruct (String.eqb (Retrieval.chunkId r) k) eqn:E.
  - apply String.eqb_eq in E. tauto.
  - apply IH. tauto.
Qed.

Lemma mapGet_keys (k : string) (m : Retrieval.MergeMap) :
  Retrieval.mapGet k m = None <-> ~ In k (map fst m).
Proof.
  induction m as [|[k0 v0] m IH]; simpl; [tauto|].
  destruct (String.eqb k k0) eqn:E.
  - apply String.eqb_eq in E. subst. split; [discriminate|tauto].
  - apply String.eqb_neq in E. rewrite IH. split; [intros H [H'|H']; congruence|tauto].
Qed.

(** The first loop of the merge: the keyword results, by identifier. *)
Lemma merge_keys (ks : list Retrieval.Scored) :
  NoDup (map Retrieval.chunkId ks) ->
  forall m k,
    Retrieval.mapGet k (fold_left (fun m r => Retrieval.mapSet (Retrieval.chunkId r) r m) ks m)
    = match lookupResult k ks with
      | Some a => Some a
      | None => Retrieval.mapGet k m
      end.
Proof.
  induction ks as [|r ks IH]; intros Hnd m k; [reflexivity|].
  simpl in Hnd. apply NoDup_cons_iff in Hnd. destruct Hnd as [Hr Hnd].
  cbn [fold_left]. rewrite IH by exact Hnd. unfold lookupResult. cbn [find].
  fold (lookupResult k ks). rewrite mapGet_set, (String.eqb_sym (Retrieval.chunkId r) k).
  destruct (String.eqb k (Retrieval.chunkId r)) eqn:E; [|reflexivity].
  apply String.eqb_eq in E. subst k. now rewrite lookupResult_none.
Qed.

(** The second loop: the semantic results, averaged with what is there. *)
Lemma merge_sems (ss : list Retrieval.Scored) :
  NoDup (map Retrieval.chunkId ss) ->
  forall m k,
    Retrieval.mapGet k
      (fold_left
         (fun m r =>
            match Retrieval.mapGet (Retrieval.chunkId r) m with
            | Some existing =>
                Retrieval.mapSet (Retrieval.chunkId r)
                  (Retrieval.mkScored (Retrieval.item r) (Retrieval.chunkId r)
                     ((Retrieval.score existing + Retrieval.score r) / 2)%float) m
            | None => Retrieval.mapSet (Retrieval.chunkId r) r m
            end) ss m)
    = match lookupResult k ss with
      | Some b => mergedEntry (Retrieval.mapGet k m) (Some b)
      | None => Retrieval.mapGet k m
      end.
Proof.
  induction ss as [|r ss IH]; intros Hnd m k; [reflexivity|].
  simpl in Hnd. apply NoDup_cons_iff in Hnd. destruct Hnd as [Hr Hnd].
  cbn [fold_left]. rewrite IH by exact Hnd. unfold lookupResult. cbn [find].
  fold (lookupResult k ss). rewrite (String.eqb_sym (Retrieval.chunkId r) k).
  destruct (String.eqb k (Retrieval.chunkId r)) eqn:E.
  - apply String.eqb_eq in E. subst k. rewrite lookupResult_none by exact Hr.
    destruct (Retrieval.mapGet (Retrieval.chunkId r) m) as [e|];
      rewrite mapGet_set, String.eqb_refl; [reflexivity|now destruct r].
  - destruct (Retrieval.mapGet (Retrieval.chunkId r) m) as [e|];
      rewrite mapGet_set, E; reflexivity.
Qed.

Lemma merge_sems_keys (ss : list Retrieval.Scored) :
  forall m,
    map fst
      (fold_left
         (fun m r =>
            match Retrieval.mapGet (Retrieval.chunkId r) m with
            | Some existing =>
                Retrieval.mapSet (Retrieval.chunkId r)
                  (Retrieval.mkScored (Retrieval.item r) (Retrieval.chunkId r)
                     ((Retrieval.score existing + Retrieval.score r) / 2)%float) m
            | None => Retrieval.mapSet (Retrieval.chunkId r) r m
            end) ss m)
    = fold_left (fun keys k => if existsb (String.eqb k) keys then keys else keys ++ [k])
                (map Retrieval.chunkId ss) (map fst m).
Proof.
  induction ss as [|r ss IH]; intros m; [reflexivity|].
  cbn [fold_left map]. rewrite IH. f_equal.
  assert (existsb (String.eqb (Retrieval.chunkId r)) (map fst m)
          = match Retrieval.mapGet (Retrieval.chunkId r) m with
            | Some _ => true | None => false end) as ->.
  { destruct (Retrieval.mapGet (Retrieval.chunkId r) m) eqn:E.
    - apply existsb_exists. exists (Retrieval.chunkId r).
      split; [|apply String.eqb_refl].
      destruct (in_dec string_dec (Retrieval.chunkId r) (map fst m)) as [H|H]; [exact H|].
      apply mapGet_keys in H. congruence.
    - apply mapGet_keys in E. destruct (existsb _ _) eqn:E'; [|reflexivity].
      apply existsb_exists in E'. destruct E' as [x [Hx Ex]].
      apply String.eqb_eq in Ex. now subst x. }
  destruct (Retrieval.mapGet (Retrieval.chunkId r) m) eqn:E; rewrite mapSet_keys, E;
    reflexivity.
Qed.

Lemma merge_keys_keys (ks : list Retrieval.Scored) :
  forall m,
    map fst (fold_left (fun m r => Retrieval.mapSet (Retrieval.chunkId r) r m) ks m)
    = fold_left (fun keys k => if existsb (String.eqb k) keys then keys else keys ++ [k])
                (map Retrieval.chunkId ks) (map fst m).
Proof.
  induction ks as [|r ks IH]; intros m; [reflexivity|].
  cbn [fold_left map]. rewrite IH, mapSet_keys. f_equal.
  destruct (Retrieval.mapGet (Retrieval.chunkId r) m) eqn:E.
  - assert (existsb (String.eqb (Retrieval.chunkId r)) (map fst m) = true) as ->;
      [|reflexivity].
    apply existsb_exists. exists (Retrieval.chunkId r). split; [|apply String.eqb_refl].
    destruct (in_dec string_dec (Retrieval.chunkId r) (map fst m)) as [H|H]; [exact H|].
    apply mapGet_keys in H. congruence.
  - apply mapGet_keys in E.
    destruct (existsb _ _) eqn:E'; [|reflexivity].
    apply existsb_exists in E'. destruct E' as [x [Hx Ex]].
    apply String.eqb_eq in Ex. now subst x.
Qed.

Lemma addKeys_fresh (l : list string) :
  NoDup l ->
  forall acc,
    fold_left (fun keys k => if existsb (String.eqb k) keys then keys else keys ++ [k])
              l acc
    = acc ++ filter (fun k => negb (existsb (String.eqb k) acc)) l.
Proof.
  induction l as [|k l IH]; intros Hnd acc; [now rewrite app_nil_r|].
  apply NoDup_cons_iff in Hnd. destruct Hnd as [Hk Hnd].
  cbn [fold_left filter]. rewrite IH by exact Hnd.
  destruct (existsb (String.eqb k) acc) eqn:E; cbn [negb]; [reflexivity|].
  rewrite <- app_assoc. cbn [app]. do 2 f_equal.
  apply filter_ext_in. intros x Hx. rewrite existsb_app. cbn [existsb].
  assert (String.eqb x k = false) as ->; [|now rewrite !orb_false_r].
  apply String.eqb_neq. intros ->. contradiction.
Qed.

Lemma addKeys_nodup (l : list string) :
  NoDup l ->
  fold_left (fun keys k => if existsb (String.eqb k) keys then keys else keys ++ [k])
            l []
  = l.
Proof.
  intros H. rewrite (addKeys_fresh l H []). cbn [app existsb negb].
  clear H. induction l as [|x l IH]; simpl; [reflexivity|now rewrite IH].
Qed.

(** X16 ([/api/search]): When neither result list repeats a chunk
    identifier, the merge of the hybrid branch holds for each identifier
    the keyword result, the semantic result, or, when both exist, the
    semantic result with the mean of the two scores; its entries are the
    keyword results in order, followed by the semantic results not among
    them. *)
Theorem hybrid_merge (keyResults semResults : list Retrieval.Scored) :
  NoDup (map Retrieval.chunkId keyResults) ->
  NoDup (map Retrieval.chunkId semResults) ->
  (forall k, Retrieval.mapGet k (Retrieval.mergeResults keyResults semResults)
             = mergedEntry (lookupResult k keyResults) (lookupResult k semResults))
  /\ map fst (Retrieval.mergeResults keyResults semResults)
     = map Retrieval.chunkId keyResults
       ++ filter (fun k => negb (existsb (String.eqb k)
                                         (map Retrieval.chunkId keyResults)))
                 (map Retrieval.chunkId semResults).
Proof.
  intros Hk Hs. unfold Retrieval.mergeResults. split.
  - intros k. rewrite merge_sems by exact Hs. rewrite merge_keys by exact Hk.
    cbn [Retrieval.mapGet].
    destruct (lookupResult k keyResults), (lookupResult k semResults); reflexivity.
  - rewrite merge_sems_keys, merge_keys_keys.
    change (map fst (@nil (string * Retrieval.Scored))) with (@nil string).
    rewrite (addKeys_nodup _ Hk). apply (addKeys_fresh _ Hs).
Qed.

Lemma hybrid_merge_witness :
  map fst (Retrieval.mergeResults
             [Retrieval.mkScored sampleA "a" 1%float; Retrieval.mkScored sampleB "b" 0.5%float]
             [Retrieval.mkScored sampleB "b" 1%float; Retrieval.mkScored sampleA "c" 0%float])
  = ["a"; "b"; "c"].
Proof.
  rewrite (proj2 (hybrid_merge
                    [Retrieval.mkScored sampleA "a" 1%float;
                     Retrieval.mkScored sampleB "b" 0.5%float]
                    [Retrieval.mkScored sampleB "b" 1%float;
                     Retrieval.mkScored sampleA "c" 0%float]
                    ltac:(repeat constructor; simpl; intuition discriminate)
                    ltac:(repeat constructor; simpl; intuition discriminate))).
  reflexivity.
Defined.

(** *** What a reply shows *)

Lemma mapSet_values (k : string) (v : Retrieval.Scored) (m : Retrieval.MergeMap)
      (P : Retrieval.Scored -> Prop) :
  P v -> Forall P (map snd m) -> Forall P (map snd (Retrieval.mapSet k v m)).
Proof.
  intros Hv. induction m as [|[k0 v0] m IH]; simpl; intros Hm.
  - repeat constructor. exact Hv.
  - apply Forall_cons_iff in Hm. destruct Hm as [H0 Hm].
    destruct (String.eqb k k0); simpl; constructor; auto.
Qed.

Lemma mapGet_value (k : string) (m : Retrieval.MergeMap) (v : Retrieval.Scored) :
  Retrieval.mapGet k m = Some v -> In v (map snd m).
Proof.
  induction m as [|[k0 v0] m IH]; simpl; [discriminate|].
  destruct (String.eqb k k0); [intros H; injection H as ->; now left|].
  intros H. right. now apply IH.
Qed.

Lemma mergeResults_fromIndex (embeddings : list Retrieval.ChunkRecord)
      (ks ss : list Retrieval.Scored) :
  Forall (fromIndex embeddings) ks -> Forall (fromIndex embeddings) ss ->
  Forall (fromIndex embeddings) (map snd (Retrieval.mergeResults ks ss)).
Proof.
  intros Hk Hs. unfold Retrieval.mergeResults.
  assert (forall m, Forall (fromIndex embeddings) (map snd m) ->
                    Forall (fromIndex embeddings)
                      (map snd (fold_left
                                  (fun m r => Retrieval.mapSet (Retrieval.chunkId r) r m)
                                  ks m))) as H1.
  { induction Hk as [|r ks Hr Hk IH]; intros m Hm; [exact Hm|].
    cbn [fold_left]. apply IH. now apply mapSet_values. }
  specialize (H1 [] (Forall_nil _)).
  revert H1. generalize (fold_left
                           (fun m r => Retrieval.mapSet (Retrieval.chunkId r) r m)
                           ks []).
  induction Hs as [|r ss Hr Hs IH]; intros m Hm; [exact Hm|].
  cbn [fold_left]. apply IH.
  destruct (Retrieval.mapGet (Retrieval.chunkId r) m) as [e|];
    apply mapSet_values; auto.
Qed.

Lemma ranked_fromIndex (embeddings : list Retrieval.ChunkRecord)
      (scoreOf : Retrieval.ChunkRecord -> float) (topK : nat) (minScore : float) :
  Forall (fromIndex embeddings)
         (Retrieval.rank topK minScore
            (map (fun it => Retrieval.mkScored it (Retrieval.chunkIdOf it) (scoreOf it))
                 embeddings)).
Proof.
  apply Forall_forall. intros r Hr. apply rank_In in Hr.
  apply in_map_iff in Hr. destruct Hr as [it [<- Hit]]. split; [exact Hit|reflexivity].
Qed.

Lemma length_take_le (n : nat) (s : string) : String.length (JS.take n s) <= n.
Proof. rewrite length_take. lia. Qed.

Lemma shown_fromIndex (embeddings : list Retrieval.ChunkRecord) (now : Retrieval.Clock)
      (rs : list Retrieval.Scored) :
  Forall (fromIndex embeddings) rs ->
  Forall (showsRecord embeddings now) (map (Retrieval.toResultChunk now) rs).
Proof.
  intros H. apply Forall_map. eapply Forall_impl; [|exact H].
  intros r [Hin Hid]. exists (Retrieval.item r). unfold Retrieval.toResultChunk.
  cbn [Retrieval.r_chunkId Retrieval.r_path Retrieval.r_section Retrieval.r_text
       Retrieval.r_modifiedAt Retrieval.r_highlights].
  repeat split; auto. apply length_take_le.
Qed.

Lemma firstn_Forall {A : Type} (P : A -> Prop) (n : nat) (l : list A) :
  Forall P l -> Forall P (firstn n l).
Proof.
  intros H. apply Forall_forall. intros x Hx. apply firstn_In_incl in Hx.
  rewrite Forall_forall in H. auto.
Qed.

Lemma sort_Forall {A : Type} (cmp : A -> A -> float) (P : A -> Prop) (l : list A) :
  Forall P l -> Forall P (JS.sort cmp l).
Proof.
  intros H. apply Forall_forall. intros x Hx. apply sort_In in Hx.
  rewrite Forall_forall in H. auto.
Qed.

Lemma search_shows_index_records_aux
      (splitTerms : string -> list string)
      (embeddings : list Retrieval.ChunkRecord)
      (service : string -> Retrieval.EmbedOutcome) (now : Retrieval.Clock)
      (body : Retrieval.SearchBody) :
  Forall (showsRecord embeddings now)
         (chunksOf (Retrieval.search splitTerms (Some embeddings) service now body)).
Proof.
  unfold Retrieval.search.
  destruct embeddings as [|r0 rest]; [constructor|].
  set (embeddings := r0 :: rest).
  set (md := match Retrieval.mode body with Some m0 => _ | None => _ end).
  destruct (String.eqb md "semantic").
  - destruct (Retrieval.getQueryEmbedding service _) as [[v|]|]; cbn [chunksOf];
      try constructor; apply shown_fromIndex, ranked_fromIndex.
  - destruct (String.eqb md "hybrid").
    + destruct (Retrieval.getQueryEmbedding service _) as [qe|]; cbn [chunksOf];
        try constructor.
      apply shown_fromIndex, firstn_Forall, sort_Forall, mergeResults_fromIndex.
      * apply ranked_fromIndex.
      * destruct qe; [apply ranked_fromIndex|constructor].
    + cbn [chunksOf]. apply shown_fromIndex, ranked_fromIndex.
Qed.

(** X17 ([/api/search]): Whatever the mode, every chunk a search reply
    shows is a record of the loaded index: its identifier, path and
    section are those of the record, its text is the first 500
    characters of the record's text, its highlights are empty, and the
    reply's query id and the chunks' modification times come from the
    clock. An error reply arises only when the query embedding is
    unavailable. *)
Theorem search_shows_index_records
        (splitTerms : string -> list string)
        (embeddings : list Retrieval.ChunkRecord)
        (service : string -> Retrieval.EmbedOutcome) (now : Retrieval.Clock)
        (body : Retrieval.SearchBody) :
  match Retrieval.search splitTerms (Some embeddings) service now body with
  | Retrieval.Reply queryId chunks _ =>
      queryId = Retrieval.queryIdOf now
      /\ Forall (showsRecord embeddings now) chunks
  | Retrieval.ServerError message =>
      message = "Search failed"
      /\ Retrieval.getQueryEmbedding service (queryOf (Retrieval.query body)) = None
  end.
Proof.
  pose proof (search_shows_index_records_aux splitTerms embeddings service now body) as H.
  unfold Retrieval.search in *. fold (queryOf (Retrieval.query body)).
  destruct embeddings as [|r0 rest]; [split; [reflexivity|constructor]|].
  set (embeddings := r0 :: rest) in *.
  set (md := match Retrieval.mode body with Some m0 => _ | None => _ end) in *.
  destruct (String.eqb md "semantic").
  - destruct (Retrieval.getQueryEmbedding service _) as [[v|]|]; (split; [reflexivity|]);
      try reflexivity; exact H.
  - destruct (String.eqb md "hybrid").
    + destruct (Retrieval.getQueryEmbedding service _) as [qe|]; (split; [reflexivity|]);
        try reflexivity; exact H.
    + split; [reflexivity|exact H].
Qed.

(** ** Reasoning *)

Lemma findChunk_known (embeddings : list Retrieval.ChunkRecord) (id : string) :
  match Reasoning.findChunk embeddings id with
  | Some c => known embeddings id = true /\ resolvedFrom embeddings [id] c
  | None => known embeddings id = false
  end.
Proof.
  unfold Reasoning.findChunk, known.
  destruct (find _ embeddings) as [item|] eqn:E.
  - apply find_some in E. destruct E as [Hin Heq]. split.
    + apply existsb_exists. eauto.
    + apply String.eqb_eq in Heq. split; [now left|].
      exists item. cbn. auto.
  - destruct (existsb _ _) eqn:E'; [|reflexivity].
    apply existsb_exists in E'. destruct E' as [e [Hin Heq]].
    pose proof (find_none _ _ E e Hin) as H. cbv beta in H. congruence.
Qed.

Lemma resolveChunks_facts (embeddings : list Retrieval.ChunkRecord) (ids : list string) :
  map Reasoning.rc_chunkId (Reasoning.resolveChunks embeddings ids)
  = filter (known embeddings) ids
  /\ Forall (resolvedFrom embeddings ids) (Reasoning.resolveChunks embeddings ids).
Proof.
  induction ids as [|id ids [IH1 IH2]]; [split; [reflexivity|constructor]|].
  unfold Reasoning.resolveChunks in *. cbn [flat_map filter].
  pose proof (findChunk_known embeddings id) as H.
  assert (Forall (resolvedFrom embeddings (id :: ids))
                 (flat_map (fun id0 => match Reasoning.findChunk embeddings id0 with
                                       | Some c => [c]
                                       | None => []
                                       end) ids)) as IH2'.
  { eapply Forall_impl; [|exact IH2]. intros c [Hin Hc]. split; [now right|exact Hc]. }
  destruct (Reasoning.findChunk embeddings id) as [c|] eqn:E.
  - destruct H as [-> [Hin Hc]]. split.
    + cbn [app map]. rewrite IH1. f_equal.
      unfold Reasoning.findChunk in E. destruct (find _ embeddings); [|discriminate].
      now injection E as <-.
    + constructor; [|exact IH2']. split; [|exact Hc].
      destruct Hin as [<-|[]]. now left.
  - rewrite H. split; [exact IH1|exact IH2'].
Qed.

(** X18 ([/api/reason]): /api/reason resolves exactly the requested
    identifiers that occur in the index, in request order, each to the
    path, section and text of a record with that identifier. A proxied
    reply is the service's JSON for a request with exactly those chunks,
    of which there is at least one; a direct answer is given only when
    no identifier resolves; and a status 500 reply says No index loaded
    when no index is loaded and Reasoning failed otherwise. *)
Theorem reason_forwards_resolved_chunks
        (Json : Type) (reasoningService : Reasoning.Request -> option Json)
        (indexData : option (list Retrieval.ChunkRecord)) (body : Reasoning.ReasonBody) :
  (forall embeddings,
      map Reasoning.rc_chunkId (Reasoning.resolveChunks embeddings (requestedIds body))
      = filter (known embeddings) (requestedIds body))
  /\ match Reasoning.reason Json reasoningService indexData body with
     | Reasoning.Proxied _ json =>
         exists embeddings request,
           indexData = Some embeddings
           /\ reasoningService request = Some json
           /\ Reasoning.rq_chunks request
              = Reasoning.resolveChunks embeddings (requestedIds body)
           /\ Reasoning.rq_chunks request <> []
           /\ Forall (resolvedFrom embeddings (requestedIds body))
                     (Reasoning.rq_chunks request)
     | Reasoning.Answer _ _ _ =>
         exists embeddings,
           indexData = Some embeddings
           /\ Reasoning.resolveChunks embeddings (requestedIds body) = []
     | Reasoning.Error500 _ error =>
         (indexData = None /\ error = "No index loaded")
         \/ (indexData <> None /\ error = "Reasoning failed")
     end.
Proof.
  split; [intros embeddings; apply resolveChunks_facts|].
  unfold Reasoning.reason. fold (requestedIds body).
  destruct indexData as [embeddings|]; [|now left].
  destruct (requestedIds body) as [|id ids] eqn:Eids; [now exists embeddings|].
  destruct (resolveChunks_facts embeddings (id :: ids)) as [_ Hall].
  destruct (Reasoning.resolveChunks embeddings (id :: ids)) as [|c cs] eqn:Ecs;
    [now exists embeddings|].
  destruct (reasoningService _) as [json|] eqn:Es.
  - exists embeddings. eexists. split; [reflexivity|]. split; [exact Es|].
    cbn [Reasoning.rq_chunks]. repeat split; auto. discriminate.
  - right. split; [discriminate|reflexivity].
Qed.

Lemma chunkIdOf_inj (r1 r2 : Retrieval.ChunkRecord) :
  Retrieval.chunkIdOf r1 = Retrieval.chunkIdOf r2 ->
  Retrieval.filePath r1 = Retrieval.filePath r2
  /\ Retrieval.chunkIndex r1 = Retrieval.chunkIndex r2.
Proof.
  unfold Retrieval.chunkIdOf. intros H. simpl in H. injection H as H.
  apply last_underscore in H; try apply string_of_uint_digits.
  destruct H as [H1 H2]. split; [exact H1|now apply showNat_inj].
Qed.

Lemma NoDup_map_eq {A B : Type} (f : A -> B) (l : list A) (a b : A) :
  NoDup (map f l) -> In a l -> In b l -> f a = f b -> a = b.
Proof.
  induction l as [|x l IH]; simpl; [tauto|]. intros Hnd Ha Hb Hf.
  apply NoDup_cons_iff in Hnd. destruct Hnd as [Hx Hnd].
  destruct Ha as [->|Ha], Hb as [->|Hb]; auto.
  - exfalso. apply Hx. rewrite Hf. now apply in_map.
  - exfalso. apply Hx. rewrite <- Hf. now apply in_map.
Qed.

(** X19 ([/api/search] and [/api/reason]): Every chunk identifier a
    search reply shows is resolved by /api/reason to a record with the
    same path and section; when the index has no two records with the
    same identifier, the text shown by the search is the first 500
    characters of the text that is forwarded. *)
Theorem search_results_resolve
        (splitTerms : string -> list string)
        (embeddings : list Retrieval.ChunkRecord)
        (service : string -> Retrieval.EmbedOutcome) (now : Retrieval.Clock)
        (body : Retrieval.SearchBody) :
  Forall (fun c =>
            exists rc,
              Reasoning.findChunk embeddings (Retrieval.r_chunkId c) = Some rc
              /\ Reasoning.rc_chunkId rc = Retrieval.r_chunkId c
              /\ Reasoning.rc_path rc = Retrieval.r_path c
              /\ Reasoning.rc_section rc = Retrieval.r_section c
              /\ (NoDup (map Retrieval.chunkIdOf embeddings) ->
                  JS.take 500 (Reasoning.rc_text rc) = Retrieval.r_text c))
         (chunksOf (Retrieval.search splitTerms (Some embeddings) service now body)).
Proof.
  pose proof (search_shows_index_records_aux splitTerms embeddings service now body) as H.
  eapply Forall_impl; [|exact H].
  intros c [it [Hin [Hid [Hpath [Hsec [Htext _]]]]]].
  unfold Reasoning.findChunk.
  destruct (find _ embeddings) as [item|] eqn:E.
  - apply find_some in E. destruct E as [Hitem Heq]. apply String.eqb_eq in Heq.
    rewrite Hid in Heq. destruct (chunkIdOf_inj _ _ Heq) as [Hp Hi].
    eexists. split; [reflexivity|]. cbn.
    rewrite Hp, Hi, Hpath, Hsec, Htext. repeat split; auto.
    intros Hnd. now rewrite (NoDup_map_eq _ _ _ _ Hnd Hitem Hin Heq).
  - pose proof (find_none _ _ E it Hin) as Hn. cbv beta in Hn.
    rewrite Hid, String.eqb_refl in Hn. discriminate.
Qed.

(** *** The reasoning service *)

Lemma join_includes (sep : string) (l : list string) (x : string) :
  In x l -> JS.includes (Reasoning.join sep l) x = true.
Proof.
  induction l as [|y l IH]; [intros []|].
  intros [->|Hin].
  - cbn [Reasoning.join]. destruct l.
    + rewrite <- (append_nil_r x) at 1.
      change (x ++ "")%string with ("" ++ x ++ "")%string. apply includes_app.
    + change (x ++ sep ++ Reasoning.join sep (s :: l))%string
        with ("" ++ x ++ (sep ++ Reasoning.join sep (s :: l)))%string.
      apply includes_app.
  - cbn [Reasoning.join]. destruct l as [|z l]; [destruct Hin|].
    destruct (includes_inv _ _ (IH Hin)) as [a [b E]]. rewrite E.
    replace (y ++ sep ++ a ++ x ++ b)%string with ((y ++ sep ++ a) ++ x ++ b)%string
      by (now rewrite !append_assoc).
    apply includes_app.
Qed.

Lemma includes_middle (a s b x : string) :
  JS.includes s x = true -> JS.includes (a ++ s ++ b) x = true.
Proof.
  intros H. destruct (includes_inv _ _ H) as [p [q ->]].
  replace (a ++ (p ++ x ++ q) ++ b)%string with ((a ++ p) ++ x ++ (q ++ b))%string
    by (now rewrite !append_assoc).
  apply includes_app.
Qed.

Lemma includes_after (a s x : string) :
  JS.includes s x = true -> JS.includes (a ++ s) x = true.
Proof.
  intros H. rewrite <- (append_nil_r s). now apply includes_middle.
Qed.

Lemma orDefault_nonempty (v : option string) (d : string) :
  d <> "" -> Reasoning.orDefault v d <> "".
Proof.
  intros Hd. unfold Reasoning.orDefault.
  destruct v as [[|c s]|]; cbn; auto. discriminate.
Qed.

(** X20 ([PROMPT_PROFILES] and [/reason]): The reasoning service answers
    without calling the model when it gets no chunks. An answer it
    returns is never empty and cites the first five chunks at most, each
    quote being at most 100 characters. A profile named like an
    inherited object property (such as constructor) makes the handler
    throw, and the prompt of the answer_strict profile contains every
    chunk as [id] text. *)
Theorem service_cites_first_five
        (generate : Reasoning.Generate -> option (option string))
        (body : Reasoning.ServiceBody) :
  let chunks := serviceChunks body in
  (chunks = [] ->
   Reasoning.reason_service generate body
   = Reasoning.Reasoned "No chunks provided. Please provide context chunks." []
                        ["No chunks provided"])
  /\ (forall answer citations notes,
         Reasoning.reason_service generate body
         = Reasoning.Reasoned answer citations notes ->
         answer <> ""
         /\ citations = map Reasoning.citationOf (firstn 5 chunks)
         /\ List.length citations = Nat.min 5 (List.length chunks)
         /\ Forall (fun c => String.length (Reasoning.ci_quote c) <= 100) citations)
  /\ (Reasoning.reason_service generate body = Reasoning.Thrown <->
      chunks <> []
      /\ existsb (String.eqb (Reasoning.orDefault (Reasoning.sb_profile body)
                                                  "answer_strict"))
                 Reasoning.inheritedNames = true)
  /\ (forall question c,
         In c chunks ->
         JS.includes (Reasoning.template Reasoning.answer_strict question chunks)
                     ("[" ++ Reasoning.render (Reasoning.in_chunkId c) ++ "] "
                      ++ Reasoning.render (Reasoning.in_text c)) = true).
Proof.
  cbv zeta. unfold Reasoning.reason_service. fold (serviceChunks body).
  set (profile := Reasoning.orDefault (Reasoning.sb_profile body) "answer_strict").
  assert (forall l : list Reasoning.InChunk,
             List.length (map Reasoning.citationOf (firstn 5 l))
             = Nat.min 5 (List.length l)
             /\ Forall (fun c => String.length (Reasoning.ci_quote c) <= 100)
                       (map Reasoning.citationOf (firstn 5 l))) as Hcit.
  { intros l. split; [now rewrite length_map, length_firstn|].
    apply Forall_map, Forall_forall. intros x _. apply length_take_le. }
  split; [intros ->; reflexivity|]. split; [|split].
  - intros answer citations notes.
    destruct (serviceChunks body) as [|c cs] eqn:Ec.
    + intros H. injection H as <- <- _. repeat split; auto. discriminate.
    + destruct (Reasoning.profileOf profile) as [cfg|]; [|discriminate].
      destruct (generate _) as [response|]; [|discriminate].
      intros H. injection H as <- <- _.
      split; [apply orDefault_nonempty; discriminate|]. split; [reflexivity|].
      apply (Hcit (c :: cs)).
  - destruct (serviceChunks body) as [|c cs] eqn:Ec.
    + split; [discriminate|]. intros [H _]. now elim H.
    + unfold Reasoning.profileOf.
      destruct (String.eqb profile "answer_strict") eqn:E1.
      { apply String.eqb_eq in E1. rewrite E1.
        destruct (generate _); split; try discriminate; intros [_ H]; discriminate. }
      destruct (String.eqb profile "summarize") eqn:E2.
      { apply String.eqb_eq in E2. rewrite E2.
        destruct (generate _); split; try discriminate; intros [_ H]; discriminate. }
      destruct (String.eqb profile "expand_query") eqn:E3.
      { apply String.eqb_eq in E3. rewrite E3.
        destruct (generate _); split; try discriminate; intros [_ H]; discriminate. }
      destruct (existsb (String.eqb profile) Reasoning.inheritedNames).
      * split; [intros _; split; [discriminate|reflexivity]|reflexivity].
      * destruct (generate _); split; try discriminate; intros [_ H]; discriminate.
  - intros question c Hin. cbn [Reasoning.template Reasoning.answer_strict].
    do 6 apply includes_after.
    apply (includes_middle "").
    apply join_includes.
    apply (in_map (fun c0 => ("[" ++ Reasoning.render (Reasoning.in_chunkId c0) ++ "] "
                              ++ Reasoning.render (Reasoning.in_text c0))%string)).
    exact Hin.
Qed.

Lemma service_cites_first_five_witness :
  Reasoning.reason_service (fun _ => None) (Reasoning.mkServiceBody None None None None)
  = Reasoning.Reasoned "No chunks provided. Please provide context chunks." []
                       ["No chunks provided"]
  /\ JS.includes
       (Reasoning.template Reasoning.answer_strict "why"
          [Reasoning.mkInChunk (Some "chunk_a_0") None None None None (Some "alpha")])
       "[chunk_a_0] alpha" = true.
Proof.
  split.
  - apply (proj1 (service_cites_first_five (fun _ => None)
                    (Reasoning.mkServiceBody None None None None))).
    reflexivity.
  - apply (proj2 (proj2 (proj2 (service_cites_first_five (fun _ => None)
             (Reasoning.mkServiceBody None
                (Some [Reasoning.mkInChunk (Some "chunk_a_0") None None None None
                                           (Some "alpha")])
                None None))))
             "why"
             (Reasoning.mkInChunk (Some "chunk_a_0") None None None None (Some "alpha"))).
    now left.
Defined.

Lemma splitCharFrom_pieces (c : ascii) (s : string) :
  forall cur,
    JS.containsChar c cur = false ->
    Forall (fun p => JS.containsChar c p = false
                     /\ JS.includes (cur ++ s) p = true)
           (Reasoning.splitCharFrom cur c s).
Proof.
  induction s as [|a s IH]; intros cur Hcur; cbn [Reasoning.splitCharFrom].
  - repeat constructor; [exact Hcur|]. apply (includes_app "" cur "").
  - destruct (Ascii.eqb a c) eqn:E.
    + constructor.
      * split; [exact Hcur|]. apply (includes_app "" cur (String a s)).
      * eapply Forall_impl; [|apply (IH "" eq_refl)].
        intros p [Hp Hi]. split; [exact Hp|]. cbn [append] in Hi.
        replace (cur ++ String a s)%string with ((cur ++ String a "") ++ s)%string
          by (now rewrite append_assoc).
        now apply includes_after.
    + replace (cur ++ String a s)%string with ((cur ++ String a "") ++ s)%string
        by (now rewrite append_assoc).
      apply IH. rewrite containsChar_app, Hcur. cbn. now rewrite E.
Qed.

(** X21 ([/expand-query]): /expand-query rejects a missing or empty
    query with status 400; otherwise it returns the query with at most
    five lines of the model's raw response, none of them blank and none
    containing a line break. *)
Theorem expand_query_lines
        (generate : Reasoning.Generate -> option (option string))
        (query model : option string) :
  match Reasoning.expand generate query model with
  | Reasoning.Expanded original expanded raw =>
      query = Some original /\ original <> ""
      /\ List.length expanded <= 5
      /\ Forall (fun q => JS.trim q <> ""
                          /\ JS.containsChar "010" q = false
                          /\ JS.includes raw q = true) expanded
  | Reasoning.Rejected400 _ => query = None \/ query = Some ""
  | Reasoning.ExpandFailed _ => exists original, query = Some original /\ original <> ""
  end.
Proof.
  unfold Reasoning.expand.
  destruct query as [[|c q]|]; cbn [Reasoning.orDefault JS.isEmpty]; auto.
  destruct (generate _) as [response|].
  - split; [reflexivity|]. split; [discriminate|]. split; [apply firstn_le_length|].
    apply firstn_Forall, Forall_forall. intros x Hx.
    apply filter_In in Hx. destruct Hx as [Hx Hlen].
    pose proof (splitCharFrom_pieces "010" (Reasoning.orDefault response "") ""
                  eq_refl) as Hp.
    rewrite Forall_forall in Hp. destruct (Hp x Hx) as [H1 H2].
    split; [|split; assumption].
    intros E. rewrite E in Hlen. discriminate.
  - exists (String c q). split; [reflexivity|discriminate].
Qed.

(** ** The backend server *)

Section MapFacts.
Context {V : Type}.

Lemma smap_get_set (k k' : string) (v : V) (m : list (string * V)) :
  Server.mapGet k' (Server.mapSet k v m)
  = if String.eqb k' k then Some v else Server.mapGet k' m.
Proof.
  induction m as [|[k0 v0] m IH]; simpl.
  - reflexivity.
  - destruct (String.eqb k k0) eqn:E; simpl.
    + apply String.eqb_eq in E. subst k0. now destruct (String.eqb k' k).
    + destruct (String.eqb k' k0) eqn:E'; [|exact IH].
      apply String.eqb_eq in E'. subst k0.
      now rewrite String.eqb_sym, E.
Qed.

Lemma smap_get_none (k : string) (m : list (string * V)) :
  Server.mapGet k m = None <-> ~ In k (map fst m).
Proof.
  induction m as [|[k0 v0] m IH]; simpl; [tauto|].
  destruct (String.eqb k k0) eqn:E.
  - apply String.eqb_eq in E. subst. split; [discriminate|tauto].
  - apply String.eqb_neq in E. rewrite IH. split; [intros H [H'|H']; congruence|tauto].
Qed.

Lemma smap_delete_keys (k : string) (m : list (string * V)) :
  forall x, In x (map fst (Server.mapDelete k m)) -> In x (map fst m).
Proof.
  induction m as [|[k0 v0] m IH]; simpl; [tauto|]. intros x.
  destruct (String.eqb k k0); simpl; [tauto|]. intros [H|H]; auto.
Qed.

Lemma smap_get_delete (k k' : string) (m : list (string * V)) :
  NoDup (map fst m) ->
  Server.mapGet k' (Server.mapDelete k m)
  = if String.eqb k' k then None else Server.mapGet k' m.
Proof.
  induction m as [|[k0 v0] m IH]; simpl; intros Hnd.
  - now destruct (String.eqb k' k).
  - apply NoDup_cons_iff in Hnd. destruct Hnd as [H0 Hnd].
    destruct (String.eqb k k0) eqn:E; simpl.
    + apply String.eqb_eq in E. subst k0.
      destruct (String.eqb k' k) eqn:E'; [|reflexivity].
      apply String.eqb_eq in E'. subst k'. now apply smap_get_none.
    + destruct (String.eqb k' k0) eqn:E'.
      * apply String.eqb_eq in E'. subst k0.
        now rewrite String.eqb_sym, E.
      * now apply IH.
Qed.

Lemma smap_set_keys (k : string) (v : V) (m : list (string * V)) :
  NoDup (map fst m) -> NoDup (map fst (Server.mapSet k v m)).
Proof.
  induction m as [|[k0 v0] m IH]; simpl; intros Hnd.
  - repeat constructor. intros [].
  - apply NoDup_cons_iff in Hnd. destruct Hnd as [H0 Hnd].
    destruct (String.eqb k k0) eqn:E; simpl.
    + apply String.eqb_eq in E. subst k0. now constructor.
    + constructor; [|now apply IH].
      intros Hin. apply H0.
      assert (Server.mapGet k0 (Server.mapSet k v m) <> None) as Hg
          by (intros Hg; now apply smap_get_none in Hg).
      rewrite smap_get_set, String.eqb_sym, E in Hg.
      destruct (in_dec string_dec k0 (map fst m)) as [H|H]; [exact H|].
      now apply smap_get_none in H.
Qed.

Lemma smap_delete_nodup (k : string) (m : list (string * V)) :
  NoDup (map fst m) -> NoDup (map fst (Server.mapDelete k m)).
Proof.
  induction m as [|[k0 v0] m IH]; simpl; intros Hnd; [constructor|].
  apply NoDup_cons_iff in Hnd. destruct Hnd as [H0 Hnd].
  destruct (String.eqb k k0); simpl; [exact Hnd|].
  constructor; [|now apply IH]. intros H. apply H0. now apply smap_delete_keys in H.
Qed.

End MapFacts.

Lemma getCachedMeta_fst (t : Z) (q : string) (c : Server.Cache) :
  fst (Server.getCachedMeta t q c)
  = match Server.mapGet q c with
    | Some cached =>
        if (t - Server.computedAt cached >? Server.CACHE_TTL_MS)%Z then None
        else Some cached
    | None => None
    end.
Proof.
  unfold Server.getCachedMeta. destruct (Server.mapGet q c) as [cached|]; [|reflexivity].
  now destruct (t - Server.computedAt cached >? Server.CACHE_TTL_MS)%Z.
Qed.

Lemma getCachedMeta_snd (t : Z) (q : string) (c : Server.Cache) :
  snd (Server.getCachedMeta t q c)
  = match Server.mapGet q c with
    | Some cached =>
        if (t - Server.computedAt cached >? Server.CACHE_TTL_MS)%Z
        then Server.mapDelete q c else c
    | None => c
    end.
Proof.
  unfold Server.getCachedMeta. destruct (Server.mapGet q c) as [cached|]; [|reflexivity].
  now destruct (t - Server.computedAt cached >? Server.CACHE_TTL_MS)%Z.
Qed.

(** X22 ([getCachedMeta] and [setCachedMeta]): Folder metadata stored by
    setCachedMeta is returned by getCachedMeta for the same path up to
    and including 5 minutes later and leaves the cache as it is; after
    that it is not returned and the entry is deleted. Neither operation
    changes what is read for another path, and keys stay unique. *)
Theorem cache_round_trip (now now' : Z) (p : string) (data : Server.Meta)
        (cache : Server.Cache) :
  NoDup (map fst cache) ->
  let cache' := Server.setCachedMeta now p data cache in
  ((now' - now <= Server.CACHE_TTL_MS)%Z ->
   Server.getCachedMeta now' p cache' = (Some (Server.mkCached data now), cache'))
  /\ ((now' - now > Server.CACHE_TTL_MS)%Z ->
      fst (Server.getCachedMeta now' p cache') = None
      /\ forall t, fst (Server.getCachedMeta t p
                          (snd (Server.getCachedMeta now' p cache'))) = None)
  /\ (forall q t, q <> p ->
         fst (Server.getCachedMeta t q cache') = fst (Server.getCachedMeta t q cache)
         /\ fst (Server.getCachedMeta t q (snd (Server.getCachedMeta now' p cache')))
            = fst (Server.getCachedMeta t q cache))
  /\ NoDup (map fst cache')
  /\ NoDup (map fst (snd (Server.getCachedMeta now' p cache'))).
Proof.
  intros Hnd cache'.
  pose proof (smap_set_keys p (Server.mkCached data now) cache Hnd) as Hnd'.
  fold (Server.setCachedMeta now p data cache) in Hnd'. fold cache' in Hnd'.
  assert (Server.mapGet p cache' = Some (Server.mkCached data now)) as Hget
      by (unfold cache', Server.setCachedMeta; now rewrite smap_get_set, String.eqb_refl).
  assert (forall q, String.eqb q p = false ->
                    Server.mapGet q cache' = Server.mapGet q cache) as Hother
      by (intros q Hq; unfold cache', Server.setCachedMeta; now rewrite smap_get_set, Hq).
  split; [|split; [|split; [|split; [exact Hnd'|]]]].
  - intros Hle. unfold Server.getCachedMeta. rewrite Hget. cbn [Server.computedAt].
    assert ((now' - now >? Server.CACHE_TTL_MS)%Z = false) as ->
        by (rewrite Z.gtb_ltb; apply Z.ltb_ge; lia).
    reflexivity.
  - intros Hgt.
    assert ((now' - now >? Server.CACHE_TTL_MS)%Z = true) as Hexp
        by (rewrite Z.gtb_ltb; apply Z.ltb_lt; lia).
    split.
    + rewrite getCachedMeta_fst, Hget. cbn [Server.computedAt]. now rewrite Hexp.
    + intros t. rewrite getCachedMeta_fst, getCachedMeta_snd, Hget.
      cbn [Server.computedAt]. rewrite Hexp.
      now rewrite smap_get_delete, String.eqb_refl.
  - intros q t Hq. apply String.eqb_neq in Hq.
    rewrite !getCachedMeta_fst, getCachedMeta_snd, Hget, (Hother q Hq).
    split; [reflexivity|]. cbn [Server.computedAt].
    destruct (now' - now >? Server.CACHE_TTL_MS)%Z.
    + rewrite smap_get_delete, Hq, (Hother q Hq) by exact Hnd'. reflexivity.
    + now rewrite (Hother q Hq).
  - rewrite getCachedMeta_snd, Hget. cbn [Server.computedAt].
    destruct (now' - now >? Server.CACHE_TTL_MS)%Z;
      [now apply smap_delete_nodup|exact Hnd'].
Qed.

Lemma cache_round_trip_witness :
  Server.getCachedMeta 1300000 "E:/docs"
    (Server.setCachedMeta 1000000 "E:/docs" (Server.mkMeta 3 4096 "t0") [])
  = (Some (Server.mkCached (Server.mkMeta 3 4096 "t0") 1000000),
     Server.setCachedMeta 1000000 "E:/docs" (Server.mkMeta 3 4096 "t0") []).
Proof.
  apply (proj1 (cache_round_trip 1000000 1300000 "E:/docs" (Server.mkMeta 3 4096 "t0") []
                  (NoDup_nil _))).
  vm_compute. discriminate.
Defined.

(** *** Preview *)

Lemma previewLoop_bound (walkInto : string -> list string -> list string)
      (maxFiles bound : nat) (dir : string) :
  maxFiles <= bound ->
  (forall d r, List.length r < bound -> List.length (walkInto d r) < bound) ->
  (forall d r, Forall previewable r -> Forall previewable (walkInto d r)) ->
  forall entries r,
    (List.length r < bound ->
     List.length (Server.previewLoop walkInto maxFiles dir entries r) <= bound)
    /\ (Forall previewable r ->
        Forall previewable (Server.previewLoop walkInto maxFiles dir entries r)).
Proof.
  intros Hmax Hwalk Hkeep.
  induction entries as [|entry rest IH]; intros r; cbn [Server.previewLoop].
  - split; [lia|auto].
  - destruct (Indexer.kind entry).
    + destruct (Indexer.memberOf _ Server.ALLOWED_EXTS) eqn:Eext; [|apply IH].
      set (fullPath := JS.replaceChar "\" "/" (Path.join dir (Indexer.name entry))) in *.
      assert (previewable fullPath) as Hp.
      { split; [exact Eext|]. now apply replaceChar_removes. }
      destruct (maxFiles <=? List.length (r ++ [fullPath])) eqn:Ecap.
      * split.
        -- intros Hr. rewrite length_app. simpl. lia.
        -- intros Hr. apply Forall_app. split; [exact Hr|now constructor].
      * apply Nat.leb_gt in Ecap. split.
        -- intros _. apply IH. lia.
        -- intros Hr. apply IH. apply Forall_app. split; [exact Hr|now constructor].
    + split.
      * intros Hr. apply IH. now apply Hwalk.
      * intros Hr. apply IH. now apply Hkeep.
    + apply IH.
Qed.

Lemma previewWalk_bound (fs : Indexer.FileSystem) (maxFiles : nat) :
  forall levels dir r,
    List.length (Server.previewWalk fs maxFiles levels dir r)
    <= Nat.max (List.length r) (maxFiles + levels - 1)
    /\ (Forall previewable r ->
        Forall previewable (Server.previewWalk fs maxFiles levels dir r)).
Proof.
  induction levels as [|levels IH]; intros dir r; cbn [Server.previewWalk].
  - split; [lia|auto].
  - destruct (maxFiles <=? List.length r) eqn:Ecap; [split; [lia|auto]|].
    apply Nat.leb_gt in Ecap.
    destruct (Indexer.readdir fs dir) as [entries|]; [|split; [lia|auto]].
    destruct (previewLoop_bound (Server.previewWalk fs maxFiles levels) maxFiles
                (maxFiles + levels) dir ltac:(lia)
                ltac:(intros d r0 H0; pose proof (proj1 (IH d r0)); lia)
                ltac:(intros d r0; apply IH)
                entries r) as [H1 H2].
    split; [|exact H2]. specialize (H1 ltac:(lia)). lia.
Qed.

(** X23 ([previewFiles]): previewFiles returns at most maxFiles +
    maxDepth paths, none when maxFiles is 0, each with an extension of
    ALLOWED_EXTS (the same extensions the worker's walk yields) and
    written without backslashes. The cap maxFiles itself can be
    exceeded: the break at the cap leaves only the innermost loop, as a
    two-level folder shows. *)
Theorem preview_cap (fs : Indexer.FileSystem) (rootPath : string)
        (maxDepth maxFiles : nat) :
  let files := Server.previewFiles fs rootPath maxDepth maxFiles in
  List.length files <= maxFiles + maxDepth
  /\ (maxFiles = 0 -> files = [])
  /\ Forall previewable files
  /\ Server.previewFiles nestedFs "/r" 1 1 = ["/r/d/a.txt"; "/r/b.txt"]
  /\ Server.ALLOWED_EXTS = Indexer.indexedExtensions.
Proof.
  cbv zeta. unfold Server.previewFiles.
  destruct (previewWalk_bound fs maxFiles (S maxDepth) rootPath []) as [H1 H2].
  change (List.length (@nil string)) with 0 in H1.
  split; [lia|]. split; [intros ->; reflexivity|].
  split; [exact (H2 (Forall_nil _))|split; reflexivity].
Qed.

Lemma preview_cap_witness :
  Server.previewFiles nestedFs "/r" 3 0 = [].
Proof.
  apply (proj1 (proj2 (preview_cap nestedFs "/r" 3 0))). reflexivity.
Defined.

(** *** Folder metadata *)

Lemma metaLoop_bound (fs : Indexer.FileSystem)
      (walkInto : string -> nat * nat -> nat * nat)
      (maxFiles : nat) (deeper : bool) (dir : string) :
  (forall d a, fst a <= S maxFiles -> fst (walkInto d a) <= S maxFiles) ->
  forall entries acc,
    fst acc <= S maxFiles ->
    fst (Server.metaLoop fs walkInto maxFiles deeper dir entries acc) <= S maxFiles.
Proof.
  intros Hwalk. induction entries as [|entry rest IH]; intros [count bytes] Hacc;
    cbn [Server.metaLoop]; [exact Hacc|].
  destruct (maxFiles <? count) eqn:E; [exact Hacc|]. apply Nat.ltb_ge in E.
  destruct (Indexer.kind entry).
  - destruct (Indexer.stat fs _); apply IH; simpl; lia.
  - destruct deeper; apply IH; [now apply Hwalk|exact Hacc].
  - now apply IH.
Qed.

Lemma metaWalk_bound (fs : Indexer.FileSystem) (maxFiles : nat) :
  forall levels dir acc,
    fst acc <= S maxFiles ->
    fst (Server.metaWalk fs maxFiles levels dir acc) <= S maxFiles.
Proof.
  induction levels as [|levels IH]; intros dir acc Hacc; cbn [Server.metaWalk];
    [exact Hacc|].
  destruct (maxFiles <? fst acc); [exact Hacc|].
  destruct (Indexer.readdir fs dir) as [entries|]; [|exact Hacc].
  apply metaLoop_bound; [|exact Hacc]. intros d a. apply IH.
Qed.

(** X24 ([computeFolderMetaAsync]): computeFolderMetaAsync returns null
    exactly for a path that is not a directory; otherwise the file count
    it reports never exceeds maxFiles + 1, the scan time is the current
    time, and a directory that cannot be read gives count 0 and size 0. *)
Theorem folder_meta_bounds (fs : Indexer.FileSystem) (isDirectory : string -> bool)
        (now folderPath : string) (maxDepth maxFiles : nat) :
  match Server.computeFolderMetaAsync fs isDirectory now folderPath maxDepth maxFiles with
  | Some m =>
      isDirectory folderPath = true
      /\ Server.fileCount m <= S maxFiles
      /\ Server.lastScannedAt m = now
      /\ (Indexer.readdir fs folderPath = None ->
          Server.fileCount m = 0 /\ Server.byteSize m = 0)
  | None => isDirectory folderPath = false
  end.
Proof.
  unfold Server.computeFolderMetaAsync.
  destruct (isDirectory folderPath); cbn [negb]; [|reflexivity].
  pose proof (metaWalk_bound fs maxFiles (S maxDepth) folderPath (0, 0)
                ltac:(simpl; lia)) as H.
  destruct (Server.metaWalk fs maxFiles (S maxDepth) folderPath (0, 0))
    as [count bytes] eqn:E.
  cbn [Server.fileCount Server.byteSize Server.lastScannedAt fst] in *.
  split; [reflexivity|]. split; [exact H|]. split; [reflexivity|].
  intros Hnone. cbn [Server.metaWalk fst Nat.ltb Nat.leb] in E. rewrite Hnone in E.
  now injection E as <- <-.
Qed.

(** *** The latest snapshot *)

Lemma string_leb_trans (a b c : string) :
  String.leb a b = true -> String.leb b c = true -> String.leb a c = true.
Proof.
  unfold String.leb. revert b c.
  induction a as [|x a IH]; intros [|y b] [|z c]; simpl; try easy.
  unfold Ascii.compare.
  destruct (N.compare_spec (N_of_ascii x) (N_of_ascii y)) as [Exy|Exy|Exy];
    destruct (N.compare_spec (N_of_ascii y) (N_of_ascii z)) as [Eyz|Eyz|Eyz];
    destruct (N.compare_spec (N_of_ascii x) (N_of_ascii z)) as [Exz|Exz|Exz];
    try easy; try lia.
  apply IH.
Qed.

Lemma string_leb_refl (a : string) : String.leb a a = true.
Proof. now destruct (String.leb_total a a). Qed.

Lemma insertName_In (x y : string) (l : list string) :
  In y (Server.insertName x l) <-> y = x \/ In y l.
Proof.
  induction l as [|z l IH]; simpl; [intuition|].
  destruct (String.leb x z); simpl; rewrite ?IH; intuition.
Qed.

Lemma sortNames_In (y : string) (l : list string) :
  In y (Server.sortNames l) <-> In y l.
Proof.
  induction l as [|x l IH]; simpl; [tauto|].
  rewrite insertName_In, IH. intuition.
Qed.

Lemma insertName_ascending (x : string) (l : list string) :
  ascending l -> ascending (Server.insertName x l).
Proof.
  induction l as [|z l IH]; simpl; [intuition|]. intros [Hz Hl].
  destruct (String.leb x z) eqn:E; simpl.
  - split; [|auto]. intros y [<-|Hy]; [exact E|].
    apply (string_leb_trans x z y); auto.
  - split; [|auto]. intros y Hy. apply insertName_In in Hy.
    destruct Hy as [->|Hy]; [|auto].
    destruct (String.leb_total x z); congruence.
Qed.

Lemma sortNames_ascending (l : list string) : ascending (Server.sortNames l).
Proof.
  induction l as [|x l IH]; simpl; [exact I|]. now apply insertName_ascending.
Qed.

Lemma ascending_last (l : list string) (latest : string) (rest : list string) :
  ascending l -> rev l = latest :: rest ->
  In latest l /\ forall x, In x l -> String.leb x latest = true.
Proof.
  intros Hasc Hrev.
  assert (l = rev rest ++ [latest]) as ->
      by (rewrite <- (rev_involutive l), Hrev; reflexivity).
  split; [apply in_or_app; right; now left|].
  clear Hrev. induction (rev rest) as [|y l' IH]; simpl in *.
  - intros x [<-|[]]. apply string_leb_refl.
  - destruct Hasc as [Hy Hl]. intros x [<-|Hx]; [|auto].
    apply Hy. apply in_or_app. right. now left.
Qed.

(** The file [loadLatestIndex] reads is the greatest candidate name. *)
Lemma loadLatestIndex_max (Data : Type) (indexDir : string)
      (names : list string) (readJson : string -> option Data) :
  filter Server.isSnapshotName names <> [] ->
  exists latest,
    In latest names
    /\ Server.isSnapshotName latest = true
    /\ (forall f, In f names -> Server.isSnapshotName f = true ->
                  String.leb f latest = true)
    /\ Server.loadLatestIndex Data indexDir (Some names) readJson
       = readJson (Path.join indexDir latest).
Proof.
  intros Hne. unfold Server.loadLatestIndex.
  destruct (rev (Server.sortNames (filter Server.isSnapshotName names)))
    as [|latest rest] eqn:E.
  - exfalso. apply Hne.
    assert (Server.sortNames (filter Server.isSnapshotName names) = []) as Hs
        by (rewrite <- (rev_involutive (Server.sortNames _)), E; reflexivity).
    destruct (filter Server.isSnapshotName names) as [|x l]; [reflexivity|].
    assert (In x (Server.sortNames (x :: l))) as Hin
        by (apply sortNames_In; now left).
    rewrite Hs in Hin. destruct Hin.
  - destruct (ascending_last _ _ _ (sortNames_ascending _) E) as [Hin Hmax].
    apply sortNames_In, filter_In in Hin. destruct Hin as [Hin Hsnap].
    exists latest. repeat split; auto.
    intros f Hf Hfs. apply Hmax, sortNames_In, filter_In. auto.
Qed.

(** X25 ([loadLatestIndex]): loadLatestIndex returns null when the index
    directory is missing or holds no file named index_*.json; otherwise
    it reads the file whose name is greatest in code-unit order among
    those, and no other. *)
Theorem latest_snapshot_is_loaded (Data : Type) (indexDir : string)
        (names : list string) (readJson : string -> option Data) :
  Server.loadLatestIndex Data indexDir None readJson = None
  /\ (filter Server.isSnapshotName names = [] ->
      Server.loadLatestIndex Data indexDir (Some names) readJson = None)
  /\ (filter Server.isSnapshotName names <> [] ->
      exists latest,
        In latest names
        /\ Server.isSnapshotName latest = true
        /\ (forall f, In f names -> Server.isSnapshotName f = true ->
                      String.leb f latest = true)
        /\ Server.loadLatestIndex Data indexDir (Some names) readJson
           = readJson (Path.join indexDir latest)).
Proof.
  split; [reflexivity|]. split.
  - unfold Server.loadLatestIndex. intros ->. reflexivity.
  - apply loadLatestIndex_max.
Qed.

Lemma latest_snapshot_is_loaded_witness :
  Server.loadLatestIndex nat "E:/AIIndex"
    (Some ["index_2026-01-01.json"; "notes.txt"; "index_2026-02-01.json"])
    (fun path => Some (String.length path))
  = Some 32.
Proof.
  destruct (proj2 (proj2 (latest_snapshot_is_loaded nat "E:/AIIndex"
              ["index_2026-01-01.json"; "notes.txt"; "index_2026-02-01.json"]
              (fun path => Some (String.length path)))))
    as [latest [_ [_ [_ H]]]].
  - discriminate.
  - reflexivity.
Defined.

Lemma folder_meta_bounds_witness :
  Server.computeFolderMetaAsync nestedFs (fun _ => true) "t0" "/missing" 3 100
  = Some (Server.mkMeta 0 0 "t0").
Proof.
  pose proof (folder_meta_bounds nestedFs (fun _ => true) "t0" "/missing" 3 100) as H.
  destruct (Server.computeFolderMetaAsync nestedFs (fun _ => true) "t0" "/missing" 3 100)
    as [[count bytes stamp]|]; [|discriminate].
  destruct H as [_ [_ [H3 H4]]]. cbn in *. destruct (H4 eq_refl) as [-> ->].
  now rewrite H3.
Defined.

(** ** Selection rules of the panel *)

Lemma unique_from (l : list string) :
  forall acc,
    NoDup acc ->
    NoDup (fold_left (fun seen x => Indexer.setAdd x seen) l acc)
    /\ forall y, In y (fold_left (fun seen x => Indexer.setAdd x seen) l acc)
                 <-> In y acc \/ In y l.
Proof.
  induction l as [|x l IH]; intros acc Hnd; cbn [fold_left].
  - split; [exact Hnd|]. intros y. simpl. tauto.
  - destruct (IH (Indexer.setAdd x acc) (setAdd_NoDup x acc Hnd)) as [H1 H2].
    split; [exact H1|]. intros y. rewrite H2, setAdd_In. simpl. intuition.
Qed.

Lemma unique_facts (l : list string) :
  NoDup (Panel.unique l) /\ forall y, In y (Panel.unique l) <-> In y l.
Proof.
  destruct (unique_from l [] (NoDup_nil _)) as [H1 H2]. split; [exact H1|].
  intros y. unfold Panel.unique. rewrite H2. simpl. tauto.
Qed.

Lemma without_In (path y : string) (l : list string) :
  In y (Panel.without path l) <-> In y l /\ y <> path.
Proof.
  unfold Panel.without. rewrite filter_In, negb_true_iff, String.eqb_neq. tauto.
Qed.

(** X26 ([includePath] and [RuleList onRemove] and [/api/selection]):
    Including a path puts it in the include list and removes it from the
    exclude list, and excluding does the reverse; the list added to has
    no repeats, other paths are untouched, a selection in which no path
    is both included and excluded stays so under include, exclude and
    both remove handlers, and the server stores the posted selection as
    sent. *)
Theorem selection_toggles (selection : Indexer.Selection) (path : string) :
  let inc := Panel.includePath selection path in
  let exc := Panel.excludePath selection path in
  (In path (Indexer.include inc) /\ ~ In path (Indexer.exclude inc))
  /\ (In path (Indexer.exclude exc) /\ ~ In path (Indexer.include exc))
  /\ (NoDup (Indexer.include inc) /\ NoDup (Indexer.exclude exc))
  /\ (forall x, x <> path ->
        (In x (Indexer.include inc) <-> In x (Indexer.include selection))
        /\ (In x (Indexer.exclude inc) <-> In x (Indexer.exclude selection))
        /\ (In x (Indexer.include exc) <-> In x (Indexer.include selection))
        /\ (In x (Indexer.exclude exc) <-> In x (Indexer.exclude selection)))
  /\ (consistent selection ->
      consistent inc /\ consistent exc
      /\ consistent (Panel.removeInclude selection path)
      /\ consistent (Panel.removeExclude selection path))
  /\ fst (Panel.postSelection (Panel.saveSelection inc) selection) = inc.
Proof.
  cbv zeta. unfold Panel.includePath, Panel.excludePath, consistent.
  cbn [Indexer.include Indexer.exclude].
  destruct (unique_facts (Indexer.include selection ++ [path])) as [Ni Ii].
  destruct (unique_facts (Indexer.exclude selection ++ [path])) as [Ne Ie].
  split; [|split; [|split; [|split; [|split]]]].
  - split; [apply Ii, in_or_app; right; now left|].
    rewrite without_In. tauto.
  - split; [apply Ie, in_or_app; right; now left|].
    rewrite without_In. tauto.
  - auto.
  - intros x Hx. rewrite Ii, Ie, !without_In, !in_app_iff. simpl. intuition congruence.
  - intros Hc. repeat split; cbn [Indexer.include Indexer.exclude Panel.removeInclude
                                   Panel.removeExclude];
      intros x; rewrite ?Ii, ?Ie, ?without_In, ?in_app_iff; simpl;
      specialize (Hc x); intuition congruence.
  - reflexivity.
Qed.

Lemma selection_toggles_witness :
  consistent (Panel.excludePath (Indexer.mkSelection ["E:/docs"; "E:/tmp"] []) "E:/tmp").
Proof.
  apply (proj1 (proj2 (proj1 (proj2 (proj2 (proj2 (proj2
           (selection_toggles (Indexer.mkSelection ["E:/docs"; "E:/tmp"] []) "E:/tmp")))))
           ltac:(intros x _ [])))).
Defined.

Section EndToEnd.
Variable regexpTest : string -> string -> bool.

Lemma queueFiles_selected (world : Indexer.World) (selection : Indexer.Selection)
      (f : string) :
  In f (Indexer.queueFiles regexpTest world selection) ->
  Indexer.isSelected regexpTest selection f = true.
Proof.
  unfold Indexer.queueFiles. intros H. apply in_flat_map in H.
  destruct H as [root [_ H]]. unfold Indexer.collectFiles in H.
  now apply walk_selected in H.
Qed.

(** X27 ([excludePath] and [/api/selection] and [collectFiles] and
    [runIndexing]): After a star-free folder path is excluded in the
    panel and the selection is saved on the server, no file the worker
    queues for a run matches that rule; in particular no queued file
    lies below the excluded folder. *)
Theorem excluded_folder_is_never_queued
        (world : Indexer.World) (selection stored : Indexer.Selection) (path : string) :
  JS.containsChar "*" path = false ->
  let saved :=
    fst (Panel.postSelection (Panel.saveSelection (Panel.excludePath selection path))
                             stored) in
  forall f,
    In f (Indexer.queueFiles regexpTest world saved) ->
    Indexer.matchesGlob regexpTest f path = false
    /\ forall rest, f <> (path ++ "/" ++ rest)%string.
Proof.
  intros Hstar saved f Hin.
  apply queueFiles_selected, isSelected_iff in Hin. destruct Hin as [_ Hex].
  assert (Indexer.matchesGlob regexpTest f path = false) as Hm.
  { apply Hex. subst saved. cbn [Panel.postSelection Panel.saveSelection fst
      Panel.sel_include Panel.sel_exclude Indexer.exclude Panel.excludePath].
    apply unique_facts, in_or_app. right. now left. }
  split; [exact Hm|]. intros rest ->.
  rewrite matchesGlob_below in Hm by exact Hstar. discriminate.
Qed.

End EndToEnd.

Lemma excluded_folder_is_never_queued_witness :
  ~ In "/data/tmp/b.txt"
       (Indexer.queueFiles Indexer.anchoredRegExpTest sampleWorld
          (Panel.excludePath wideSelection "/data/tmp")).
Proof.
  intros Hin.
  destruct (excluded_folder_is_never_queued Indexer.anchoredRegExpTest sampleWorld
              wideSelection wideSelection "/data/tmp" eq_refl "/data/tmp/b.txt" Hin)
    as [_ H].
  apply (H "b.txt"). reflexivity.
Defined.

(** ** Stopping a run *)

















Section Stop.
Variable regexpTest : string -> string -> bool.


End Stop.


(** ** Snapshot files *)

Lemma compare_app_prefix (p a b : string) :
  String.compare (p ++ a) (p ++ b) = String.compare a b.
Proof.
  induction p as [|c p IH]; [reflexivity|]. simpl.
  assert (Ascii.compare c c = Eq) as ->; [|exact IH].
  unfold Ascii.compare. apply N.compare_refl.
Qed.

(** Replacing colons and dots keeps the order of two time stamps of the
    same shape. *)
Lemma timestamp_compare (a b : string) :
  sameShape a b ->
  String.compare (SnapshotFile.timestamp a ++ ".json")
                 (SnapshotFile.timestamp b ++ ".json")
  = String.compare a b.
Proof.
  revert b. induction a as [|c a IH]; intros [|d b] H; simpl in H;
    [reflexivity|destruct H|destruct H|].
  destruct H as [Hsep H]. cbn [SnapshotFile.timestamp append String.compare].
  destruct (Ascii.eqb c ":" || Ascii.eqb c "." || Ascii.eqb d ":" || Ascii.eqb d ".")
    eqn:E.
  - rewrite (Hsep eq_refl).
    assert (forall x, Ascii.compare x x = Eq) as Hrefl
        by (intros x; unfold Ascii.compare; apply N.compare_refl).
    rewrite !Hrefl. now apply IH.
  - rewrite !orb_false_iff in E. destruct E as [[[E1 E2] E3] E4].
    rewrite E1, E2, E3, E4. cbn [orb].
    destruct (Ascii.compare c d); [now apply IH|reflexivity|reflexivity].
Qed.

Lemma dataName_candidate (iso : string) :
  Server.isSnapshotName (SnapshotFile.dataName iso) = true.
Proof.
  unfold Server.isSnapshotName, SnapshotFile.dataName, SnapshotFile.indexName.
  apply andb_true_intro. split.
  - rewrite append_assoc. apply startsWith_app.
  - unfold Server.endsWith. rewrite length_append.
    replace (String.length ("index_" ++ SnapshotFile.timestamp iso)
             + String.length ".json" - String.length ".json")
      with (String.length ("index_" ++ SnapshotFile.timestamp iso)) by lia.
    rewrite drop_length, String.eqb_refl, andb_true_r. apply Nat.leb_le. lia.
Qed.

Lemma dataName_leb (a b : string) :
  sameShape a b ->
  String.leb (SnapshotFile.dataName a) (SnapshotFile.dataName b) = String.leb a b.
Proof.
  intros H. unfold String.leb, SnapshotFile.dataName, SnapshotFile.indexName.
  now rewrite !append_assoc, compare_app_prefix, timestamp_compare.
Qed.

(** X29 ([saveIndexToDisk] and [loadLatestIndex]): Every file name
    saveIndexToDisk writes is one loadLatestIndex considers, and among
    snapshots written at ISO times of the same shape the server loads
    the one written last, whatever other files that are not snapshots
    the directory holds. *)
Theorem newest_snapshot_is_loaded (Data : Type) (indexDir : string)
        (times : list string) (others : list string) (newest : string)
        (readJson : string -> option Data) :
  In newest times ->
  (forall t, In t times -> sameShape t newest /\ String.leb t newest = true) ->
  (forall f, In f others -> Server.isSnapshotName f = false) ->
  (forall iso, Server.isSnapshotName (SnapshotFile.dataName iso) = true)
  /\ Server.loadLatestIndex Data indexDir
       (Some (map SnapshotFile.dataName times ++ others)) readJson
     = readJson (SnapshotFile.dataPath indexDir newest).
Proof.
  intros Hnew Htimes Hothers. split; [apply dataName_candidate|].
  set (names := map SnapshotFile.dataName times ++ others).
  assert (In (SnapshotFile.dataName newest) names) as Hin
      by (apply in_or_app; left; now apply in_map).
  destruct (loadLatestIndex_max Data indexDir names readJson)
    as [latest [Hl [Hs [Hmax ->]]]].
  { intros E.
    assert (In (SnapshotFile.dataName newest) (filter Server.isSnapshotName names))
      as H by (apply filter_In; split; [exact Hin|apply dataName_candidate]).
    rewrite E in H. destruct H. }
  unfold SnapshotFile.dataPath. do 2 f_equal. apply String.leb_antisym.
  - apply in_app_or in Hl. destruct Hl as [Hl|Hl].
    + apply in_map_iff in Hl. destruct Hl as [t [<- Ht]].
      destruct (Htimes t Ht) as [Hshape Hle]. now rewrite dataName_leb.
    + rewrite (Hothers latest Hl) in Hs. discriminate.
  - apply Hmax; [exact Hin|apply dataName_candidate].
Qed.

Lemma newest_snapshot_is_loaded_witness :
  Server.loadLatestIndex string "E:/AIIndex"
    (Some (map SnapshotFile.dataName
               ["2026-01-01T10:00:00.000Z"; "2026-01-01T09:59:59.999Z"]
           ++ ["readme.md"]))
    (fun path => Some path)
  = Some "E:/AIIndex/index_2026-01-01T10-00-00-000Z.json".
Proof.
  apply (proj2 (newest_snapshot_is_loaded string "E:/AIIndex"
                  ["2026-01-01T10:00:00.000Z"; "2026-01-01T09:59:59.999Z"]
                  ["readme.md"] "2026-01-01T10:00:00.000Z" (fun path => Some path)
                  (or_introl eq_refl)
                  ltac:(intros t [<-|[<-|[]]]; split;
                        [cbn; intuition congruence|reflexivity
                        |cbn; intuition congruence|reflexivity])
                  ltac:(intros f [<-|[]]; reflexivity))).
Defined.

